(** * Online session layer of the match-3 battle service

    A shallow embedding of the state synchronizer ([src/StateSynchronizer.ts]),
    the conflict resolver ([ConflictResolver.ts]), the reconnection manager
    ([src/ReconnectionManager.ts]) and the battle server
    ([server/battleServer.cjs]), with the properties their specification
    states about them.

    Conventions.  JavaScript numbers that the program uses as counters,
    versions and millisecond timestamps are integers [Z]; the three running
    averages are kept as exact rationals.  [Date.now()] and the random room
    identifier are inputs of the function that reads them.  A call that can
    raise a [TypeError] returns an [outcome]. *)

From Stdlib Require Import ZArith QArith Lia.
From stdpp Require Import base option list strings pretty gmap.

(** ** Results of calls that may throw *)

(** [Returns a]: the call returns [a].  [Throws]: the call raises a
    [TypeError] (a property of [undefined] is read or written).  [Untyped]:
    JavaScript would go on, but with an object that no longer has its declared
    TypeScript type (a hole in a grid row, a field holding a value of another
    type); the typed records below cannot hold it and the embedding stops. *)
Inductive outcome (A : Type) : Type :=
| Returns (a : A)
| Throws
| Untyped.
Arguments Returns {A} a.
Arguments Throws {A}.
Arguments Untyped {A}.

#[global] Instance outcome_ret : MRet outcome := λ A, Returns.
#[global] Instance outcome_bind : MBind outcome := λ A B f m,
  match m with
  | Returns a => f a
  | Throws => Throws
  | Untyped => Untyped
  end.

(** ** Grids and snapshots (GridSystem.ts, GameEventType, StateSynchronizer.ts) *)

Inductive CandyType := RED | BLUE | GREEN | YELLOW | PURPLE | EMPTY.

#[global] Instance CandyType_eq_dec : EqDecision CandyType.
Proof. solve_decision. Defined.

Inductive GameEventType :=
| GRAVITY_REVERSE | FROZEN_COLORS | COMBO_BONUS | OBSTACLE_GENERATE | SPEED_UP.

#[global] Instance GameEventType_eq_dec : EqDecision GameEventType.
Proof. solve_decision. Defined.

Record Position := { row : nat; col : nat }.

#[global] Instance Position_eq_dec : EqDecision Position.
Proof. solve_decision. Defined.

(** [CandyType[][]]: a list of rows. *)
Abbreviation Grid := (list (list CandyType)).

(** [grid[row][col]] as an expression: [None] is JavaScript's [undefined];
    [Throws] when [grid[row]] itself is [undefined]. *)
Definition readCell (grid : Grid) (r c : nat) : outcome (option CandyType) :=
  match grid !! r with
  | None => Throws
  | Some cells => Returns (cells !! c)
  end.

Record StateSnapshot := {
  timestamp : Z;
  version : Z;
  playerGrid : Grid;
  opponentGrid : Grid;
  playerScore : Z;
  opponentScore : Z;
  playerMoves : Z;
  opponentMoves : Z;
  eventProgress : Z;
  activeEvents : list GameEventType;
  currentTurn : string
}.

(** [JSON.parse(JSON.stringify(obj))]: on a value of the types above (strings,
    integers, arrays and records of them) the round trip gives an equal value,
    and the embedding has no object identity to separate the copy from the
    original. *)
Definition deepClone {A : Type} (obj : A) : A := obj.

(** ** Sums of numbers

    A JavaScript number is a double.  Every integer of magnitude up to 2^53
    is a double; a sum of two integers is taken exactly and then rounded to
    the nearest double, to the one with the even significand when two are
    equally near.  [toDouble n] is that double for the exact sum [n]: [n]
    itself up to 2^53, a multiple of the spacing of the doubles of its
    magnitude above.  It is written out in [resolveMerge], whose result is
    the sum itself, of a version that a peer sends.  The other sums and
    differences are of counters, versions, scores and clock readings taken to
    stay where such arithmetic is exact. *)
Definition toDouble (n : Z) : Z :=
  let a := Z.abs n in
  if (a <? 2 ^ 53)%Z then n
  else
    let spacing := (2 ^ (Z.log2 a - 52))%Z in
    let q := (a / spacing)%Z in
    let rest := (a mod spacing)%Z in
    let q' := if (2 * rest <? spacing)%Z then q
              else if (spacing <? 2 * rest)%Z then (q + 1)%Z
              else if Z.even q then q else (q + 1)%Z in
    (Z.sgn n * (q' * spacing))%Z.

Arguments toDouble : simpl never.

(** ** The state synchronizer *)

Module StateSynchronizer.

Inductive StateChangeType :=
| GRID_UPDATE | SCORE_UPDATE | MOVES_UPDATE | EVENT_UPDATE | TURN_UPDATE.

(** [value: any], cut down to the values the snapshot's fields are declared
    to hold, and [undefined]. *)
Inductive JsValue :=
| VUndefined
| VCandy (c : CandyType)
| VNumber (n : Z)
| VEvents (l : list GameEventType)
| VString (s : string).

Definition jsCell (c : option CandyType) : JsValue :=
  match c with
  | Some v => VCandy v
  | None => VUndefined
  end.

Record StateChange := {
  type : StateChangeType;
  path : string;
  value : JsValue;
  oldValue : JsValue
}.

Record StateDelta := {
  deltaVersion : Z;        (* version *)
  baseVersion : Z;
  changes : list StateChange;
  deltaTimestamp : Z       (* timestamp *)
}.

Inductive SyncMode := FULL | DELTA | HYBRID.

Record SyncStats := {
  totalSyncs : Z;
  fullSyncs : Z;
  deltaSyncs : Z;
  averageDeltaSize : Q;
  averageLatency : Q;
  conflictCount : Z;
  lastSyncTime : Z
}.

(** The fields of the class; [maxDeltaSize] and [snapshotInterval] are never
    assigned after their initialisers and are constants here. *)
Record Synchronizer := {
  currentSnapshot : option StateSnapshot;
  previousSnapshot : option StateSnapshot;
  syncVersion : Z;         (* version *)
  syncMode : SyncMode;
  stats : SyncStats
}.

Definition maxDeltaSize : nat := 50.
Definition snapshotInterval : Z := 10.

Definition initialStats : SyncStats :=
  {| totalSyncs := 0; fullSyncs := 0; deltaSyncs := 0; averageDeltaSize := 0;
     averageLatency := 0; conflictCount := 0; lastSyncTime := 0 |}.

Definition new (mode : SyncMode) : Synchronizer :=
  {| currentSnapshot := None; previousSnapshot := None; syncVersion := 0;
     syncMode := mode; stats := initialStats |}.

(** [createSnapshot]; [now] is [Date.now()]. *)
Definition createSnapshot (this : Synchronizer) (now : Z)
    (pGrid oGrid : Grid) (pScore oScore pMoves oMoves progress : Z)
    (events : list GameEventType) (turn : string)
  : StateSnapshot * Synchronizer :=
  let v := (syncVersion this + 1)%Z in
  let snapshot :=
    {| timestamp := now; version := v;
       playerGrid := deepClone pGrid; opponentGrid := deepClone oGrid;
       playerScore := pScore; opponentScore := oScore;
       playerMoves := pMoves; opponentMoves := oMoves;
       eventProgress := progress; activeEvents := events;
       currentTurn := turn |} in
  (snapshot,
   {| currentSnapshot := Some snapshot;
      previousSnapshot := currentSnapshot this;
      syncVersion := v; syncMode := syncMode this; stats := stats this |}).

(** *** Cell paths *)

Inductive GridName := PlayerGrid | OpponentGrid.

#[global] Instance GridName_eq_dec : EqDecision GridName.
Proof. solve_decision. Defined.

Definition gridPath (g : GridName) : string :=
  match g with
  | PlayerGrid => "playerGrid"
  | OpponentGrid => "opponentGrid"
  end.

(** [`${path}[${row}][${col}]`] *)
Definition cellPath (p : string) (r c : nat) : string :=
  p +:+ "[" +:+ pretty r +:+ "][" +:+ pretty c +:+ "]".

Definition isDigit (a : Ascii.ascii) : bool :=
  let n := Ascii.nat_of_ascii a in (48 <=? n)%nat && (n <=? 57)%nat.

Fixpoint stripPrefix (p s : string) : option string :=
  match p with
  | EmptyString => Some s
  | String a p' =>
      match s with
      | String b s' => if Ascii.eqb a b then stripPrefix p' s' else None
      | EmptyString => None
      end
  end.

(** [(\d+)] followed by [parseInt(_, 10)]: the longest run of digits, which
    must not be empty, and what follows it. *)
Fixpoint digits (s : string) (acc : N) (seen : bool) : option (N * string) :=
  match s with
  | String a s' =>
      if isDigit a
      then digits s' (10 * acc + N.of_nat (Ascii.nat_of_ascii a - 48))%N true
      else if seen then Some (acc, s) else None
  | EmptyString => if seen then Some (acc, s) else None
  end.

Definition gridPrefix (p : string) : option (GridName * string) :=
  match stripPrefix "playerGrid" p with
  | Some rest => Some (PlayerGrid, rest)
  | None =>
      match stripPrefix "opponentGrid" p with
      | Some rest => Some (OpponentGrid, rest)
      | None => None
      end
  end.

(** [change.path.match(/^(playerGrid|opponentGrid)\[(\d+)\]\[(\d+)\]$/)] *)
Definition matchCellPath (p : string) : option (GridName * nat * nat) :=
  '(g, s0) ← gridPrefix p;
  s1 ← stripPrefix "[" s0;
  '(r, s2) ← digits s1 0%N false;
  s3 ← stripPrefix "][" s2;
  '(c, s4) ← digits s3 0%N false;
  s5 ← stripPrefix "]" s4;
  if String.eqb s5 "" then Some (g, N.to_nat r, N.to_nat c) else None.

(** *** applyDelta *)

Definition getGrid (g : GridName) (s : StateSnapshot) : Grid :=
  match g with
  | PlayerGrid => playerGrid s
  | OpponentGrid => opponentGrid s
  end.

Definition setGrid (g : GridName) (grid : Grid) (s : StateSnapshot) : StateSnapshot :=
  match g with
  | PlayerGrid =>
      {| timestamp := timestamp s; version := version s;
         playerGrid := grid; opponentGrid := opponentGrid s;
         playerScore := playerScore s; opponentScore := opponentScore s;
         playerMoves := playerMoves s; opponentMoves := opponentMoves s;
         eventProgress := eventProgress s; activeEvents := activeEvents s;
         currentTurn := currentTurn s |}
  | OpponentGrid =>
      {| timestamp := timestamp s; version := version s;
         playerGrid := playerGrid s; opponentGrid := grid;
         playerScore := playerScore s; opponentScore := opponentScore s;
         playerMoves := playerMoves s; opponentMoves := opponentMoves s;
         eventProgress := eventProgress s; activeEvents := activeEvents s;
         currentTurn := currentTurn s |}
  end.

Definition setVersionTimestamp (v t : Z) (s : StateSnapshot) : StateSnapshot :=
  {| timestamp := t; version := v;
     playerGrid := playerGrid s; opponentGrid := opponentGrid s;
     playerScore := playerScore s; opponentScore := opponentScore s;
     playerMoves := playerMoves s; opponentMoves := opponentMoves s;
     eventProgress := eventProgress s; activeEvents := activeEvents s;
     currentTurn := currentTurn s |}.

Definition setPlayerScore (n : Z) (s : StateSnapshot) : StateSnapshot :=
  {| timestamp := timestamp s; version := version s;
     playerGrid := playerGrid s; opponentGrid := opponentGrid s;
     playerScore := n; opponentScore := opponentScore s;
     playerMoves := playerMoves s; opponentMoves := opponentMoves s;
     eventProgress := eventProgress s; activeEvents := activeEvents s;
     currentTurn := currentTurn s |}.

Definition setOpponentScore (n : Z) (s : StateSnapshot) : StateSnapshot :=
  {| timestamp := timestamp s; version := version s;
     playerGrid := playerGrid s; opponentGrid := opponentGrid s;
     playerScore := playerScore s; opponentScore := n;
     playerMoves := playerMoves s; opponentMoves := opponentMoves s;
     eventProgress := eventProgress s; activeEvents := activeEvents s;
     currentTurn := currentTurn s |}.

Definition setPlayerMoves (n : Z) (s : StateSnapshot) : StateSnapshot :=
  {| timestamp := timestamp s; version := version s;
     playerGrid := playerGrid s; opponentGrid := opponentGrid s;
     playerScore := playerScore s; opponentScore := opponentScore s;
     playerMoves := n; opponentMoves := opponentMoves s;
     eventProgress := eventProgress s; activeEvents := activeEvents s;
     currentTurn := currentTurn s |}.

Definition setOpponentMoves (n : Z) (s : StateSnapshot) : StateSnapshot :=
  {| timestamp := timestamp s; version := version s;
     playerGrid := playerGrid s; opponentGrid := opponentGrid s;
     playerScore := playerScore s; opponentScore := opponentScore s;
     playerMoves := playerMoves s; opponentMoves := n;
     eventProgress := eventProgress s; activeEvents := activeEvents s;
     currentTurn := currentTurn s |}.

Definition setEventProgress (n : Z) (s : StateSnapshot) : StateSnapshot :=
  {| timestamp := timestamp s; version := version s;
     playerGrid := playerGrid s; opponentGrid := opponentGrid s;
     playerScore := playerScore s; opponentScore := opponentScore s;
     playerMoves := playerMoves s; opponentMoves := opponentMoves s;
     eventProgress := n; activeEvents := activeEvents s;
     currentTurn := currentTurn s |}.

Definition setActiveEvents (l : list GameEventType) (s : StateSnapshot) : StateSnapshot :=
  {| timestamp := timestamp s; version := version s;
     playerGrid := playerGrid s; opponentGrid := opponentGrid s;
     playerScore := playerScore s; opponentScore := opponentScore s;
     playerMoves := playerMoves s; opponentMoves := opponentMoves s;
     eventProgress := eventProgress s; activeEvents := l;
     currentTurn := currentTurn s |}.

Definition setCurrentTurn (t : string) (s : StateSnapshot) : StateSnapshot :=
  {| timestamp := timestamp s; version := version s;
     playerGrid := playerGrid s; opponentGrid := opponentGrid s;
     playerScore := playerScore s; opponentScore := opponentScore s;
     playerMoves := playerMoves s; opponentMoves := opponentMoves s;
     eventProgress := eventProgress s; activeEvents := activeEvents s;
     currentTurn := t |}.

(** [cells[col] = v] on an array of candies: inside the array the element is
    replaced, at its end the array grows by one, further out JavaScript leaves
    holes before the new element. *)
Definition writeCell (cells : list CandyType) (c : nat) (v : CandyType)
  : outcome (list CandyType) :=
  if (c <? length cells)%nat then Returns (<[c := v]> cells)
  else if (c =? length cells)%nat then Returns (cells ++ [v])
  else Untyped.

(** [applyGridChange]: a path the pattern does not match is skipped;
    [snapshot.playerGrid[row][col] = change.value] throws when the row does
    not exist. *)
Definition applyGridChange (snapshot : StateSnapshot) (change : StateChange)
  : outcome StateSnapshot :=
  match matchCellPath (path change) with
  | None => Returns snapshot
  | Some (gridName, r, c) =>
      match getGrid gridName snapshot !! r with
      | None => Throws
      | Some cells =>
          match value change with
          | VCandy v =>
              cells' ← writeCell cells c v;
              Returns (setGrid gridName (<[r := cells']> (getGrid gridName snapshot)) snapshot)
          | _ => Untyped
          end
      end
  end.

Definition assignNumber (set : Z → StateSnapshot → StateSnapshot)
    (v : JsValue) (s : StateSnapshot) : outcome StateSnapshot :=
  match v with
  | VNumber n => Returns (set n s)
  | _ => Untyped
  end.

(** The body of the [for (const change of delta.changes)] loop. *)
Definition applyChange (updated : StateSnapshot) (change : StateChange)
  : outcome StateSnapshot :=
  match type change with
  | GRID_UPDATE => applyGridChange updated change
  | SCORE_UPDATE =>
      if String.eqb (path change) "playerScore"
      then assignNumber setPlayerScore (value change) updated
      else if String.eqb (path change) "opponentScore"
      then assignNumber setOpponentScore (value change) updated
      else Returns updated
  | MOVES_UPDATE =>
      if String.eqb (path change) "playerMoves"
      then assignNumber setPlayerMoves (value change) updated
      else if String.eqb (path change) "opponentMoves"
      then assignNumber setOpponentMoves (value change) updated
      else Returns updated
  | EVENT_UPDATE =>
      if String.eqb (path change) "eventProgress"
      then assignNumber setEventProgress (value change) updated
      else if String.eqb (path change) "activeEvents"
      then match value change with
           | VEvents l => Returns (setActiveEvents l updated)
           | _ => Untyped
           end
      else Returns updated
  | TURN_UPDATE =>
      match value change with
      | VString t => Returns (setCurrentTurn t updated)
      | _ => Untyped
      end
  end.

Fixpoint applyChanges (updated : StateSnapshot) (cs : list StateChange)
  : outcome StateSnapshot :=
  match cs with
  | [] => Returns updated
  | change :: rest => updated' ← applyChange updated change; applyChanges updated' rest
  end.

Definition applyDelta (snapshot : StateSnapshot) (delta : StateDelta)
  : outcome StateSnapshot :=
  let updated := deepClone snapshot in
  let updated := setVersionTimestamp (deltaVersion delta) (deltaTimestamp delta) updated in
  applyChanges updated (changes delta).

(** *** generateDelta *)

(** The inner loop of [compareGrids] on one row: [newRow] is [newGrid[row]],
    read at every column, so a missing row throws at the first column. *)
Fixpoint compareCells (oldCells : list CandyType) (newRow : option (list CandyType))
    (p : string) (r c : nat) (changes : list StateChange)
  : outcome (list StateChange) :=
  match oldCells with
  | [] => Returns changes
  | old :: rest =>
      match newRow with
      | None => Throws
      | Some cells =>
          let changes' :=
            if bool_decide (cells !! c = Some old) then changes
            else changes ++ [ {| type := GRID_UPDATE; path := cellPath p r c;
                                 value := jsCell (cells !! c);
                                 oldValue := VCandy old |} ] in
          compareCells rest newRow p r (S c) changes'
      end
  end.

Fixpoint compareRows (oldRows : Grid) (newGrid : Grid)
    (p : string) (r : nat) (changes : list StateChange)
  : outcome (list StateChange) :=
  match oldRows with
  | [] => Returns changes
  | oldCells :: rest =>
      changes' ← compareCells oldCells (newGrid !! r) p r 0 changes;
      compareRows rest newGrid p (S r) changes'
  end.

Definition compareGrids (oldGrid newGrid : Grid) (p : string)
    (changes : list StateChange) : outcome (list StateChange) :=
  compareRows oldGrid newGrid p 0 changes.

Definition pushUnlessEqual {A : Type} `{EqDecision A} (old new : A)
    (change : StateChange) (changes : list StateChange) : list StateChange :=
  if bool_decide (old = new) then changes else changes ++ [change].

Definition numberChange (t : StateChangeType) (p : string) (old new : Z) : StateChange :=
  {| type := t; path := p; value := VNumber new; oldValue := VNumber old |}.

(** [generateDelta]; [now] is [Date.now()].  [None] is [null]. *)
Definition generateDelta (this : Synchronizer) (now : Z) : outcome (option StateDelta) :=
  match currentSnapshot this, previousSnapshot this with
  | Some current, Some previous =>
      changes ← compareGrids (playerGrid previous) (playerGrid current) "playerGrid" [];
      changes ← compareGrids (opponentGrid previous) (opponentGrid current) "opponentGrid" changes;
      let changes :=
        pushUnlessEqual (playerScore previous) (playerScore current)
          (numberChange SCORE_UPDATE "playerScore" (playerScore previous) (playerScore current))
          changes in
      let changes :=
        pushUnlessEqual (opponentScore previous) (opponentScore current)
          (numberChange SCORE_UPDATE "opponentScore" (opponentScore previous) (opponentScore current))
          changes in
      let changes :=
        pushUnlessEqual (playerMoves previous) (playerMoves current)
          (numberChange MOVES_UPDATE "playerMoves" (playerMoves previous) (playerMoves current))
          changes in
      let changes :=
        pushUnlessEqual (opponentMoves previous) (opponentMoves current)
          (numberChange MOVES_UPDATE "opponentMoves" (opponentMoves previous) (opponentMoves current))
          changes in
      let changes :=
        pushUnlessEqual (eventProgress previous) (eventProgress current)
          (numberChange EVENT_UPDATE "eventProgress" (eventProgress previous) (eventProgress current))
          changes in
      let changes :=
        pushUnlessEqual (activeEvents previous) (activeEvents current)
          {| type := EVENT_UPDATE; path := "activeEvents";
             value := VEvents (activeEvents current);
             oldValue := VEvents (activeEvents previous) |}
          changes in
      let changes :=
        pushUnlessEqual (currentTurn previous) (currentTurn current)
          {| type := TURN_UPDATE; path := "currentTurn";
             value := VString (currentTurn current);
             oldValue := VString (currentTurn previous) |}
          changes in
      if (length changes =? 0)%nat then Returns None
      else Returns (Some {| deltaVersion := version current;
                            baseVersion := version previous;
                            changes := changes;
                            deltaTimestamp := now |})
  | _, _ => Returns None
  end.

(** *** shouldUseDeltaSync and prepareSyncData *)

Definition shouldUseDeltaSync (this : Synchronizer) (now : Z) : outcome bool :=
  match syncMode this with
  | FULL => Returns false
  | DELTA => Returns true
  | HYBRID =>
      match previousSnapshot this with
      | None => Returns false
      | Some _ =>
          if (Z.rem (totalSyncs (stats this)) snapshotInterval =? 0)%Z
          then Returns false
          else
            delta ← generateDelta this now;
            match delta with
            | None => Returns true
            | Some d => Returns (length (changes d) <=? maxDeltaSize)%nat
            end
      end
  end.

Definition withStats (st : SyncStats) (this : Synchronizer) : Synchronizer :=
  {| currentSnapshot := currentSnapshot this;
     previousSnapshot := previousSnapshot this;
     syncVersion := syncVersion this; syncMode := syncMode this; stats := st |}.

Definition countDeltaSync (st : SyncStats) : SyncStats :=
  {| totalSyncs := totalSyncs st; fullSyncs := fullSyncs st;
     deltaSyncs := deltaSyncs st + 1; averageDeltaSize := averageDeltaSize st;
     averageLatency := averageLatency st; conflictCount := conflictCount st;
     lastSyncTime := lastSyncTime st |}.

Definition countFullSync (st : SyncStats) : SyncStats :=
  {| totalSyncs := totalSyncs st; fullSyncs := fullSyncs st + 1;
     deltaSyncs := deltaSyncs st; averageDeltaSize := averageDeltaSize st;
     averageLatency := averageLatency st; conflictCount := conflictCount st;
     lastSyncTime := lastSyncTime st |}.

Definition recordDeltaSize (n : nat) (st : SyncStats) : SyncStats :=
  {| totalSyncs := totalSyncs st; fullSyncs := fullSyncs st;
     deltaSyncs := deltaSyncs st;
     averageDeltaSize :=
       ((averageDeltaSize st * inject_Z (deltaSyncs st - 1) + inject_Z (Z.of_nat n))
        / inject_Z (deltaSyncs st))%Q;
     averageLatency := averageLatency st; conflictCount := conflictCount st;
     lastSyncTime := lastSyncTime st |}.

(** [StateSnapshot | StateDelta | null] *)
Inductive SyncData :=
| NoData
| FullData (snapshot : StateSnapshot)
| DeltaData (delta : StateDelta).

(** [prepareSyncData]; [now1] and [now2] are the clock at the two calls of
    [generateDelta].  The synchronizer a throwing call leaves behind is not
    kept. *)
Definition prepareSyncData (this : Synchronizer) (now1 now2 : Z)
  : outcome (SyncData * Synchronizer) :=
  match currentSnapshot this with
  | None => Returns (NoData, this)
  | Some current =>
      useDelta ← shouldUseDeltaSync this now1;
      if useDelta : bool then
        let this := withStats (countDeltaSync (stats this)) this in
        delta ← generateDelta this now2;
        match delta with
        | Some d =>
            Returns (DeltaData d,
                     withStats (recordDeltaSize (length (changes d)) (stats this)) this)
        | None => Returns (NoData, this)
        end
      else Returns (FullData current, withStats (countFullSync (stats this)) this)
  end.

Definition validateVersion (this : Synchronizer) (remoteVersion : Z) : bool :=
  match currentSnapshot this with
  | None => true
  | Some current => (version current - 5 <=? remoteVersion)%Z
  end.

Definition detectConflict (this : Synchronizer) (remoteVersion base : Z) : bool :=
  match currentSnapshot this with
  | None => false
  | Some current => (base <? version current)%Z
  end.

(** [updateStats]; [now] is [Date.now()]. *)
Definition updateStats (this : Synchronizer) (now : Z) (latency : Q)
    (hasConflict : bool) : Synchronizer :=
  let st := stats this in
  let total := (totalSyncs st + 1)%Z in
  withStats
    {| totalSyncs := total; fullSyncs := fullSyncs st; deltaSyncs := deltaSyncs st;
       averageDeltaSize := averageDeltaSize st;
       averageLatency :=
         ((averageLatency st * inject_Z (total - 1) + latency) / inject_Z total)%Q;
       conflictCount := if hasConflict then (conflictCount st + 1)%Z else conflictCount st;
       lastSyncTime := now |}
    this.

Definition reset (this : Synchronizer) : Synchronizer :=
  {| currentSnapshot := None; previousSnapshot := None; syncVersion := 0;
     syncMode := syncMode this; stats := initialStats |}.

(** *** Deltas that fit a snapshot

    A change fits a snapshot when it can be carried out on it as a typed
    assignment: a cell change whose path the pattern matches names a cell the
    snapshot has and carries a candy, a change of a named counter carries a
    number, and so on.  The data model fixes the dimensions of the grids of a
    room, and [generateDelta] only emits paths of cells of the base snapshot. *)

Definition cellExists (grid : Grid) (r c : nat) : bool :=
  match grid !! r with
  | Some cells => (c <? length cells)%nat
  | None => false
  end.

Definition isCandy (v : JsValue) : bool :=
  match v with VCandy _ => true | _ => false end.
Definition isNumber (v : JsValue) : bool :=
  match v with VNumber _ => true | _ => false end.
Definition isEvents (v : JsValue) : bool :=
  match v with VEvents _ => true | _ => false end.
Definition isString (v : JsValue) : bool :=
  match v with VString _ => true | _ => false end.

Definition changeFits (s : StateSnapshot) (change : StateChange) : bool :=
  match type change with
  | GRID_UPDATE =>
      match matchCellPath (path change) with
      | None => true
      | Some (g, r, c) => cellExists (getGrid g s) r c && isCandy (value change)
      end
  | SCORE_UPDATE =>
      if String.eqb (path change) "playerScore" || String.eqb (path change) "opponentScore"
      then isNumber (value change) else true
  | MOVES_UPDATE =>
      if String.eqb (path change) "playerMoves" || String.eqb (path change) "opponentMoves"
      then isNumber (value change) else true
  | EVENT_UPDATE =>
      if String.eqb (path change) "eventProgress" then isNumber (value change)
      else if String.eqb (path change) "activeEvents" then isEvents (value change)
      else true
  | TURN_UPDATE => isString (value change)
  end.

Definition deltaFits (s : StateSnapshot) (delta : StateDelta) : bool :=
  forallb (changeFits s) (changes delta).

(** The lengths of the rows of both grids. *)
Definition dimensions (s : StateSnapshot) : list nat * list nat :=
  (length <$> playerGrid s, length <$> opponentGrid s).

(** *** Changes as assignments

    What a fitting change does, as a total function: the field or the cell it
    assigns and the value it stores there.  Used to reason about sequences of
    changes; [applyChange] above is the definition of the program. *)

Inductive Assignment :=
| SetCell (g : GridName) (r c : nat) (v : CandyType)
| SetPlayerScore (n : Z)
| SetOpponentScore (n : Z)
| SetPlayerMoves (n : Z)
| SetOpponentMoves (n : Z)
| SetEventProgress (n : Z)
| SetActiveEvents (l : list GameEventType)
| SetCurrentTurn (t : string)
| Skip.

Definition numberAssignment (mk : Z → Assignment) (v : JsValue) : Assignment :=
  match v with VNumber n => mk n | _ => Skip end.

Definition assignmentOf (change : StateChange) : Assignment :=
  match type change with
  | GRID_UPDATE =>
      match matchCellPath (path change), value change with
      | Some (g, r, c), VCandy v => SetCell g r c v
      | _, _ => Skip
      end
  | SCORE_UPDATE =>
      if String.eqb (path change) "playerScore"
      then numberAssignment SetPlayerScore (value change)
      else if String.eqb (path change) "opponentScore"
      then numberAssignment SetOpponentScore (value change)
      else Skip
  | MOVES_UPDATE =>
      if String.eqb (path change) "playerMoves"
      then numberAssignment SetPlayerMoves (value change)
      else if String.eqb (path change) "opponentMoves"
      then numberAssignment SetOpponentMoves (value change)
      else Skip
  | EVENT_UPDATE =>
      if String.eqb (path change) "eventProgress"
      then numberAssignment SetEventProgress (value change)
      else if String.eqb (path change) "activeEvents"
      then match value change with VEvents l => SetActiveEvents l | _ => Skip end
      else Skip
  | TURN_UPDATE =>
      match value change with VString t => SetCurrentTurn t | _ => Skip end
  end.

Definition perform (a : Assignment) (s : StateSnapshot) : StateSnapshot :=
  match a with
  | SetCell g r c v => setGrid g (alter (λ cells, <[c := v]> cells) r (getGrid g s)) s
  | SetPlayerScore n => setPlayerScore n s
  | SetOpponentScore n => setOpponentScore n s
  | SetPlayerMoves n => setPlayerMoves n s
  | SetOpponentMoves n => setOpponentMoves n s
  | SetEventProgress n => setEventProgress n s
  | SetActiveEvents l => setActiveEvents l s
  | SetCurrentTurn t => setCurrentTurn t s
  | Skip => s
  end.

Fixpoint performAll (l : list Assignment) (s : StateSnapshot) : StateSnapshot :=
  match l with
  | [] => s
  | a :: rest => performAll rest (perform a s)
  end.

(** Two assignments to the same field or cell: the later one wins. *)
Definition sameTarget (a b : Assignment) : bool :=
  match a, b with
  | SetCell g r c _, SetCell g' r' c' _ =>
      bool_decide (g = g') && (r =? r')%nat && (c =? c')%nat
  | SetPlayerScore _, SetPlayerScore _
  | SetOpponentScore _, SetOpponentScore _
  | SetPlayerMoves _, SetPlayerMoves _
  | SetOpponentMoves _, SetOpponentMoves _
  | SetEventProgress _, SetEventProgress _
  | SetActiveEvents _, SetActiveEvents _
  | SetCurrentTurn _, SetCurrentTurn _ => true
  | _, _ => false
  end.

(** *** Conditions of the hybrid mode *)

(** The current snapshot has a row for every row of the previous one, in both
    grids (the grids of a room have fixed dimensions); [compareGrids] reads
    [newGrid[row]] for every non-empty row of the old grid. *)
Definition rowsCovered (this : Synchronizer) : bool :=
  match currentSnapshot this, previousSnapshot this with
  | Some current, Some previous =>
      (length (playerGrid previous) <=? length (playerGrid current))%nat &&
      (length (opponentGrid previous) <=? length (opponentGrid current))%nat
  | _, _ => true
  end.

(** [totalSyncs % 10 == 0] *)
Definition keyframeDue (this : Synchronizer) : Prop :=
  Z.rem (totalSyncs (stats this)) 10 = 0%Z.

(** The delta generated now holds more than 50 change records. *)
Definition deltaTooLarge (this : Synchronizer) (now : Z) : Prop :=
  ∃ delta, generateDelta this now = Returns (Some delta)
           ∧ (50 < length (changes delta))%nat.

(** *** Examples *)

Definition uniformGrid (c : CandyType) : Grid := replicate 8 (replicate 8 c).

Definition snapshotOf (v t : Z) (pGrid oGrid : Grid) (pScore : Z) (turn : string)
  : StateSnapshot :=
  {| timestamp := t; version := v; playerGrid := pGrid; opponentGrid := oGrid;
     playerScore := pScore; opponentScore := 0; playerMoves := 0; opponentMoves := 0;
     eventProgress := 0; activeEvents := []; currentTurn := turn |}.

Definition exampleSnapshot : StateSnapshot :=
  snapshotOf 1 1000 (uniformGrid RED) (uniformGrid BLUE) 0 "PLAYER".

Definition exampleDelta : StateDelta :=
  {| deltaVersion := 2; baseVersion := 1;
     changes :=
       [ {| type := GRID_UPDATE; path := "playerGrid[0][1]";
            value := VCandy PURPLE; oldValue := VCandy RED |};
         {| type := GRID_UPDATE; path := "playerGrid[0][1]";
            value := VCandy GREEN; oldValue := VCandy PURPLE |};
         {| type := SCORE_UPDATE; path := "playerScore";
            value := VNumber 30; oldValue := VNumber 0 |};
         {| type := TURN_UPDATE; path := "currentTurn";
            value := VString "OPPONENT"; oldValue := VString "PLAYER" |} ];
     deltaTimestamp := 2000 |}.

(** A synchronizer in hybrid mode after [n] syncs whose previous snapshot is
    all red and whose current one has [k] rows of yellow and [extra] more
    yellow cells in the next row in its player grid. *)
Definition yellowRows (k extra : nat) : Grid :=
  replicate k (replicate 8 YELLOW)
  ++ [replicate extra YELLOW ++ replicate (8 - extra) RED]
  ++ replicate (7 - k) (replicate 8 RED).

Definition hybridAfter (n : Z) (k extra : nat) : Synchronizer :=
  {| currentSnapshot :=
       Some (snapshotOf 2 2000 (yellowRows k extra) (uniformGrid BLUE) 0 "PLAYER");
     previousSnapshot := Some exampleSnapshot;
     syncVersion := 2; syncMode := HYBRID;
     stats := {| totalSyncs := n; fullSyncs := 1; deltaSyncs := n - 1;
                 averageDeltaSize := 0; averageLatency := 0; conflictCount := 0;
                 lastSyncTime := 0 |} |}.

(** *** Runs of calls

    The public methods that change a synchronizer, as the calls a client makes
    one after the other.  The arguments of [CreateSnapshot] are those of
    [createSnapshot]; [now], [now1] and [now2] are what [Date.now()] returns
    during the call; [latency] and [hasConflict] are the arguments of
    [updateStats]. *)
Inductive Call :=
| CreateSnapshot (now : Z) (pGrid oGrid : Grid)
    (pScore oScore pMoves oMoves progress : Z)
    (events : list GameEventType) (turn : string)
| PrepareSyncData (now1 now2 : Z)
| UpdateStats (now : Z) (latency : Q) (hasConflict : bool)
| Reset.

(** One call: what it returns to send (only [prepareSyncData] returns sync
    data) and the synchronizer after it. *)
Definition call (this : Synchronizer) (c : Call) : outcome (list SyncData * Synchronizer) :=
  match c with
  | CreateSnapshot now pGrid oGrid pScore oScore pMoves oMoves progress events turn =>
      Returns ([], (createSnapshot this now pGrid oGrid pScore oScore pMoves oMoves
                      progress events turn).2)
  | PrepareSyncData now1 now2 =>
      '(data, this) ← prepareSyncData this now1 now2; Returns ([data], this)
  | UpdateStats now latency hasConflict =>
      Returns ([], updateStats this now latency hasConflict)
  | Reset => Returns ([], reset this)
  end.

(** The calls in order, up to the first that throws; the sync data returned,
    in order. *)
Fixpoint run (this : Synchronizer) (calls : list Call)
  : outcome (list SyncData * Synchronizer) :=
  match calls with
  | [] => Returns ([], this)
  | c :: rest =>
      '(out, this) ← call this c;
      '(outs, this) ← run this rest;
      Returns (out ++ outs, this)
  end.

Definition isUpdateStats (c : Call) : bool :=
  match c with UpdateStats _ _ _ => true | _ => false end.

(** The two snapshots a synchronizer holds carry the versions [syncVersion]
    and [syncVersion - 1]. *)
Definition versionsInStep (this : Synchronizer) : Prop :=
  (0 ≤ syncVersion this)%Z ∧
  match currentSnapshot this, previousSnapshot this with
  | Some current, Some previous =>
      version current = syncVersion this ∧ version previous = (syncVersion this - 1)%Z
  | Some current, None => version current = syncVersion this
  | None, Some _ => False
  | None, None => syncVersion this = 0%Z
  end.

(** A delta based on version 1 that writes a cell one past the end of row 0,
    twice, and has a change whose path names no field. *)
Definition growingDelta : StateDelta :=
  {| deltaVersion := 2; baseVersion := 1;
     changes :=
       [ {| type := GRID_UPDATE; path := "playerGrid[0][8]";
            value := VCandy PURPLE; oldValue := VUndefined |};
         {| type := SCORE_UPDATE; path := "bonus";
            value := VNumber 5; oldValue := VNumber 0 |};
         {| type := GRID_UPDATE; path := "playerGrid[0][8]";
            value := VCandy GREEN; oldValue := VCandy PURPLE |} ];
     deltaTimestamp := 2000 |}.

(** A delta based on version 1 with a change of a cell in row 9. *)
Definition missingRowDelta : StateDelta :=
  {| deltaVersion := 2; baseVersion := 1;
     changes := [ {| type := GRID_UPDATE; path := "playerGrid[9][0]";
                     value := VCandy GREEN; oldValue := VUndefined |} ];
     deltaTimestamp := 2000 |}.

(** Two snapshots are taken and sync data is prepared after each. *)
Definition exampleCalls : list Call :=
  [ CreateSnapshot 1000 (uniformGrid RED) (uniformGrid BLUE) 0 0 0 0 0 [] "PLAYER";
    PrepareSyncData 1001 1002;
    CreateSnapshot 2000 (yellowRows 1 4) (uniformGrid BLUE) 0 0 0 0 0 [] "PLAYER";
    PrepareSyncData 2001 2002 ].

(** A synchronizer in delta mode that has taken one snapshot. *)
Definition deltaExample : Synchronizer :=
  (createSnapshot (new DELTA) 1000 (uniformGrid RED) (uniformGrid BLUE) 0 0 0 0 0 []
     "PLAYER").2.

End StateSynchronizer.

(** ** The conflict resolver (ConflictResolver.ts) *)

Module ConflictResolver.

Inductive ConflictType :=
| VERSION_MISMATCH | CONCURRENT_MOVES | STATE_DIVERGENCE | GRID_INCONSISTENCY | SCORE_MISMATCH.

#[global] Instance ConflictType_eq_dec : EqDecision ConflictType.
Proof. solve_decision. Defined.

Record Conflict := {
  type : ConflictType;
  detectedAt : Z;          (* timestamp *)
  localVersion : Z;
  remoteVersion : Z;
  description : string;
  localState : StateSnapshot;
  remoteState : StateSnapshot
}.

Inductive ResolutionStrategy :=
| SERVER_AUTHORITATIVE | CLIENT_AUTHORITATIVE | LATEST_TIMESTAMP | MERGE | ROLLBACK.

#[global] Instance ResolutionStrategy_eq_dec : EqDecision ResolutionStrategy.
Proof. solve_decision. Defined.

(** [oldValue] and [newValue] are read off the grids with [grid[row][col]]
    and are [undefined] ([None]) past the end of a row. *)
Record CompensationMove := {
  position : Position;
  oldValue : option CandyType;
  newValue : option CandyType;
  reason : string
}.

Record ResolutionResult := {
  success : bool;
  strategy : ResolutionStrategy;
  resolvedState : StateSnapshot;
  rollbackRequired : bool;
  compensationMoves : list CompensationMove;
  message : string
}.

Record ConflictStats := {
  totalConflicts : Z;
  resolvedConflicts : Z;
  failedResolutions : Z;
  byType : ConflictType → Z;
  byStrategy : ResolutionStrategy → Z;
  averageResolutionTime : Q
}.

(** The fields of the class; [maxHistorySize] is the constant 100. *)
Record Resolver := {
  policy : ResolutionStrategy;     (* strategy *)
  isServerAuthority : bool;
  conflicts : list Conflict;
  stats : ConflictStats
}.

Definition maxHistorySize : nat := 100.

Definition initialStats : ConflictStats :=
  {| totalConflicts := 0; resolvedConflicts := 0; failedResolutions := 0;
     byType := λ _, 0%Z; byStrategy := λ _, 0%Z; averageResolutionTime := 0 |}.

(** The constructor's defaults are [SERVER_AUTHORITATIVE] and [false]. *)
Definition new (strategy : ResolutionStrategy) (isServerAuthority : bool) : Resolver :=
  {| policy := strategy; isServerAuthority := isServerAuthority;
     conflicts := []; stats := initialStats |}.

Definition withConflicts (l : list Conflict) (this : Resolver) : Resolver :=
  {| policy := policy this; isServerAuthority := isServerAuthority this;
     conflicts := l; stats := stats this |}.

Definition withStats (st : ConflictStats) (this : Resolver) : Resolver :=
  {| policy := policy this; isServerAuthority := isServerAuthority this;
     conflicts := conflicts this; stats := st |}.

(** [createConflict]; [now] is [Date.now()]. *)
Definition createConflict (this : Resolver) (now : Z) (t : ConflictType)
    (lv rv : Z) (descr : string) (l r : StateSnapshot) : Conflict * Resolver :=
  let conflict :=
    {| type := t; detectedAt := now; localVersion := lv; remoteVersion := rv;
       description := descr; localState := l; remoteState := r |} in
  let history := conflicts this ++ [conflict] in
  let history :=
    if (maxHistorySize <? length history)%nat then drop 1 history else history in
  (conflict, withConflicts history this).

(** [compareGrids]: the cells that differ, over the rows both grids have and,
    in each, the columns both rows have. *)
Definition compareGrids (grid1 grid2 : Grid) : nat :=
  foldl
    (λ differences r,
       match grid1 !! r, grid2 !! r with
       | Some row1, Some row2 =>
           foldl
             (λ differences c,
                if bool_decide (row1 !! c = row2 !! c) then differences
                else S differences)
             differences
             (seq 0 (min (length row1) (length row2)))
       | _, _ => differences
       end)
    0%nat
    (seq 0 (min (length grid1) (length grid2))).

Definition versionMismatchText (l r : StateSnapshot) : string :=
  "Version mismatch: local=" +:+ pretty (version l) +:+ ", remote=" +:+ pretty (version r).
Definition gridDiffText (gridDiff : nat) : string :=
  "Grid states differ in " +:+ pretty gridDiff +:+ " cells".
Definition scoreDiffText (scoreDiff : Z) : string :=
  "Total scores differ by " +:+ pretty scoreDiff.
Definition timeDiffText (timeDiff : Z) : string :=
  "States diverged by " +:+ pretty timeDiff +:+ "ms".

(** [detectConflict]; [now] is [Date.now()]; [None] is [null]. *)
Definition detectConflict (this : Resolver) (now : Z)
    (localState remoteState : StateSnapshot) : option Conflict * Resolver :=
  if (1 <? Z.abs (version localState - version remoteState))%Z then
    let '(c, this) :=
      createConflict this now VERSION_MISMATCH (version localState) (version remoteState)
        (versionMismatchText localState remoteState) localState remoteState in
    (Some c, this)
  else
    let gridDiff := compareGrids (playerGrid localState) (opponentGrid remoteState) in
    if (5 <? gridDiff)%nat then
      let '(c, this) :=
        createConflict this now GRID_INCONSISTENCY (version localState) (version remoteState)
          (gridDiffText gridDiff) localState remoteState in
      (Some c, this)
    else
      let scoreDiff :=
        Z.abs ((playerScore localState + opponentScore localState)
               - (playerScore remoteState + opponentScore remoteState)) in
      if (100 <? scoreDiff)%Z then
        let '(c, this) :=
          createConflict this now SCORE_MISMATCH (version localState) (version remoteState)
            (scoreDiffText scoreDiff) localState remoteState in
        (Some c, this)
      else
        let timeDiff := Z.abs (timestamp localState - timestamp remoteState) in
        if (10000 <? timeDiff)%Z then
          let '(c, this) :=
            createConflict this now STATE_DIVERGENCE (version localState) (version remoteState)
              (timeDiffText timeDiff) localState remoteState in
          (Some c, this)
        else (None, this).

(** The loops of [generateCompensationMoves] and [mergeGrids] run over a board
    of 8 rows and 8 columns whatever the grids are. *)
Definition boardSize : nat := 8.

(** One pass of the inner loop of [generateCompensationMoves]. *)
Definition compensateCell (currentState targetState : StateSnapshot) (r : nat)
    (moves : list CompensationMove) (c : nat) : outcome (list CompensationMove) :=
  old ← readCell (playerGrid currentState) r c;
  new ← readCell (playerGrid targetState) r c;
  if bool_decide (old = new) then Returns moves
  else Returns (moves ++ [ {| position := {| row := r; col := c |};
                              oldValue := old; newValue := new;
                              reason := "Grid synchronization" |} ]).

Fixpoint forEach {A B : Type} (body : A → B → outcome A) (acc : A) (l : list B)
  : outcome A :=
  match l with
  | [] => Returns acc
  | x :: rest => acc' ← body acc x; forEach body acc' rest
  end.

Definition generateCompensationMoves (currentState targetState : StateSnapshot)
  : outcome (list CompensationMove) :=
  forEach
    (λ moves r, forEach (compensateCell currentState targetState r) moves (seq 0 boardSize))
    [] (seq 0 boardSize).

(** [grid[row]?.[col] ?? CandyType.EMPTY] *)
Definition cellOrEmpty (grid : Grid) (r c : nat) : CandyType :=
  match grid !! r with
  | Some cells => default EMPTY (cells !! c)
  | None => EMPTY
  end.

Definition mergeGrids (grid1 grid2 : Grid) : Grid :=
  (λ r,
     (λ c,
        let cell1 := cellOrEmpty grid1 r c in
        let cell2 := cellOrEmpty grid2 r c in
        if bool_decide (cell1 ≠ EMPTY) then cell1 else cell2)
     <$> seq 0 boardSize)
  <$> seq 0 (max (length grid1) (length grid2)).

Definition resolveServerAuthoritative (this : Resolver) (conflict : Conflict)
    (localState remoteState : StateSnapshot) : outcome ResolutionResult :=
  let resolvedState := if isServerAuthority this then localState else remoteState in
  moves ← generateCompensationMoves localState resolvedState;
  Returns {| success := true; strategy := SERVER_AUTHORITATIVE;
             resolvedState := deepClone resolvedState;
             rollbackRequired := negb (isServerAuthority this);
             compensationMoves := moves;
             message := "Resolved using server authority" |}.

Definition resolveClientAuthoritative (this : Resolver) (conflict : Conflict)
    (localState remoteState : StateSnapshot) : outcome ResolutionResult :=
  Returns {| success := true; strategy := CLIENT_AUTHORITATIVE;
             resolvedState := deepClone localState;
             rollbackRequired := false;
             compensationMoves := [];
             message := "Resolved using client authority" |}.

Definition resolveLatestTimestamp (this : Resolver) (conflict : Conflict)
    (localState remoteState : StateSnapshot) : outcome ResolutionResult :=
  let useLocal := (timestamp remoteState <=? timestamp localState)%Z in
  let resolvedState := if useLocal then localState else remoteState in
  moves ← (if useLocal then Returns []
           else generateCompensationMoves localState resolvedState);
  Returns {| success := true; strategy := LATEST_TIMESTAMP;
             resolvedState := deepClone resolvedState;
             rollbackRequired := negb useLocal;
             compensationMoves := moves;
             message := "Resolved using " +:+ (if useLocal then "local" else "remote")
                        +:+ " state (latest timestamp)" |}.

(** [resolveMerge]; [Math.max(...) + 1] is a sum of doubles. *)
Definition resolveMerge (this : Resolver) (conflict : Conflict)
    (localState remoteState : StateSnapshot) : outcome ResolutionResult :=
  let later := (timestamp localState <? timestamp remoteState)%Z in
  let merged :=
    {| timestamp := if later then timestamp remoteState else timestamp localState;
       version := toDouble (Z.max (version localState) (version remoteState) + 1);
       playerGrid := mergeGrids (playerGrid localState) (opponentGrid remoteState);
       opponentGrid := mergeGrids (opponentGrid localState) (playerGrid remoteState);
       playerScore := Z.max (playerScore localState) (playerScore remoteState);
       opponentScore := Z.max (opponentScore localState) (opponentScore remoteState);
       playerMoves := Z.max (playerMoves localState) (playerMoves remoteState);
       opponentMoves := Z.max (opponentMoves localState) (opponentMoves remoteState);
       eventProgress := Z.max (eventProgress localState) (eventProgress remoteState);
       activeEvents := if later then activeEvents remoteState else activeEvents localState;
       currentTurn := if later then currentTurn remoteState else currentTurn localState |} in
  moves ← generateCompensationMoves localState merged;
  Returns {| success := true; strategy := MERGE;
             resolvedState := merged;
             rollbackRequired := false;
             compensationMoves := moves;
             message := "Resolved by merging both states" |}.

Definition resolveRollback (this : Resolver) (conflict : Conflict)
    (localState remoteState : StateSnapshot) : outcome ResolutionResult :=
  let olderState :=
    if (version localState <? version remoteState)%Z then localState else remoteState in
  Returns {| success := true; strategy := ROLLBACK;
             resolvedState := deepClone olderState;
             rollbackRequired := true;
             compensationMoves := [];
             message := "Rolled back to version " +:+ pretty (version olderState) |}.

Definition bump {A : Type} `{EqDecision A} (k : A) (f : A → Z) : A → Z :=
  λ x, if bool_decide (x = k) then (f x + 1)%Z else f x.

(** [resolveConflict].  [startTime] and [endTime] are the two readings of
    [Date.now()]; [err] is the text of the exception the [catch] receives.  A
    JavaScript number that is not of the strategy enumeration cannot be in
    [policy], so the [default] branch of the [switch] has no counterpart. *)
Definition resolveConflict (this : Resolver) (startTime endTime : Z) (err : string)
    (conflict : Conflict) (localState remoteState : StateSnapshot)
  : ResolutionResult * Resolver :=
  let st := stats this in
  let total := (totalConflicts st + 1)%Z in
  let counted := bump (type conflict) (byType st) in
  let attempt :=
    match policy this with
    | SERVER_AUTHORITATIVE => resolveServerAuthoritative this conflict localState remoteState
    | CLIENT_AUTHORITATIVE => resolveClientAuthoritative this conflict localState remoteState
    | LATEST_TIMESTAMP => resolveLatestTimestamp this conflict localState remoteState
    | MERGE => resolveMerge this conflict localState remoteState
    | ROLLBACK => resolveRollback this conflict localState remoteState
    end in
  match attempt with
  | Returns result =>
      (result,
       withStats
         {| totalConflicts := total;
            resolvedConflicts :=
              if success result then (resolvedConflicts st + 1)%Z else resolvedConflicts st;
            failedResolutions :=
              if success result then failedResolutions st else (failedResolutions st + 1)%Z;
            byType := counted;
            byStrategy := bump (strategy result) (byStrategy st);
            averageResolutionTime :=
              ((averageResolutionTime st * inject_Z (total - 1) + inject_Z (endTime - startTime))
               / inject_Z total)%Q |}
         this)
  | _ =>
      ({| success := false; strategy := policy this;
          resolvedState := localState;
          rollbackRequired := true;
          compensationMoves := [];
          message := "Resolution failed: " +:+ err |},
       withStats
         {| totalConflicts := total;
            resolvedConflicts := resolvedConflicts st;
            failedResolutions := (failedResolutions st + 1)%Z;
            byType := counted;
            byStrategy := byStrategy st;
            averageResolutionTime := averageResolutionTime st |}
         this)
  end.

(** *** The cells of the board, for stating what the loops compute *)

Definition boardPositions : list (nat * nat) :=
  r ← seq 0 boardSize; c ← seq 0 boardSize; [(r, c)].

(** [grid[row][col]] where the row exists. *)
Definition cellAt (grid : Grid) (r c : nat) : option CandyType :=
  grid !! r ≫= (.!! c).

Definition playerCellDiffers (a b : StateSnapshot) (rc : nat * nat) : bool :=
  negb (bool_decide (cellAt (playerGrid a) rc.1 rc.2 = cellAt (playerGrid b) rc.1 rc.2)).

(** The cells of the board in which the player grids of two snapshots differ,
    in row-major order. *)
Definition differingPlayerCells (a b : StateSnapshot) : list (nat * nat) :=
  filter (λ rc, playerCellDiffers a b rc = true) boardPositions.

Definition compensationFor (a b : StateSnapshot) (rc : nat * nat) : CompensationMove :=
  {| position := {| row := rc.1; col := rc.2 |};
     oldValue := cellAt (playerGrid a) rc.1 rc.2;
     newValue := cellAt (playerGrid b) rc.1 rc.2;
     reason := "Grid synchronization" |}.

(** The cell that [mergeGrids] leaves at [(r, c)]: the first grid's when it is
    there and not empty, else the second's, else [EMPTY]. *)
Definition mergedCell (grid1 grid2 : Grid) (r c : nat) : CandyType :=
  match cellAt grid1 r c with
  | Some v => if bool_decide (v = EMPTY) then default EMPTY (cellAt grid2 r c) else v
  | None => default EMPTY (cellAt grid2 r c)
  end.

(** What one pass of the inner loop of [generateCompensationMoves] adds. *)
Definition movesAt (a b : StateSnapshot) (rc : nat * nat) : list CompensationMove :=
  if playerCellDiffers a b rc then [compensationFor a b rc] else [].

(** The cells two grids both have and in which they differ, counted by
    walking the grids side by side. *)
Fixpoint rowDifferences (row1 row2 : list CandyType) : nat :=
  match row1, row2 with
  | a :: rest1, b :: rest2 =>
      (if bool_decide (a = b) then 0 else 1) + rowDifferences rest1 rest2
  | _, _ => 0
  end.

Fixpoint gridDifferences (grid1 grid2 : Grid) : nat :=
  match grid1, grid2 with
  | row1 :: rest1, row2 :: rest2 =>
      rowDifferences row1 row2 + gridDifferences rest1 rest2
  | _, _ => 0
  end.



(** *** Examples *)

Definition board (rows cols : nat) (c : CandyType) : Grid :=
  replicate rows (replicate cols c).

(** A board of [c] whose first row starts with [k] cells of [d]. *)
Definition boardWith (k : nat) (d c : CandyType) : Grid :=
  (replicate k d ++ replicate (8 - k) c) :: replicate 7 (replicate 8 c).

Definition snapshotOn (pGrid oGrid : Grid) : StateSnapshot :=
  {| timestamp := 5000; version := 3; playerGrid := pGrid; opponentGrid := oGrid;
     playerScore := 120; opponentScore := 90; playerMoves := 4; opponentMoves := 4;
     eventProgress := 20; activeEvents := [COMBO_BONUS]; currentTurn := "PLAYER" |}.

Definition exampleConflict (l r : StateSnapshot) : Conflict :=
  {| type := GRID_INCONSISTENCY; detectedAt := 5000;
     localVersion := version l; remoteVersion := version r;
     description := gridDiffText 7; localState := l; remoteState := r |}.

(** *** Runs of calls *)

(** [setStrategy] *)
Definition setStrategy (this : Resolver) (strategy : ResolutionStrategy) : Resolver :=
  {| policy := strategy; isServerAuthority := isServerAuthority this;
     conflicts := conflicts this; stats := stats this |}.

(** [reset]: the history is emptied and every counter is set to 0; the
    strategy and the authority flag stay. *)
Definition reset (this : Resolver) : Resolver :=
  {| policy := policy this; isServerAuthority := isServerAuthority this;
     conflicts := []; stats := initialStats |}.

(** The public methods that change a resolver, as the calls a client makes one
    after the other; the arguments are those of the functions above. *)
Inductive Call :=
| DetectConflict (now : Z) (localState remoteState : StateSnapshot)
| ResolveConflict (startTime endTime : Z) (err : string) (conflict : Conflict)
    (localState remoteState : StateSnapshot)
| SetStrategy (strategy : ResolutionStrategy)
| Reset.

Definition call (this : Resolver) (c : Call) : Resolver :=
  match c with
  | DetectConflict now l r => (detectConflict this now l r).2
  | ResolveConflict startTime endTime err conflict l r =>
      (resolveConflict this startTime endTime err conflict l r).2
  | SetStrategy strategy => setStrategy this strategy
  | Reset => reset this
  end.

Definition run (this : Resolver) (calls : list Call) : Resolver := foldl call this calls.

(** The conflicts that the [detectConflict] calls of a run report after its
    last [reset], oldest first.  What a call reports does not depend on the
    resolver it is made on. *)
Definition detected (calls : list Call) : list Conflict :=
  foldl
    (λ history c,
       match c with
       | DetectConflict now l r =>
           history ++ option_list (detectConflict (new SERVER_AUTHORITATIVE false) now l r).1
       | Reset => []
       | _ => history
       end)
    [] calls.

(** The number of [resolveConflict] calls of a run after its last [reset]. *)
Definition resolutions (calls : list Call) : Z :=
  foldl
    (λ n c, match c with
            | ResolveConflict _ _ _ _ _ _ => (n + 1)%Z
            | Reset => 0%Z
            | _ => n
            end)
    0%Z calls.

Definition sumByType (f : ConflictType → Z) : Z :=
  (f VERSION_MISMATCH + f CONCURRENT_MOVES + f STATE_DIVERGENCE
   + f GRID_INCONSISTENCY + f SCORE_MISMATCH)%Z.

Definition sumByStrategy (f : ResolutionStrategy → Z) : Z :=
  (f SERVER_AUTHORITATIVE + f CLIENT_AUTHORITATIVE + f LATEST_TIMESTAMP
   + f MERGE + f ROLLBACK)%Z.

(** The counters of [ConflictStats] after [n] resolutions. *)
Definition statsConsistent (n : Z) (st : ConflictStats) : Prop :=
  totalConflicts st = n ∧
  (resolvedConflicts st + failedResolutions st = n)%Z ∧
  (0 ≤ resolvedConflicts st)%Z ∧ (0 ≤ failedResolutions st)%Z ∧
  sumByType (byType st) = n ∧
  sumByStrategy (byStrategy st) = resolvedConflicts st.

(** Whether the player grid has the rows that the loops of a resolution
    read. *)
Definition boardCovered (s : StateSnapshot) : bool :=
  (boardSize <=? length (playerGrid s))%nat.

(** [grid1[row][col] !== EMPTY ? grid1[row][col] : grid2[row][col]], on cells
    that are there. *)
Definition firstCandy (x y : CandyType) : CandyType :=
  if bool_decide (x ≠ EMPTY) then x else y.

End ConflictResolver.

(** ** The reconnection manager (src/ReconnectionManager.ts) *)

Module ReconnectionManager.

(** [MoveData] and [StateSyncData] of NetworkManager.ts. *)
Record MoveData := { pos1 : Position; pos2 : Position; moveNumber : Z }.

Record StateSyncData := {
  playerGrid : Grid;
  opponentGrid : Grid;
  playerScore : Z;
  opponentScore : Z;
  playerMoves : Z;
  opponentMoves : Z;
  eventProgress : Z;
  activeEvents : list string;
  currentTurn : string
}.

Record GameStateSnapshot := {
  timestamp : Z;
  roomId : string;
  playerId : string;
  opponentId : string;
  state : StateSyncData;
  moveHistory : list MoveData;
  lastSyncedMove : Z
}.

Inductive ReconnectionStatus := STABLE | UNSTABLE | RECONNECTING | RECOVERING | FAILED.

(** The fields of the class that [saveSnapshot] and its neighbours use;
    [maxSnapshots], [snapshotInterval] and [maxRecoveryTime] are constants. *)
Record Manager := {
  status : ReconnectionStatus;
  stateSnapshots : list GameStateSnapshot;
  lastSnapshotTime : Z;
  disconnectTime : Z
}.

Definition maxSnapshots : nat := 10.
Definition snapshotInterval : Z := 5000.
Definition maxRecoveryTime : Z := 60000.

Definition new : Manager :=
  {| status := STABLE; stateSnapshots := []; lastSnapshotTime := 0; disconnectTime := 0 |}.

(** [localStorage].  An item is a string; the string [JSON.stringify(snapshot)]
    is kept as the snapshot it encodes.  [accepts] tells which writes the store
    takes: [setItem] throws on the others (quota, storage switched off). *)
Inductive StorageItem :=
| ItemText (text : string)
| ItemSnapshot (snapshot : GameStateSnapshot).

Record LocalStorage := {
  items : gmap string StorageItem;
  accepts : string → StorageItem → bool
}.

Definition setItem (storage : LocalStorage) (key : string) (item : StorageItem)
  : outcome LocalStorage :=
  if accepts storage key item
  then Returns {| items := <[key := item]> (items storage); accepts := accepts storage |}
  else Throws.

Definition getItem (storage : LocalStorage) (key : string) : option StorageItem :=
  items storage !! key.

Definition removeItem (storage : LocalStorage) (key : string) : LocalStorage :=
  {| items := delete key (items storage); accepts := accepts storage |}.

Definition snapshotKey (snapshot : GameStateSnapshot) : string :=
  "game_snapshot_" +:+ roomId snapshot.

(** [saveToLocalStorage]: an exception is caught and logged; the items
    written before it stay. *)
Definition saveToLocalStorage (storage : LocalStorage) (snapshot : GameStateSnapshot)
  : LocalStorage :=
  let key := snapshotKey snapshot in
  match setItem storage key (ItemSnapshot snapshot) with
  | Returns storage1 =>
      match setItem storage1 "latest_snapshot_key" (ItemText key) with
      | Returns storage2 => storage2
      | _ => storage1
      end
  | _ => storage
  end.

(** [loadFromLocalStorage]: [JSON.parse] of an item that is not the text of a
    snapshot throws or gives some other value; the typed result is [null]
    there. *)
Definition loadFromLocalStorage (storage : LocalStorage) : option GameStateSnapshot :=
  match getItem storage "latest_snapshot_key" with
  | Some (ItemText key) =>
      if String.eqb key "" then None
      else match getItem storage key with
           | Some (ItemSnapshot snapshot) => Some snapshot
           | _ => None
           end
  | _ => None
  end.

(** [saveSnapshot]; [now] is [Date.now()]. *)
Definition saveSnapshot (this : Manager) (storage : LocalStorage) (now : Z)
    (snapshot : GameStateSnapshot) : Manager * LocalStorage :=
  if (now - lastSnapshotTime this <? snapshotInterval)%Z then (this, storage)
  else
    let ring := stateSnapshots this ++ [snapshot] in
    let ring := if (maxSnapshots <? length ring)%nat then drop 1 ring else ring in
    ({| status := status this; stateSnapshots := ring;
        lastSnapshotTime := now; disconnectTime := disconnectTime this |},
     saveToLocalStorage storage snapshot).

Definition getLatestSnapshot (this : Manager) (storage : LocalStorage)
  : option GameStateSnapshot :=
  match last (stateSnapshots this) with
  | None => loadFromLocalStorage storage
  | Some snapshot => Some snapshot
  end.

Definition clearLocalStorage (storage : LocalStorage) : LocalStorage :=
  let storage :=
    match getItem storage "latest_snapshot_key" with
    | Some (ItemText key) => if String.eqb key "" then storage else removeItem storage key
    | _ => storage
    end in
  removeItem storage "latest_snapshot_key".

Definition clearSnapshots (this : Manager) (storage : LocalStorage)
  : Manager * LocalStorage :=
  ({| status := status this; stateSnapshots := [];
      lastSnapshotTime := lastSnapshotTime this; disconnectTime := disconnectTime this |},
   clearLocalStorage storage).

(** The ring after a run of calls, oldest first: [(now, snapshot)] for each. *)
Fixpoint saveAll (this : Manager) (storage : LocalStorage)
    (calls : list (Z * GameStateSnapshot)) : Manager * LocalStorage :=
  match calls with
  | [] => (this, storage)
  | (now, snapshot) :: rest =>
      let '(this', storage') := saveSnapshot this storage now snapshot in
      saveAll this' storage' rest
  end.

(** *** Examples *)

Definition emptyStorage : LocalStorage :=
  {| items := ∅; accepts := λ _ _, true |}.

Definition exampleState : StateSyncData :=
  {| playerGrid := replicate 8 (replicate 8 RED);
     opponentGrid := replicate 8 (replicate 8 BLUE);
     playerScore := 0; opponentScore := 0; playerMoves := 0; opponentMoves := 0;
     eventProgress := 0; activeEvents := []; currentTurn := "PLAYER" |}.

Definition snapshotAt (t : Z) : GameStateSnapshot :=
  {| timestamp := t; roomId := "room_1"; playerId := "player_a";
     opponentId := "player_b"; state := exampleState; moveHistory := [];
     lastSyncedMove := 0 |}.

(** *** Lookup by time, disconnection and recovery *)

(** One turn of the loop of [getSnapshotAt]: the closest snapshot so far and
    its distance [minDiff], [None] for [Infinity]. *)
Definition closer (t : Z) (best : option GameStateSnapshot * option Z)
    (snapshot : GameStateSnapshot) : option GameStateSnapshot * option Z :=
  let diff := (t - timestamp snapshot)%Z in
  if (0 <=? diff)%Z && match best.2 with
                       | None => true
                       | Some minDiff => (diff <? minDiff)%Z
                       end
  then (Some snapshot, Some diff) else best.

(** [getSnapshotAt] *)
Definition getSnapshotAt (this : Manager) (t : Z) : option GameStateSnapshot :=
  (foldl (closer t) (None, None) (stateSnapshots this)).1.

Definition withStatus (s : ReconnectionStatus) (this : Manager) : Manager :=
  {| status := s; stateSnapshots := stateSnapshots this;
     lastSnapshotTime := lastSnapshotTime this; disconnectTime := disconnectTime this |}.

(** [handleDisconnect]; [now] is [Date.now()]. *)
Definition handleDisconnect (this : Manager) (now : Z) : Manager :=
  {| status := RECONNECTING; stateSnapshots := stateSnapshots this;
     lastSnapshotTime := lastSnapshotTime this; disconnectTime := now |}.

(** [canRecover]; [now] is [Date.now()]. *)
Definition canRecover (this : Manager) (now : Z) : bool :=
  (now - disconnectTime this <? maxRecoveryTime)%Z
  && (0 <? length (stateSnapshots this))%nat.

(** [handleReconnect], with the [recoverGameState] it awaits; [now] is
    [Date.now()].  The promise of [requestStateSyncFromServer] is rejected as
    soon as it is made, so of the two handlers of [recoverGameState] it is the
    [catch] that runs: the promise resolves to the local snapshot and the
    status becomes UNSTABLE, and the timer set for 10 s later finds a status
    other than RECOVERING and does nothing.  A rejection of [recoverGameState]
    is caught by [handleReconnect], which sets FAILED and returns [null]
    ([None]). *)
Definition handleReconnect (this : Manager) (storage : LocalStorage) (now : Z)
  : option GameStateSnapshot * Manager :=
  let this := withStatus RECOVERING this in
  if (maxRecoveryTime <? now - disconnectTime this)%Z
  then (None, withStatus FAILED this)
  else
    match getLatestSnapshot this storage with
    | None => (None, withStatus FAILED this)
    | Some snapshot => (Some snapshot, withStatus UNSTABLE this)
    end.

(** The snapshots that a run of [saveSnapshot] calls takes, [last] being the
    time of the last one taken before: a call less than [snapshotInterval]
    after it is dropped. *)
Fixpoint kept (last : Z) (calls : list (Z * GameStateSnapshot)) : list GameStateSnapshot :=
  match calls with
  | [] => []
  | (now, snapshot) :: rest =>
      if (now - last <? snapshotInterval)%Z then kept last rest
      else snapshot :: kept now rest
  end.

(** Twelve saves, 5 s apart. *)
Definition exampleSaves : list (Z * GameStateSnapshot) :=
  (λ k : nat, let t := (5000 * Z.of_nat (S k))%Z in (t, snapshotAt t)) <$> seq 0 12.

End ReconnectionManager.

(** ** The battle server (server/battleServer.cjs) *)

Module BattleServer.

(** A socket object is named by a number; the objects themselves are in the
    world's [sockets], so that a room, the queue and the client table share
    one socket and see its state change. *)
Abbreviation WebSocketRef := nat.

Inductive ReadyState := CONNECTING | OPEN | CLOSING | CLOSED.

#[global] Instance ReadyState_eq_dec : EqDecision ReadyState.
Proof. solve_decision. Defined.

Record WebSocket := {
  readyState : ReadyState;
  ws_playerId : option string      (* ws.playerId, set by handleConnect *)
}.

(** The move of a MOVE message; the server passes it on unread. *)
Record MoveData := { pos1 : Position; pos2 : Position; moveNumber : Z }.

(** The [type] tags of the messages the server sends or passes on, and ERROR
    of the client's [NetworkMessageType], which it never sends. *)
Inductive MessageType :=
| CONNECT | ROOM_CREATED | ROOM_NOT_FOUND | ROOM_FULL | ROOM_JOINED
| GAME_START | MOVE | PLAYER_LEFT | PLAYER_DISCONNECTED | CHAT | PONG | ERROR
| STATE_SYNC.

#[global] Instance MessageType_eq_dec : EqDecision MessageType.
Proof. solve_decision. Defined.

(** The state of a STATE_SYNC message, of the client's type [StateSyncData];
    the server passes it on unread. *)
Abbreviation StateSyncData := ReconnectionManager.StateSyncData.

#[global] Instance StateSyncData_eq_dec : EqDecision StateSyncData.
Proof. solve_decision. Defined.

(** The [data] of the messages the server builds. *)
Inductive MessageData :=
| ConnectedData (status playerId : string)                 (* {status, playerId} *)
| RoomData (roomId : string)                               (* {roomId} *)
| RoomJoinedData (roomId : string) (opponentId : option string) (playerCount : nat)
| GameStartData (roomId : string) (players : list string) (startingPlayer : option string)
| MatchedData (roomId opponentId : string)                 (* {roomId, opponentId} *)
| PlayerData (playerId : string)                           (* {playerId} *)
| MoveContent (move : MoveData)                            (* the move, as received *)
| ChatContent (roomId message : string)                    (* {roomId, message} *)
| PingContent (t : Z)                                      (* {timestamp} *)
| StateContent (state : StateSyncData)                     (* the state, as received *).

(** [messageId]: [None] when the object has no such property, [Some m] when it
    has the request's, which may itself be [undefined]. *)
Record Message := {
  type : MessageType;
  data : MessageData;
  timestamp : Z;
  playerId : string;
  messageId : option (option string)
}.

#[global] Instance MoveData_eq_dec : EqDecision MoveData.
Proof. solve_decision. Defined.
#[global] Instance MessageData_eq_dec : EqDecision MessageData.
Proof. solve_decision. Defined.
#[global] Instance Message_eq_dec : EqDecision Message.
Proof. solve_decision. Defined.

Record Player := { player_id : string (* playerId *); ws : WebSocketRef }.

Record PlayerState := { score : Z; moves : Z; connected : bool }.

Record MoveRecord := {
  move_playerId : string;          (* playerId *)
  move : MoveData;
  move_timestamp : Z               (* timestamp *)
}.

(** [BattleRoom]; [maxPlayers] is the constant 2. *)
Record BattleRoom := {
  id : string;
  players : list Player;
  gameStarted : bool;              (* state.gameStarted *)
  currentTurn : option string;     (* state.currentTurn *)
  playerStates : gmap string PlayerState;
  moveHistory : list MoveRecord;
  createdAt : Z
}.

Definition maxPlayers : nat := 2.

Definition newRoom (roomId : string) (now : Z) : BattleRoom :=
  {| id := roomId; players := []; gameStarted := false; currentTurn := None;
     playerStates := ∅; moveHistory := []; createdAt := now |}.

(** A message handed to [ws.send]. *)
Abbreviation Sent := (WebSocketRef * Message)%type.

(** [broadcast]: to every player but [excludePlayerId] whose socket is open,
    in the order of [players]. *)
Definition broadcast (sockets : WebSocketRef → WebSocket) (room : BattleRoom)
    (message : Message) (excludePlayerId : option string) : list Sent :=
  omap
    (λ player,
       if bool_decide (Some (player_id player) ≠ excludePlayerId)
          && bool_decide (readyState (sockets (ws player)) = OPEN)
       then Some (ws player, message) else None)
    (players room).

(** [startGame]; [this.players[0].playerId] throws in a room without
    players. *)
Definition startGame (sockets : WebSocketRef → WebSocket) (now : Z) (room : BattleRoom)
  : outcome (BattleRoom * list Sent) :=
  match players room with
  | [] => Throws
  | first :: _ =>
      let room :=
        {| id := id room; players := players room; gameStarted := true;
           currentTurn := Some (player_id first);
           playerStates := playerStates room; moveHistory := moveHistory room;
           createdAt := createdAt room |} in
      Returns
        (room,
         broadcast sockets room
           {| type := GAME_START;
              data := GameStartData (id room) (player_id <$> players room) (currentTurn room);
              timestamp := now; playerId := "server"; messageId := None |}
           None)
  end.

Definition addPlayer (sockets : WebSocketRef → WebSocket) (now : Z) (room : BattleRoom)
    (newId : string) (socket : WebSocketRef) : outcome (bool * BattleRoom * list Sent) :=
  if (maxPlayers <=? length (players room))%nat then Returns (false, room, [])
  else
    let room :=
      {| id := id room;
         players := players room ++ [ {| player_id := newId; ws := socket |} ];
         gameStarted := gameStarted room; currentTurn := currentTurn room;
         playerStates :=
           <[newId := {| score := 0; moves := 0; connected := true |}]> (playerStates room);
         moveHistory := moveHistory room; createdAt := createdAt room |} in
    if (length (players room) =? maxPlayers)%nat then
      '(room, sent) ← startGame sockets now room;
      Returns (true, room, sent)
    else Returns (true, room, []).

(** [findIndex] then [splice(index, 1)]: the first element that passes goes. *)
Fixpoint removeFirst {A : Type} (test : A → bool) (l : list A) : list A :=
  match l with
  | [] => []
  | x :: rest => if test x then rest else x :: removeFirst test rest
  end.

Definition hasId (p : string) (player : Player) : bool :=
  bool_decide (player_id player = p).

Definition removePlayer (room : BattleRoom) (p : string) : BattleRoom :=
  if existsb (hasId p) (players room) then
    {| id := id room; players := removeFirst (hasId p) (players room);
       gameStarted := gameStarted room; currentTurn := currentTurn room;
       playerStates := delete p (playerStates room);
       moveHistory := moveHistory room; createdAt := createdAt room |}
  else room.

(** [BattleRoom.handleMove] *)
Definition roomHandleMove (sockets : WebSocketRef → WebSocket) (now : Z)
    (room : BattleRoom) (p : string) (moveData : MoveData) : BattleRoom * list Sent :=
  let room :=
    {| id := id room; players := players room;
       gameStarted := gameStarted room; currentTurn := currentTurn room;
       playerStates := playerStates room;
       moveHistory :=
         moveHistory room
         ++ [ {| move_playerId := p; move := moveData; move_timestamp := now |} ];
       createdAt := createdAt room |} in
  (room,
   broadcast sockets room
     {| type := MOVE; data := MoveContent moveData; timestamp := now;
        playerId := p; messageId := None |}
     (Some p)).

Definition isFull (room : BattleRoom) : bool := (maxPlayers <=? length (players room))%nat.
Definition isEmpty (room : BattleRoom) : bool := (length (players room) =? 0)%nat.

(** *** The server *)

Record Ticket := {
  ticket_playerId : string;        (* playerId *)
  ticket_ws : WebSocketRef;        (* ws *)
  ticket_timestamp : Z             (* timestamp *)
}.

(** [rooms] is a [Map]: a list of entries in insertion order, one per key.
    [sent] is every message handed to a socket so far, oldest first. *)
Record World := {
  rooms : list (string * BattleRoom);
  clients : gmap string WebSocketRef;
  matchmakingQueue : list Ticket;
  sockets : WebSocketRef → WebSocket;
  sent : list Sent
}.

Fixpoint mapGet {V : Type} (key : string) (m : list (string * V)) : option V :=
  match m with
  | [] => None
  | (k, v) :: rest => if String.eqb k key then Some v else mapGet key rest
  end.

Fixpoint mapSet {V : Type} (key : string) (value : V) (m : list (string * V))
  : list (string * V) :=
  match m with
  | [] => [(key, value)]
  | (k, v) :: rest =>
      if String.eqb k key then (k, value) :: rest else (k, v) :: mapSet key value rest
  end.

Definition mapDelete {V : Type} (key : string) (m : list (string * V))
  : list (string * V) :=
  filter (λ kv, kv.1 ≠ key) m.

Definition withRooms (r : list (string * BattleRoom)) (w : World) : World :=
  {| rooms := r; clients := clients w; matchmakingQueue := matchmakingQueue w;
     sockets := sockets w; sent := sent w |}.

Definition withQueue (q : list Ticket) (w : World) : World :=
  {| rooms := rooms w; clients := clients w; matchmakingQueue := q;
     sockets := sockets w; sent := sent w |}.

Definition emit (l : list Sent) (w : World) : World :=
  {| rooms := rooms w; clients := clients w; matchmakingQueue := matchmakingQueue w;
     sockets := sockets w; sent := sent w ++ l |}.

(** [send]: dropped unless the socket is open. *)
Definition send (w : World) (socket : WebSocketRef) (message : Message) : World :=
  if bool_decide (readyState (sockets w socket) = OPEN)
  then emit [(socket, message)] w else w.

Definition serverMessage (t : MessageType) (d : MessageData) (now : Z)
    (mid : option (option string)) : Message :=
  {| type := t; data := d; timestamp := now; playerId := "server"; messageId := mid |}.

(** [handleConnect] *)
Definition handleConnect (w : World) (now : Z) (socket : WebSocketRef) (p : string)
  : World :=
  let w :=
    {| rooms := rooms w; clients := <[p := socket]> (clients w);
       matchmakingQueue := matchmakingQueue w;
       sockets := λ s, if bool_decide (s = socket)
                       then {| readyState := readyState (sockets w s);
                               ws_playerId := Some p |}
                       else sockets w s;
       sent := sent w |} in
  send w socket (serverMessage CONNECT (ConnectedData "connected" p) now None).

(** [handleCreateRoom]; [roomId] is what [generateRoomId()] returns, [p] is
    [message.playerId]. *)
Definition handleCreateRoom (w : World) (now : Z) (roomId : string)
    (socket : WebSocketRef) (p : string) (mid : option string) : outcome World :=
  '(_, room, out) ← addPlayer (sockets w) now (newRoom roomId now) p socket;
  let w := emit out (withRooms (mapSet roomId room (rooms w)) w) in
  Returns (send w socket (serverMessage ROOM_CREATED (RoomData roomId) now (Some mid))).

(** [handleJoinRoom]; [roomId] and [p] are [message.data.roomId] and
    [message.data.playerId]. *)
Definition handleJoinRoom (w : World) (now : Z) (socket : WebSocketRef)
    (roomId p : string) (mid : option string) : outcome World :=
  match mapGet roomId (rooms w) with
  | None =>
      Returns (send w socket (serverMessage ROOM_NOT_FOUND (RoomData roomId) now (Some mid)))
  | Some room =>
      if isFull room then
        Returns (send w socket (serverMessage ROOM_FULL (RoomData roomId) now (Some mid)))
      else
        '(_, room, out) ← addPlayer (sockets w) now room p socket;
        let w := emit out (withRooms (mapSet roomId room (rooms w)) w) in
        let opponent := find (λ q, negb (hasId p q)) (players room) in
        let w :=
          send w socket
            (serverMessage ROOM_JOINED
               (RoomJoinedData roomId (player_id <$> opponent) (length (players room)))
               now (Some mid)) in
        match opponent with
        | Some o =>
            Returns (send w (ws o)
                       (serverMessage ROOM_JOINED
                          (RoomJoinedData roomId (Some p) (length (players room)))
                          now None))
        | None => Returns w
        end
  end.

(** [handleLeaveRoom] *)
Definition handleLeaveRoom (w : World) (now : Z) (roomId p : string) : World :=
  match mapGet roomId (rooms w) with
  | None => w
  | Some room =>
      let room := removePlayer room p in
      let out := broadcast (sockets w) room
                   (serverMessage PLAYER_LEFT (PlayerData p) now None) None in
      let w := emit out (withRooms (mapSet roomId room (rooms w)) w) in
      if isEmpty room then withRooms (mapDelete roomId (rooms w)) w else w
  end.

(** [BattleServer.handleMove]; [p] is [message.playerId]. *)
Definition handleMove (w : World) (now : Z) (socket : WebSocketRef) (p : string)
    (roomId : string) (moveData : MoveData) : World :=
  match mapGet roomId (rooms w) with
  | None => w
  | Some room =>
      let '(room, out) := roomHandleMove (sockets w) now room p moveData in
      emit out (withRooms (mapSet roomId room (rooms w)) w)
  end.

(** [handleStateSync]; [p] is [message.playerId], [roomId] and [state] are
    [message.data.roomId] and [message.data.state]. *)
Definition handleStateSync (w : World) (now : Z) (p roomId : string)
    (state : StateSyncData) : World :=
  match mapGet roomId (rooms w) with
  | None => w
  | Some room =>
      emit (broadcast (sockets w) room
              {| type := STATE_SYNC; data := StateContent state; timestamp := now;
                 playerId := p; messageId := None |}
              (Some p))
           w
  end.

(** [handleMatchmakingRequest] *)
Definition handleMatchmakingRequest (w : World) (now : Z) (socket : WebSocketRef)
    (p : string) : World :=
  withQueue
    (matchmakingQueue w
     ++ [ {| ticket_playerId := p; ticket_ws := socket; ticket_timestamp := now |} ])
    w.

Definition ticketOf (p : string) (t : Ticket) : bool :=
  bool_decide (ticket_playerId t = p).

(** [handleCancelMatchmaking] *)
Definition handleCancelMatchmaking (w : World) (p : string) : World :=
  withQueue (removeFirst (ticketOf p) (matchmakingQueue w)) w.

(** [chatMessage.startsWith(prefix)] *)
Definition startsWith (prefix text : string) : bool := String.prefix prefix text.

(** [handleChat]: [message] is the CHAT message as it came, [roomId] and
    [chatMessage] are its [data.roomId] and [data.message]. *)
Definition handleChat (w : World) (now : Z) (socket : WebSocketRef) (message : Message)
    (roomId chatMessage : string) : World :=
  if startsWith "/matchmaking" chatMessage
  then handleMatchmakingRequest w now socket (playerId message)
  else if startsWith "/cancel_matchmaking" chatMessage
  then handleCancelMatchmaking w (playerId message)
  else
    match mapGet roomId (rooms w) with
    | Some room => emit (broadcast (sockets w) room message (Some (playerId message))) w
    | None => w
    end.

(** [handlePing]; [t] is the [data.timestamp] that is sent back. *)
Definition handlePing (w : World) (now : Z) (socket : WebSocketRef) (t : Z) : World :=
  send w socket (serverMessage PONG (PingContent t) now None).

(** One turn of the loop of [processMatchmakingQueue]: the room for two
    tickets and the two notices. *)
Definition matchPair (w : World) (now : Z) (roomId : string) (player1 player2 : Ticket)
  : outcome World :=
  '(_, room, out1) ← addPlayer (sockets w) now (newRoom roomId now)
                        (ticket_playerId player1) (ticket_ws player1);
  '(_, room, out2) ← addPlayer (sockets w) now room
                        (ticket_playerId player2) (ticket_ws player2);
  let w := emit (out1 ++ out2) (withRooms (mapSet roomId room (rooms w)) w) in
  let w := send w (ticket_ws player1)
             (serverMessage GAME_START (MatchedData roomId (ticket_playerId player2)) now None) in
  let w := send w (ticket_ws player2)
             (serverMessage GAME_START (MatchedData roomId (ticket_playerId player1)) now None) in
  Returns w.

(** The loop, on the queue it has taken out of the world: [roomIds n] is the
    identifier [generateRoomId()] gives in turn [n] of this run. *)
Fixpoint drain (w : World) (now : Z) (roomIds : nat → string) (turn : nat)
    (queue : list Ticket) : outcome World :=
  match queue with
  | player1 :: player2 :: rest =>
      w ← matchPair w now (roomIds turn) player1 player2;
      drain w now roomIds (S turn) rest
  | _ => Returns (withQueue queue w)
  end.

Definition processMatchmakingQueue (w : World) (now : Z) (roomIds : nat → string)
  : outcome World :=
  drain w now roomIds 0 (matchmakingQueue w).

(** What [rooms.forEach] does in [handleDisconnect] to one entry: the rooms
    kept and the messages sent. *)
Definition disconnectFrom (socks : WebSocketRef → WebSocket) (now : Z) (p : string)
    (entry : string * BattleRoom) : list (string * BattleRoom) * list Sent :=
  let '(roomId, room) := entry in
  if existsb (hasId p) (players room) then
    let out := broadcast socks room
                 (serverMessage PLAYER_DISCONNECTED (PlayerData p) now None) (Some p) in
    let room := removePlayer room p in
    (if isEmpty room then [] else [(roomId, room)], out)
  else ([entry], []).

(** [handleDisconnect]: nothing happens for a socket whose [playerId] is
    unset or empty. *)
Definition handleDisconnect (w : World) (now : Z) (socket : WebSocketRef) : World :=
  match ws_playerId (sockets w socket) with
  | None => w
  | Some p =>
      if String.eqb p "" then w
      else
        let results := disconnectFrom (sockets w) now p <$> rooms w in
        {| rooms := concat (fst <$> results);
           clients := delete p (clients w);
           matchmakingQueue := removeFirst (ticketOf p) (matchmakingQueue w);
           sockets := sockets w;
           sent := sent w ++ concat (snd <$> results) |}
  end.

(** The [close] event of a socket: it is closed when the handler runs. *)
Definition onClose (w : World) (now : Z) (socket : WebSocketRef) : World :=
  let w :=
    {| rooms := rooms w; clients := clients w; matchmakingQueue := matchmakingQueue w;
       sockets := λ s, if bool_decide (s = socket)
                       then {| readyState := CLOSED;
                               ws_playerId := ws_playerId (sockets w s) |}
                       else sockets w s;
       sent := sent w |} in
  handleDisconnect w now socket.

(** The messages a socket was handed, oldest first. *)
Definition received (w : World) (socket : WebSocketRef) : list Message :=
  snd <$> filter (λ m, m.1 = socket) (sent w).

Definition isOpen (w : World) (socket : WebSocketRef) : Prop :=
  readyState (sockets w socket) = OPEN.

(** *** Messages and rooms the properties name *)

(** The MOVE message a room fans out. *)
Definition relayedMove (now : Z) (p : string) (moveData : MoveData) : Message :=
  {| type := MOVE; data := MoveContent moveData; timestamp := now;
     playerId := p; messageId := None |}.

(** GAME_START of [startGame]. *)
Definition gameStartMessage (now : Z) (roomId : string) (ids : list string)
    (starting : string) : Message :=
  serverMessage GAME_START (GameStartData roomId ids (Some starting)) now None.

(** GAME_START of the matchmaker. *)
Definition matchedMessage (now : Z) (roomId opponentId : string) : Message :=
  serverMessage GAME_START (MatchedData roomId opponentId) now None.

Definition playerOf (t : Ticket) : Player :=
  {| player_id := ticket_playerId t; ws := ticket_ws t |}.

(** *** Examples *)

Definition openSocket (p : option string) : WebSocket :=
  {| readyState := OPEN; ws_playerId := p |}.

(** Sockets 1 and 2 belong to the registered players A and B, who are in
    the started room R, A to move; socket 7 is open and never sent CONNECT;
    socket 8 belongs to the registered player Y. *)
Definition exampleSockets (s : WebSocketRef) : WebSocket :=
  match s with
  | 1 => openSocket (Some "A")
  | 2 => openSocket (Some "B")
  | 8 => openSocket (Some "Y")
  | _ => openSocket None
  end.

Definition exampleRoom : BattleRoom :=
  {| id := "R";
     players := [ {| player_id := "A"; ws := 1 |}; {| player_id := "B"; ws := 2 |} ];
     gameStarted := true; currentTurn := Some "A";
     playerStates :=
       <["B" := {| score := 0; moves := 0; connected := true |}]>
         (<["A" := {| score := 0; moves := 0; connected := true |}]> ∅);
     moveHistory := []; createdAt := 0 |}.

Definition exampleWorld : World :=
  {| rooms := [("R", exampleRoom)];
     clients := <["Y" := 8]> (<["B" := 2]> (<["A" := 1]> ∅));
     matchmakingQueue := [];
     sockets := exampleSockets;
     sent := [] |}.

Definition exampleMove : MoveData :=
  {| pos1 := {| row := 0; col := 0 |}; pos2 := {| row := 0; col := 1 |}; moveNumber := 1 |}.

Definition exampleRoomIds (n : nat) : string := "room_" +:+ pretty n.


(** Y, then A, ask for a match. *)
Definition matchRequest (t : Z) (p : string) : Message :=
  {| type := CHAT; data := ChatContent "" "/matchmaking"; timestamp := t;
     playerId := p; messageId := None |}.

Definition requestMatch (w : World) (now : Z) (socket : WebSocketRef) (p : string) : World :=
  handleChat w now socket (matchRequest now p) "" "/matchmaking".

Definition queued : World := requestMatch (requestMatch exampleWorld 10 8 "Y") 11 1 "A".

(** *** Timers and runs of events *)

Definition maxRoomAge : Z := 3600000.

(** [cleanupRooms]; [now] is [Date.now()]. *)
Definition cleanupRooms (w : World) (now : Z) : World :=
  withRooms
    (filter (λ entry, ¬ (isEmpty entry.2 = true ∨ (maxRoomAge < now - createdAt entry.2)%Z))
       (rooms w))
    w.

(** What the server is told: a message of a socket, named by the handler that
    [handleMessage] picks for its type and with the arguments of that handler,
    which are the fields of the message that the handler reads; a frame for
    which [handleMessage] does nothing ([Unknown]: a message of a type that it
    does not know, which it logs, or a frame that [JSON.parse] refuses, which
    the listener logs); a tick of one of the two timers of
    [setupMatchmaking]; the close of a socket. *)
Inductive Event :=
| Connect (socket : WebSocketRef) (p : string)
| CreateRoom (roomId : string) (socket : WebSocketRef) (p : string) (mid : option string)
| JoinRoom (socket : WebSocketRef) (roomId p : string) (mid : option string)
| LeaveRoom (roomId p : string)
| Move (socket : WebSocketRef) (p roomId : string) (moveData : MoveData)
| Chat (socket : WebSocketRef) (message : Message) (roomId text : string)
| Ping (socket : WebSocketRef) (t : Z)
| MatchmakingTick (roomIds : nat → string)
| CleanupTick
| Close (socket : WebSocketRef)
| StateSync (p roomId : string) (state : StateSyncData)
| Unknown.

(** One event; [now] is [Date.now()] while it is handled. *)
Definition step (w : World) (now : Z) (e : Event) : outcome World :=
  match e with
  | Connect socket p => Returns (handleConnect w now socket p)
  | CreateRoom roomId socket p mid => handleCreateRoom w now roomId socket p mid
  | JoinRoom socket roomId p mid => handleJoinRoom w now socket roomId p mid
  | LeaveRoom roomId p => Returns (handleLeaveRoom w now roomId p)
  | Move socket p roomId moveData => Returns (handleMove w now socket p roomId moveData)
  | Chat socket message roomId text => Returns (handleChat w now socket message roomId text)
  | Ping socket t => Returns (handlePing w now socket t)
  | MatchmakingTick roomIds => processMatchmakingQueue w now roomIds
  | CleanupTick => Returns (cleanupRooms w now)
  | Close socket => Returns (onClose w now socket)
  | StateSync p roomId state => Returns (handleStateSync w now p roomId state)
  | Unknown => Returns w
  end.

Fixpoint steps (w : World) (events : list (Z * Event)) : outcome World :=
  match events with
  | [] => Returns w
  | (now, e) :: rest => w ← step w now e; steps w rest
  end.

(** The server as its constructor leaves it; every socket is open and has
    no player id until it says CONNECT. *)
Definition initialWorld : World :=
  {| rooms := []; clients := ∅; matchmakingQueue := [];
     sockets := λ _, {| readyState := OPEN; ws_playerId := None |}; sent := [] |}.

(** A room as the server keeps it: under its own id, with one or two players,
    started when it has two, and with a player to move when started. *)
Definition roomKept (entry : string * BattleRoom) : Prop :=
  id entry.2 = entry.1 ∧
  (1 ≤ length (players entry.2) ≤ 2)%nat ∧
  (length (players entry.2) = 2%nat → gameStarted entry.2 = true) ∧
  (gameStarted entry.2 = true → is_Some (currentTurn entry.2)).

Definition roomsKept (w : World) : Prop :=
  Forall roomKept (rooms w) ∧ NoDup (rooms w).*1.

(** A socket that is not open in [w] is not open in [w'] and has been sent
    nothing between the two. *)
Definition quiet (s : WebSocketRef) (w w' : World) : Prop :=
  ¬ isOpen w s → ¬ isOpen w' s ∧ received w' s = received w s.

Definition cancelRequest (t : Z) (p : string) : Message :=
  {| type := CHAT; data := ChatContent "R" "/cancel_matchmaking"; timestamp := t;
     playerId := p; messageId := None |}.

(** A move, a ping of socket 2, a chat line, a state sync and an attempt of
    socket 2 to join room R again. *)
Definition exampleEvents : list (Z * Event) :=
  [ (50%Z, Move 1 "A" "R" exampleMove);
    (60%Z, Ping 2 7);
    (70%Z, Chat 1 {| type := CHAT; data := ChatContent "R" "hello"; timestamp := 70;
                     playerId := "A"; messageId := None |} "R" "hello");
    (75%Z, StateSync "A" "R" ReconnectionManager.exampleState);
    (80%Z, JoinRoom 2 "R" "B" None) ].

End BattleServer.

(** * Properties *)

(** ** The state synchronizer *)

Module SynchronizerProperties.
Import StateSynchronizer.

Lemma alter_lookup_insert {A : Type} (f : A → A) (l : list A) (i : nat) (x : A) :
  l !! i = Some x → alter f i l = <[i := f x]> l.
Proof.
  revert i; induction l as [|y l IH]; intros [|i] H; simplify_eq/=; auto.
  f_equal. auto.
Qed.

Lemma stateSnapshot_eta (s : StateSnapshot) :
  {| timestamp := timestamp s; version := version s;
     playerGrid := playerGrid s; opponentGrid := opponentGrid s;
     playerScore := playerScore s; opponentScore := opponentScore s;
     playerMoves := playerMoves s; opponentMoves := opponentMoves s;
     eventProgress := eventProgress s; activeEvents := activeEvents s;
     currentTurn := currentTurn s |} = s.
Proof. by destruct s. Qed.

(** On a change that fits, the loop body is the assignment the change
    denotes. *)
Lemma applyChange_fits (s : StateSnapshot) (change : StateChange) :
  changeFits s change = true →
  applyChange s change = Returns (perform (assignmentOf change) s).
Proof.
  unfold changeFits, applyChange, assignmentOf, applyGridChange.
  destruct (type change).
  - destruct (matchCellPath (path change)) as [[[g r] c]|]; [|done].
    unfold cellExists. destruct (getGrid g s !! r) as [cells|] eqn:Hrow; [|done].
    intros [Hc Hv]%andb_prop. destruct (value change); try done.
    unfold writeCell. rewrite Hc. simpl.
    by rewrite (alter_lookup_insert _ _ _ _ Hrow).
  - destruct (String.eqb (path change) "playerScore"); simpl.
    { destruct (value change); done. }
    destruct (String.eqb (path change) "opponentScore"); simpl; [|done].
    destruct (value change); done.
  - destruct (String.eqb (path change) "playerMoves"); simpl.
    { destruct (value change); done. }
    destruct (String.eqb (path change) "opponentMoves"); simpl; [|done].
    destruct (value change); done.
  - destruct (String.eqb (path change) "eventProgress"); simpl.
    { destruct (value change); done. }
    destruct (String.eqb (path change) "activeEvents"); simpl; [|done].
    destruct (value change); done.
  - destruct (value change); done.
Qed.

Lemma alter_insert_lengths (grid : Grid) (r c : nat) (v : CandyType) :
  length <$> alter (λ cells, <[c := v]> cells) r grid = length <$> grid.
Proof.
  revert r; induction grid as [|cells grid IH]; intros [|r]; simpl; try done.
  - by rewrite length_insert.
  - f_equal. apply IH.
Qed.

Lemma perform_dimensions (a : Assignment) (s : StateSnapshot) :
  dimensions (perform a s) = dimensions s.
Proof.
  destruct a; try done.
  destruct g; unfold dimensions; simpl; by rewrite alter_insert_lengths.
Qed.

Lemma perform_version (a : Assignment) (s : StateSnapshot) :
  version (perform a s) = version s.
Proof. destruct a; try done. by destruct g. Qed.

Lemma perform_timestamp (a : Assignment) (s : StateSnapshot) :
  timestamp (perform a s) = timestamp s.
Proof. destruct a; try done. by destruct g. Qed.

Lemma cellExists_lengths (grid grid' : Grid) (r c : nat) :
  length <$> grid = length <$> grid' → cellExists grid r c = cellExists grid' r c.
Proof.
  intros H. unfold cellExists.
  assert (Hl : (length <$> grid) !! r = (length <$> grid') !! r) by by rewrite H.
  rewrite !list_lookup_fmap in Hl.
  revert Hl. destruct (grid !! r), (grid' !! r); simpl; try done. by intros [= ->].
Qed.

Lemma changeFits_dimensions (s s' : StateSnapshot) (change : StateChange) :
  dimensions s = dimensions s' → changeFits s change = changeFits s' change.
Proof.
  unfold dimensions. intros [= Hp Ho]. unfold changeFits.
  destruct (type change); try done.
  destruct (matchCellPath (path change)) as [[[g r] c]|]; [|done].
  f_equal. destruct g; simpl; by apply cellExists_lengths.
Qed.

Lemma applyChanges_fits (s0 : StateSnapshot) (cs : list StateChange) :
  ∀ s, forallb (changeFits s0) cs = true →
       dimensions s = dimensions s0 →
       applyChanges s cs = Returns (performAll (assignmentOf <$> cs) s).
Proof.
  induction cs as [|c cs IH]; intros s Hfit Hdim; [done|].
  simpl in Hfit. apply andb_prop in Hfit as [Hc Hcs].
  simpl. rewrite applyChange_fits.
  2:{ by rewrite (changeFits_dimensions s s0). }
  simpl. apply IH; [done|]. by rewrite perform_dimensions.
Qed.

Lemma performAll_version (l : list Assignment) :
  ∀ s, version (performAll l s) = version s.
Proof.
  induction l as [|a l IH]; intros s; [done|]. simpl. by rewrite IH, perform_version.
Qed.

Lemma performAll_timestamp (l : list Assignment) :
  ∀ s, timestamp (performAll l s) = timestamp s.
Proof.
  induction l as [|a l IH]; intros s; [done|]. simpl. by rewrite IH, perform_timestamp.
Qed.

Lemma performAll_dimensions (l : list Assignment) :
  ∀ s, dimensions (performAll l s) = dimensions s.
Proof.
  induction l as [|a l IH]; intros s; [done|]. simpl. by rewrite IH, perform_dimensions.
Qed.

(** A later assignment to the same target wins. *)
Lemma perform_override (a b : Assignment) (s : StateSnapshot) :
  sameTarget a b = true → perform b (perform a s) = perform b s.
Proof.
  destruct a, b; try done; simpl.
  intros [[Hg Hr%Nat.eqb_eq]%andb_prop Hc%Nat.eqb_eq]%andb_prop.
  apply bool_decide_eq_true in Hg. subst.
  destruct g0; simpl; f_equal; rewrite list_alter_alter_eq;
    apply list_alter_ext; auto; intros x _; simpl; apply list_insert_insert_eq.
Qed.

(** Assignments to different targets commute. *)
Lemma perform_commute (a b : Assignment) (s : StateSnapshot) :
  sameTarget a b = false → perform b (perform a s) = perform a (perform b s).
Proof.
  destruct a, b; try done; simpl.
  2-8: by destruct g.
  2-8: by destruct g.
  intros H.
  destruct g, g0; simpl; try done; f_equal.
  all: destruct (decide (r0 = r)) as [->|Hr];
    [ rewrite !list_alter_alter_eq; apply list_alter_ext; auto; intros x _; simpl;
      apply list_insert_insert_ne; intros ->; simpl in H; rewrite !Nat.eqb_refl in H; done
    | by apply list_alter_alter_ne ].
Qed.

Lemma perform_idempotent (a : Assignment) (s : StateSnapshot) :
  perform a (perform a s) = perform a s.
Proof.
  destruct a; try done. simpl.
  destruct g; simpl; f_equal; rewrite list_alter_alter_eq;
    apply list_alter_ext; auto; intros x _; simpl; apply list_insert_insert_eq.
Qed.

(** An assignment made before a run of assignments is either overwritten by
    the run or can be made after it. *)
Lemma performAll_absorbs (a : Assignment) (l : list Assignment) :
  (∀ s, performAll l (perform a s) = performAll l s) ∨
  (∀ s, performAll l (perform a s) = perform a (performAll l s)).
Proof.
  induction l as [|b l IH]; [by right|].
  destruct (sameTarget a b) eqn:Hab.
  - left. intros s. simpl. by rewrite perform_override.
  - destruct IH as [IH|IH].
    + left. intros s. simpl. rewrite perform_commute by done. apply IH.
    + right. intros s. simpl. rewrite perform_commute by done. apply IH.
Qed.

Lemma performAll_idempotent (l : list Assignment) :
  ∀ s, performAll l (performAll l s) = performAll l s.
Proof.
  induction l as [|a l IH]; intros s; [done|].
  change (performAll l (perform a (performAll l (perform a s)))
          = performAll l (perform a s)).
  destruct (performAll_absorbs a l) as [H|H].
  - by rewrite H, IH.
  - by rewrite H, IH, <- H, perform_idempotent.
Qed.

Lemma setGrid_getGrid (g : GridName) (s : StateSnapshot) : setGrid g (getGrid g s) s = s.
Proof. by destruct g, s. Qed.

Lemma setGrid_setGrid (g : GridName) (x y : Grid) (s : StateSnapshot) :
  setGrid g x (setGrid g y s) = setGrid g x s.
Proof. by destruct g. Qed.

Lemma getGrid_setGrid (g : GridName) (x : Grid) (s : StateSnapshot) :
  getGrid g (setGrid g x s) = x.
Proof. by destruct g. Qed.

(** What a change that is carried out does: the assignment it denotes, or,
    for a cell one past the end of its row, the row grown by that cell. *)
Lemma applyChange_returns (s s' : StateSnapshot) (change : StateChange) :
  applyChange s change = Returns s' →
  (changeFits s change = true ∧ s' = perform (assignmentOf change) s) ∨
  (∃ g r v cells,
      assignmentOf change = SetCell g r (length cells) v ∧
      changeFits (setGrid g (<[r := cells ++ [v]]> (getGrid g s)) s) change = true ∧
      getGrid g s !! r = Some cells ∧
      s' = setGrid g (<[r := cells ++ [v]]> (getGrid g s)) s).
Proof.
  intros Happly. destruct (changeFits s change) eqn:Hfit.
  { left. split; [done|]. rewrite (applyChange_fits _ _ Hfit) in Happly. congruence. }
  right. revert Happly Hfit.
  unfold applyChange, changeFits, assignmentOf, applyGridChange, assignNumber.
  destruct (type change).
  - destruct (matchCellPath (path change)) as [[[g r] c]|]; [|done].
    unfold cellExists. destruct (getGrid g s !! r) as [cells|] eqn:Hrow; [|done].
    destruct (value change) as [|v| | |] eqn:Hv; try done.
    unfold writeCell. destruct (c <? length cells)%nat eqn:Hc; [done|].
    destruct (Nat.eqb_spec c (length cells)) as [->|]; [|done].
    simpl. intros [= <-] _. exists g, r, v, cells. split; [done|]. split; [|done].
    rewrite getGrid_setGrid. unfold cellExists.
    rewrite list_lookup_insert_eq by by eapply lookup_lt_Some.
    rewrite length_app. simpl. apply andb_true_intro. split; [|done].
    apply Nat.ltb_lt. lia.
  - destruct (String.eqb (path change) "playerScore"); simpl.
    { destruct (value change); done. }
    destruct (String.eqb (path change) "opponentScore"); simpl; [|done].
    destruct (value change); done.
  - destruct (String.eqb (path change) "playerMoves"); simpl.
    { destruct (value change); done. }
    destruct (String.eqb (path change) "opponentMoves"); simpl; [|done].
    destruct (value change); done.
  - destruct (String.eqb (path change) "eventProgress"); simpl.
    { destruct (value change); done. }
    destruct (String.eqb (path change) "activeEvents"); simpl; [|done].
    destruct (value change); done.
  - destruct (value change); done.
Qed.

Lemma alter_fixed_lookup {A : Type} (f : A → A) (l : list A) (i : nat) (x : A) :
  alter f i l = l → l !! i = Some x → f x = x.
Proof.
  intros Hfix Hx. pose proof (list_lookup_alter_eq f l i) as H.
  rewrite Hfix, Hx in H. simpl in H. congruence.
Qed.

(** A cell that holds its value still holds it when another row, or the same
    row at its end, gets a cell more. *)
Lemma alter_fixed_grow (grid : Grid) (r : nat) (cells : list CandyType) (v : CandyType)
    (r2 c2 : nat) (v2 : CandyType) :
  grid !! r = Some cells →
  ¬ (r2 = r ∧ c2 = length cells) →
  alter (λ cells, <[c2 := v2]> cells) r2 grid = grid →
  alter (λ cells, <[c2 := v2]> cells) r2 (<[r := cells ++ [v]]> grid)
  = <[r := cells ++ [v]]> grid.
Proof.
  intros Hrow Hne Hfix. apply list_eq. intros i. rewrite list_lookup_alter.
  destruct (decide (r2 = i)) as [->|]; [|done].
  destruct (decide (i = r)) as [->|Hir].
  - rewrite list_lookup_insert_eq by by eapply lookup_lt_Some. simpl. f_equal.
    pose proof (alter_fixed_lookup _ _ _ _ Hfix Hrow) as Hcells. simpl in Hcells.
    destruct (decide (c2 < length cells)%nat).
    + rewrite insert_app_l by done. by rewrite Hcells.
    + apply list_insert_ge. rewrite length_app. simpl.
      assert (c2 ≠ length cells) by (intros ->; by apply Hne). lia.
  - rewrite list_lookup_insert_ne by done.
    pose proof (list_lookup_alter_eq (λ cells, <[c2 := v2]> cells) grid i) as H.
    by rewrite Hfix in H.
Qed.

Lemma getGrid_setGrid_ne (g g' : GridName) (x : Grid) (s : StateSnapshot) :
  g ≠ g' → getGrid g' (setGrid g x s) = getGrid g' s.
Proof. by destruct g, g'. Qed.

Lemma perform_holds_getGrid (g : GridName) (r c : nat) (v : CandyType) (s : StateSnapshot) :
  perform (SetCell g r c v) s = s ↔
  alter (λ cells, <[c := v]> cells) r (getGrid g s) = getGrid g s.
Proof.
  simpl. split.
  - intros H. apply (f_equal (getGrid g)) in H. by rewrite getGrid_setGrid in H.
  - intros ->. apply setGrid_getGrid.
Qed.

Local Ltac holds_field :=
  unfold setPlayerScore, setOpponentScore, setPlayerMoves, setOpponentMoves,
    setEventProgress, setActiveEvents, setCurrentTurn in *;
  simpl in *; congruence.

(** A field or cell that holds the value an assignment gives it still holds
    it after a row has grown by a cell, unless that cell is its target. *)
Lemma perform_holds_grow (a : Assignment) (g : GridName) (r : nat)
    (cells : list CandyType) (v : CandyType) (s : StateSnapshot) :
  getGrid g s !! r = Some cells →
  sameTarget a (SetCell g r (length cells) v) = false →
  perform a s = s →
  perform a (setGrid g (<[r := cells ++ [v]]> (getGrid g s)) s)
  = setGrid g (<[r := cells ++ [v]]> (getGrid g s)) s.
Proof.
  intros Hrow Hne Hholds. destruct a as [g2 r2 c2 v2| | | | | | | |].
  - apply perform_holds_getGrid in Hholds. apply perform_holds_getGrid.
    destruct (decide (g = g2)) as [<-|Hg].
    + rewrite getGrid_setGrid. apply alter_fixed_grow; [done| |done].
      intros [-> ->]. simpl in Hne. rewrite bool_decide_eq_true_2 in Hne by done.
      by rewrite !Nat.eqb_refl in Hne.
    + by rewrite getGrid_setGrid_ne.
  - destruct s, g; simpl in *; holds_field.
  - destruct s, g; simpl in *; holds_field.
  - destruct s, g; simpl in *; holds_field.
  - destruct s, g; simpl in *; holds_field.
  - destruct s, g; simpl in *; holds_field.
  - destruct s, g; simpl in *; holds_field.
  - destruct s, g; simpl in *; holds_field.
  - done.
Qed.

Lemma cellExists_grow (grid : Grid) (r : nat) (cells : list CandyType) (v : CandyType)
    (r' c' : nat) :
  grid !! r = Some cells →
  cellExists grid r' c' = true → cellExists (<[r := cells ++ [v]]> grid) r' c' = true.
Proof.
  intros Hrow. unfold cellExists. destruct (decide (r' = r)) as [->|Hr].
  - rewrite Hrow, list_lookup_insert_eq by by eapply lookup_lt_Some.
    rewrite length_app. simpl. intros H%Nat.ltb_lt. apply Nat.ltb_lt. lia.
  - by rewrite list_lookup_insert_ne.
Qed.

Lemma changeFits_grow (g : GridName) (r : nat) (cells : list CandyType) (v : CandyType)
    (s : StateSnapshot) (change : StateChange) :
  getGrid g s !! r = Some cells →
  changeFits s change = true →
  changeFits (setGrid g (<[r := cells ++ [v]]> (getGrid g s)) s) change = true.
Proof.
  intros Hrow. unfold changeFits. destruct (type change); try done.
  destruct (matchCellPath (path change)) as [[[g' r'] c']|]; [|done].
  intros [Hc Hv]%andb_prop. apply andb_true_intro. split; [|done].
  destruct (decide (g = g')) as [<-|Hg].
  - rewrite getGrid_setGrid. by apply cellExists_grow.
  - by rewrite getGrid_setGrid_ne.
Qed.

(** One change that is carried out: the changes that fitted before still fit,
    and so does the change itself; the change written again changes nothing;
    what an assignment to another target holds it still holds. *)
Lemma applyChange_step (s s' : StateSnapshot) (change : StateChange) :
  applyChange s change = Returns s' →
  changeFits s' change = true ∧
  (∀ other, changeFits s other = true → changeFits s' other = true) ∧
  perform (assignmentOf change) s' = s' ∧
  version s' = version s ∧ timestamp s' = timestamp s ∧
  (∀ a, sameTarget a (assignmentOf change) = false → perform a s = s → perform a s' = s').
Proof.
  intros [[Hfit ->]|(g & r & v & cells & Ha & Hfit & Hrow & ->)]%applyChange_returns.
  - assert (Hdim : dimensions (perform (assignmentOf change) s) = dimensions s)
      by apply perform_dimensions.
    split; [by rewrite (changeFits_dimensions (perform (assignmentOf change) s) s)|].
    split; [intros other; by rewrite (changeFits_dimensions (perform (assignmentOf change) s) s)|].
    split; [apply perform_idempotent|].
    split; [apply perform_version|]. split; [apply perform_timestamp|].
    intros a Hne Hholds. rewrite <- (perform_commute a) by done. by rewrite Hholds.
  - split; [done|].
    split; [intros other; by apply changeFits_grow|].
    split.
    { rewrite Ha. apply perform_holds_getGrid. rewrite getGrid_setGrid.
      apply list_eq. intros i. rewrite list_lookup_alter.
      destruct (decide (r = i)) as [<-|]; [|done].
      rewrite list_lookup_insert_eq by by eapply lookup_lt_Some. simpl. f_equal.
      apply list_insert_id. by rewrite lookup_app_r, Nat.sub_diag. }
    split; [by destruct g|]. split; [by destruct g|].
    intros a Hne Hholds. rewrite Ha in Hne. by apply perform_holds_grow.
Qed.

Lemma applyChanges_step (cs : list StateChange) :
  ∀ s s',
    applyChanges s cs = Returns s' →
    (∀ other, changeFits s other = true → changeFits s' other = true) ∧
    version s' = version s ∧ timestamp s' = timestamp s ∧
    (∀ a, Forall (λ b, sameTarget a (assignmentOf b) = false) cs →
          perform a s = s → perform a s' = s').
Proof.
  induction cs as [|c cs IH]; intros s s' Happly; simpl in Happly.
  - by injection Happly as <-.
  - destruct (applyChange s c) as [s1| |] eqn:Hc; [|done|done].
    cbn [mbind outcome_bind] in Happly.
    destruct (applyChange_step _ _ _ Hc) as (_ & Hmono & _ & Hv & Ht & Hkeep).
    destruct (IH _ _ Happly) as (Hmono' & Hv' & Ht' & Hkeep').
    split; [by auto|]. split; [congruence|]. split; [congruence|].
    intros a Hall Hholds. apply Forall_cons in Hall as [Hc1 Hcs]. auto.
Qed.

(** An assignment that a later one of the run overwrites has no effect. *)
Lemma performAll_overwritten (a : Assignment) (l : list Assignment) :
  Exists (λ b, sameTarget a b = true) l →
  ∀ s, performAll l (perform a s) = performAll l s.
Proof.
  induction l as [|b l IH]; intros Hex s; [by apply Exists_nil in Hex|].
  simpl. destruct (sameTarget a b) eqn:Hab.
  - by rewrite perform_override.
  - rewrite perform_commute by done. apply IH.
    apply Exists_cons in Hex as [?|?]; [congruence|done].
Qed.

Lemma performAll_commute (a : Assignment) (l : list Assignment) :
  Forall (λ b, sameTarget a b = false) l →
  ∀ s, performAll l (perform a s) = perform a (performAll l s).
Proof.
  induction l as [|b l IH]; intros Hall s; [done|].
  apply Forall_cons in Hall as [Hab Hl]. simpl.
  rewrite perform_commute by done. by apply IH.
Qed.

(** The snapshot that a run of changes ends in is one that every change of
    the run fits, and the run written as assignments leaves it as it is. *)
Lemma applyChanges_settled (cs : list StateChange) :
  ∀ s s',
    applyChanges s cs = Returns s' →
    forallb (changeFits s') cs = true ∧ performAll (assignmentOf <$> cs) s' = s'.
Proof.
  induction cs as [|c cs IH]; intros s s' Happly; [done|].
  simpl in Happly.
  destruct (applyChange s c) as [s1| |] eqn:Hc; [|done|done].
  cbn [mbind outcome_bind] in Happly.
  destruct (applyChange_step _ _ _ Hc) as (Hfit & _ & Hholds & _).
  destruct (applyChanges_step _ _ _ Happly) as (Hmono & _ & _ & Hkeep).
  destruct (IH _ _ Happly) as [Hfits Hfix].
  split.
  { simpl. rewrite Hfits. by rewrite (Hmono _ Hfit). }
  rewrite fmap_cons. simpl.
  destruct (decide (Exists (λ b, sameTarget (assignmentOf c) b = true)
                      (assignmentOf <$> cs))) as [Hex|Hnone].
  - by rewrite performAll_overwritten.
  - apply not_Exists_Forall in Hnone; [|intros b; apply _].
    assert (Hall : Forall (λ b, sameTarget (assignmentOf c) b = false) (assignmentOf <$> cs)).
    { eapply Forall_impl; [exact Hnone|]. intros b Hb. simpl in Hb.
      by destruct (sameTarget (assignmentOf c) b). }
    rewrite performAll_commute by done. rewrite Hfix.
    apply Hkeep; [|done]. by apply Forall_fmap in Hall.
Qed.

(** C1.  [applyDelta] returns on every delta whose changes fit the snapshot
    (cell changes name cells the snapshot has, values have the type of the
    field they go to).  Whenever it returns, on any snapshot and any delta,
    whatever the base version of the delta, which it does not read, the
    result has the delta's version and timestamp, and applying the delta to
    that result returns the same snapshot again. *)
Theorem applyDelta_version_idempotent (snapshot : StateSnapshot) (delta : StateDelta) :
  (deltaFits snapshot delta = true →
     ∃ updated, applyDelta snapshot delta = Returns updated) ∧
  (∀ updated,
     applyDelta snapshot delta = Returns updated →
     version updated = deltaVersion delta ∧
     timestamp updated = deltaTimestamp delta ∧
     applyDelta updated delta = Returns updated).
Proof.
  split.
  - intros Hfit. eexists. unfold applyDelta, deepClone.
    by apply (applyChanges_fits snapshot).
  - intros updated Happly. unfold applyDelta, deepClone in *.
    destruct (applyChanges_step _ _ _ Happly) as (_ & Hv & Ht & _).
    destruct (applyChanges_settled _ _ _ Happly) as [Hfits Hfix].
    simpl in Hv, Ht. split; [done|]. split; [done|].
    assert (Hst : setVersionTimestamp (deltaVersion delta) (deltaTimestamp delta) updated
                  = updated).
    { unfold setVersionTimestamp. rewrite <- Hv at 1. rewrite <- Ht at 1.
      apply stateSnapshot_eta. }
    rewrite Hst. rewrite (applyChanges_fits updated) by done. by rewrite Hfix.
Qed.

Lemma applyDelta_version_idempotent_witness :
  (baseVersion exampleDelta = version exampleSnapshot ∧
   deltaFits exampleSnapshot exampleDelta = true ∧
   ∃ updated,
     applyDelta exampleSnapshot exampleDelta = Returns updated ∧
     version updated = 2%Z ∧ timestamp updated = 2000%Z ∧
     applyDelta updated exampleDelta = Returns updated) ∧
  (deltaFits exampleSnapshot growingDelta = false ∧
   ∃ updated,
     applyDelta exampleSnapshot growingDelta = Returns updated ∧
     length <$> playerGrid updated = [9; 8; 8; 8; 8; 8; 8; 8]%nat ∧
     version updated = 2%Z ∧ timestamp updated = 2000%Z ∧
     applyDelta updated growingDelta = Returns updated).
Proof.
  split.
  - split; [reflexivity|]. split; [reflexivity|].
    destruct (applyDelta_version_idempotent exampleSnapshot exampleDelta) as [Hret Hsame].
    destruct (Hret eq_refl) as [updated Hupdated].
    exists updated. split; [exact Hupdated|]. exact (Hsame updated Hupdated).
  - split; [reflexivity|].
    destruct (applyDelta_version_idempotent exampleSnapshot growingDelta) as [_ Hsame].
    eexists. split; [reflexivity|]. split; [reflexivity|].
    apply Hsame. reflexivity.
Defined.

(** C1, counterexample: a delta based on the version of the snapshot whose
    cell change names row 9 of a grid of 8 rows; [applyDelta] throws. *)
Lemma applyDelta_missing_row :
  baseVersion missingRowDelta = version exampleSnapshot ∧
  applyDelta exampleSnapshot missingRowDelta = Throws.
Proof. split; reflexivity. Qed.

Lemma compareCells_returns (oldCells cells : list CandyType) (p : string) (r : nat) :
  ∀ c changes,
    ∃ changes', compareCells oldCells (Some cells) p r c changes = Returns changes'.
Proof.
  induction oldCells as [|old rest IH]; intros c changes; simpl; eauto.
Qed.

Lemma compareRows_returns (oldRows newGrid : Grid) (p : string) :
  ∀ r changes,
    (r + length oldRows ≤ length newGrid)%nat →
    ∃ changes', compareRows oldRows newGrid p r changes = Returns changes'.
Proof.
  induction oldRows as [|oldCells rest IH]; intros r changes Hlen; simpl in *; eauto.
  destruct (lookup_lt_is_Some_2 newGrid r) as [cells Hcells]; [lia|].
  rewrite Hcells.
  destruct (compareCells_returns oldCells cells p r 0%nat changes) as [changes' ->].
  simpl. apply IH. lia.
Qed.

Lemma compareGrids_returns (oldGrid newGrid : Grid) (p : string)
    (changes : list StateChange) :
  (length oldGrid ≤ length newGrid)%nat →
  ∃ changes', compareGrids oldGrid newGrid p changes = Returns changes'.
Proof. intros H. by apply compareRows_returns. Qed.

Lemma generateDelta_returns (this : Synchronizer) (now : Z) :
  rowsCovered this = true → ∃ delta, generateDelta this now = Returns delta.
Proof.
  unfold rowsCovered, generateDelta.
  destruct (currentSnapshot this) as [current|]; [|eauto].
  destruct (previousSnapshot this) as [previous|]; [|eauto].
  intros [Hp%Nat.leb_le Ho%Nat.leb_le]%andb_prop.
  destruct (compareGrids_returns (playerGrid previous) (playerGrid current)
              "playerGrid" [] Hp) as [cs1 ->]. simpl.
  destruct (compareGrids_returns (opponentGrid previous) (opponentGrid current)
              "opponentGrid" cs1 Ho) as [cs2 ->]. simpl.
  match goal with |- context [if ?b then _ else _] => destruct b end; eauto.
Qed.

(** [generateDelta] reads neither the statistics nor, for its changes, the
    clock. *)
Lemma generateDelta_withStats (this : Synchronizer) (st : SyncStats) (now now' : Z)
    (delta : StateDelta) :
  generateDelta this now = Returns (Some delta) →
  generateDelta (withStats st this) now' =
    Returns (Some {| deltaVersion := deltaVersion delta;
                     baseVersion := baseVersion delta;
                     changes := changes delta; deltaTimestamp := now' |}).
Proof.
  unfold generateDelta; simpl.
  destruct (currentSnapshot this) as [current|]; [|done].
  destruct (previousSnapshot this) as [previous|]; [|done].
  destruct (compareGrids _ _ "playerGrid" _) as [cs1| |]; simpl; try done.
  destruct (compareGrids _ _ "opponentGrid" _) as [cs2| |]; simpl; try done.
  match goal with |- context [if ?b then _ else _] => destruct b end; [done|].
  by intros [= <-].
Qed.

Lemma generateDelta_previous (this : Synchronizer) (now : Z) (delta : StateDelta) :
  generateDelta this now = Returns (Some delta) →
  ∃ previous, previousSnapshot this = Some previous.
Proof.
  unfold generateDelta. destruct (currentSnapshot this); [|done].
  destruct (previousSnapshot this); [eauto|done].
Qed.

(** C3.  [shouldUseDeltaSync] returns false in FULL mode and true in DELTA
    mode.  In HYBRID mode it returns false exactly when there is no previous
    snapshot, or [totalSyncs % 10 == 0], or the generated delta holds more than
    50 change records; for snapshots of one board (the current grids have the
    rows of the previous ones) it returns true exactly when none of the three
    holds.  So with [totalSyncs = 9] a delta of 12 changes is what
    [prepareSyncData] sends, with [totalSyncs = 10] it sends the full snapshot,
    and with a delta of 60 changes it sends the full snapshot. *)
Theorem shouldUseDeltaSync_modes :
  (∀ this now, syncMode this = FULL → shouldUseDeltaSync this now = Returns false) ∧
  (∀ this now, syncMode this = DELTA → shouldUseDeltaSync this now = Returns true) ∧
  (∀ this now, syncMode this = HYBRID →
     (shouldUseDeltaSync this now = Returns false ↔
        previousSnapshot this = None ∨ keyframeDue this ∨ deltaTooLarge this now)) ∧
  (∀ this now, syncMode this = HYBRID → rowsCovered this = true →
     (shouldUseDeltaSync this now = Returns true ↔
        ¬ (previousSnapshot this = None ∨ keyframeDue this ∨ deltaTooLarge this now))) ∧
  (∀ this now1 now2 current delta,
     syncMode this = HYBRID → currentSnapshot this = Some current →
     totalSyncs (stats this) = 9%Z →
     generateDelta this now1 = Returns (Some delta) → length (changes delta) = 12%nat →
     ∃ sent this', prepareSyncData this now1 now2 = Returns (DeltaData sent, this')
                   ∧ changes sent = changes delta) ∧
  (∀ this now1 now2 current,
     syncMode this = HYBRID → currentSnapshot this = Some current →
     totalSyncs (stats this) = 10%Z →
     ∃ this', prepareSyncData this now1 now2 = Returns (FullData current, this')) ∧
  (∀ this now1 now2 current delta,
     syncMode this = HYBRID → currentSnapshot this = Some current →
     generateDelta this now1 = Returns (Some delta) → length (changes delta) = 60%nat →
     ∃ this', prepareSyncData this now1 now2 = Returns (FullData current, this')).
Proof.
  split; [|split; [|split; [|split; [|split; [|split]]]]].
  - intros this now Hm. unfold shouldUseDeltaSync. by rewrite Hm.
  - intros this now Hm. unfold shouldUseDeltaSync. by rewrite Hm.
  - intros this now Hm.
    unfold shouldUseDeltaSync, keyframeDue, deltaTooLarge, snapshotInterval, maxDeltaSize.
    rewrite Hm. destruct (previousSnapshot this) as [previous|]; [|by split; auto].
    destruct (Z.eqb_spec (Z.rem (totalSyncs (stats this)) 10) 0) as [Hk|Hk];
      [by split; auto|].
    destruct (generateDelta this now) as [[delta|]| |]; simpl.
    + destruct (Nat.leb_spec (length (changes delta)) 50) as [Hle|Hgt]; split; try done.
      * intros [|[|(delta' & [= <-] & Hlen')]]; try done. lia.
      * intros _. right; right. eauto.
    + split; [done|]. intros [|[|(delta' & [=] & _)]]; done.
    + split; [done|]. intros [|[|(delta' & [=] & _)]]; done.
    + split; [done|]. intros [|[|(delta' & [=] & _)]]; done.
  - intros this now Hm Hcov.
    destruct (generateDelta_returns this now Hcov) as [generated Hd].
    unfold shouldUseDeltaSync, keyframeDue, deltaTooLarge, snapshotInterval, maxDeltaSize.
    rewrite Hm, Hd. destruct (previousSnapshot this) as [previous|]; [|split; [done|tauto]].
    destruct (Z.eqb_spec (Z.rem (totalSyncs (stats this)) 10) 0) as [Hk|Hk];
      [split; [done|tauto]|].
    simpl. destruct generated as [delta|].
    2:{ split; [|done]. intros _ [|[|(delta' & [=] & _)]]; done. }
    destruct (Nat.leb_spec (length (changes delta)) 50) as [Hle|Hgt]; split; try done.
    + intros _ [|[|(delta' & [= <-] & Hlen')]]; try done. lia.
    + intros Hnot. exfalso. apply Hnot. right; right. eauto.
  - intros this now1 now2 current delta Hm Hc Ht Hd Hlen.
    destruct (generateDelta_previous this now1 delta Hd) as [previous Hprev].
    unfold prepareSyncData, shouldUseDeltaSync, snapshotInterval, maxDeltaSize.
    rewrite Hc, Hm, Hprev, Ht, Hd. simpl. rewrite Hlen. simpl.
    rewrite (generateDelta_withStats _ _ now1 now2 delta Hd). simpl. eauto.
  - intros this now1 now2 current Hm Hc Ht.
    unfold prepareSyncData, shouldUseDeltaSync, snapshotInterval.
    rewrite Hc, Hm, Ht. destruct (previousSnapshot this); simpl; eauto.
  - intros this now1 now2 current delta Hm Hc Hd Hlen.
    destruct (generateDelta_previous this now1 delta Hd) as [previous Hprev].
    unfold prepareSyncData, shouldUseDeltaSync, snapshotInterval, maxDeltaSize.
    rewrite Hc, Hm, Hprev, Hd.
    destruct (Z.rem (totalSyncs (stats this)) 10 =? 0)%Z; simpl; [eauto|].
    rewrite Hlen. simpl. eauto.
Qed.

Lemma shouldUseDeltaSync_modes_witness :
  shouldUseDeltaSync (new FULL) 0 = Returns false ∧
  shouldUseDeltaSync (new DELTA) 0 = Returns true ∧
  shouldUseDeltaSync (hybridAfter 9 1 4) 5 = Returns true ∧
  shouldUseDeltaSync (hybridAfter 10 1 4) 5 = Returns false ∧
  (∃ sent this', prepareSyncData (hybridAfter 9 1 4) 5 6 = Returns (DeltaData sent, this')
                 ∧ length (changes sent) = 12%nat) ∧
  (∃ current this', prepareSyncData (hybridAfter 10 1 4) 5 6 = Returns (FullData current, this')) ∧
  (∃ current this', prepareSyncData (hybridAfter 11 7 4) 5 6 = Returns (FullData current, this')).
Proof.
  destruct shouldUseDeltaSync_modes as (Hfull & Hdelta & Hfalse & Htrue & H12 & H10 & H60).
  split; [by apply Hfull|]. split; [by apply Hdelta|].
  split.
  { apply Htrue; [reflexivity|reflexivity|].
    intros [H|[H|(delta & Hd & Hlen)]].
    - discriminate H.
    - vm_compute in H. discriminate H.
    - vm_compute in Hd. injection Hd as <-. vm_compute in Hlen. lia. }
  split.
  { apply Hfalse; [reflexivity|]. right. left. reflexivity. }
  split.
  { edestruct (H12 (hybridAfter 9 1 4) 5%Z 6%Z) as (sent & this' & Hp & Hc).
    - reflexivity.
    - reflexivity.
    - reflexivity.
    - vm_compute. reflexivity.
    - reflexivity.
    - exists sent, this'. split; [exact Hp|]. rewrite Hc. reflexivity. }
  split.
  { edestruct (H10 (hybridAfter 10 1 4) 5%Z 6%Z) as (this' & Hp).
    - reflexivity.
    - reflexivity.
    - reflexivity.
    - eexists _, this'. exact Hp. }
  edestruct (H60 (hybridAfter 11 7 4) 5%Z 6%Z) as (this' & Hp).
  - reflexivity.
  - reflexivity.
  - vm_compute. reflexivity.
  - reflexivity.
  - eexists _, this'. exact Hp.
Defined.

End SynchronizerProperties.

(** ** The conflict resolver *)

Module ResolverProperties.
Import ConflictResolver.






Lemma forEach_collect {B C : Type} (body : list C → B → outcome (list C))
    (g : B → list C) (l : list B) :
  (∀ acc x, x ∈ l → body acc x = Returns (acc ++ g x)) →
  ∀ acc, forEach body acc l = Returns (acc ++ (l ≫= g)).
Proof.
  induction l as [|x l IH]; intros Hbody acc; simpl.
  - by rewrite app_nil_r.
  - rewrite Hbody by left. simpl. rewrite IH.
    + by rewrite (assoc_L (++)).
    + intros acc' y Hy. apply Hbody. by right.
Qed.

Lemma readCell_cellAt (grid : Grid) (r c : nat) :
  (r < length grid)%nat → readCell grid r c = Returns (cellAt grid r c).
Proof.
  intros Hr. unfold readCell, cellAt.
  destruct (lookup_lt_is_Some_2 grid r Hr) as [cells ->]. done.
Qed.

Lemma compensateCell_returns (a b : StateSnapshot) (r c : nat)
    (moves : list CompensationMove) :
  (r < length (playerGrid a))%nat → (r < length (playerGrid b))%nat →
  compensateCell a b r moves c = Returns (moves ++ movesAt a b (r, c)).
Proof.
  intros Ha Hb. unfold compensateCell, movesAt, playerCellDiffers, compensationFor.
  rewrite !readCell_cellAt by done. simpl.
  destruct (bool_decide _); simpl; [by rewrite app_nil_r|done].
Qed.

Lemma filter_bind_list {A B : Type} (P : B → Prop) `{∀ x, Decision (P x)}
    (h : A → list B) (l : list A) :
  filter P (l ≫= h) = l ≫= (λ x, filter P (h x)).
Proof.
  induction l as [|x l IH]; [done|].
  by rewrite !bind_cons, filter_app, IH.
Qed.

Lemma fmap_bind_list {A B C : Type} (f : B → C) (h : A → list B) (l : list A) :
  f <$> (l ≫= h) = l ≫= (λ x, f <$> h x).
Proof.
  induction l as [|x l IH]; [done|].
  by rewrite !bind_cons, fmap_app, IH.
Qed.

Lemma movesAt_filter (a b : StateSnapshot) (rc : nat * nat) :
  movesAt a b rc
  = compensationFor a b <$> filter (λ rc, playerCellDiffers a b rc = true) [rc].
Proof.
  unfold movesAt. rewrite filter_cons, filter_nil.
  destruct (playerCellDiffers a b rc); by case_decide.
Qed.

Lemma generateCompensationMoves_returns (a b : StateSnapshot) :
  (boardSize ≤ length (playerGrid a))%nat → (boardSize ≤ length (playerGrid b))%nat →
  generateCompensationMoves a b
  = Returns (compensationFor a b <$> differingPlayerCells a b).
Proof.
  intros Ha Hb. unfold generateCompensationMoves.
  rewrite (forEach_collect _ (λ r, seq 0 boardSize ≫= λ c, movesAt a b (r, c))).
  - rewrite app_nil_l. f_equal. unfold differingPlayerCells, boardPositions.
    rewrite filter_bind_list, fmap_bind_list.
    apply list_bind_ext; [|done]. intros r.
    rewrite filter_bind_list, fmap_bind_list.
    apply list_bind_ext; [|done]. intros c. apply movesAt_filter.
  - intros acc r Hr. apply elem_of_seq in Hr.
    apply (forEach_collect _ (λ c, movesAt a b (r, c))).
    intros acc' c _. apply compensateCell_returns; lia.
Qed.

(** C5 (amended).  On a client ([isServerAuthority] false) with the policy
    SERVER_AUTHORITATIVE, for snapshots whose player grids have at least 8
    rows, [resolveConflict] succeeds, the resolved state is the remote
    snapshot, a rollback is required, and the compensation moves are one per
    cell of the 8 by 8 board in which the local player grid differs from the
    remote player grid, in row-major order; the opponent grids are not
    compared.  Seven such cells give seven moves. *)
Theorem serverAuthoritative_on_client (this : Resolver) (startTime endTime : Z)
    (err : string) (conflict : Conflict) (l r : StateSnapshot) :
  policy this = SERVER_AUTHORITATIVE →
  isServerAuthority this = false →
  (8 ≤ length (playerGrid l))%nat →
  (8 ≤ length (playerGrid r))%nat →
  let result := (resolveConflict this startTime endTime err conflict l r).1 in
  success result = true ∧
  strategy result = SERVER_AUTHORITATIVE ∧
  resolvedState result = r ∧
  rollbackRequired result = true ∧
  compensationMoves result = compensationFor l r <$> differingPlayerCells l r ∧
  (length (differingPlayerCells l r) = 7%nat → length (compensationMoves result) = 7%nat).
Proof.
  intros Hp Hs Hl Hr. unfold resolveConflict, resolveServerAuthoritative.
  rewrite Hp, Hs. rewrite generateCompensationMoves_returns by done. simpl.
  repeat split; try done. intros H. by rewrite length_fmap.
Qed.

Lemma lookup_mergeGrids (grid1 grid2 : Grid) (r c : nat) :
  (r < max (length grid1) (length grid2))%nat → (c < boardSize)%nat →
  cellAt (mergeGrids grid1 grid2) r c = Some (mergedCell grid1 grid2 r c).
Proof.
  intros Hr Hc. unfold cellAt, mergeGrids.
  rewrite list_lookup_fmap, lookup_seq_lt by done.
  cbn [fmap option_fmap option_map mbind option_bind].
  rewrite list_lookup_fmap, lookup_seq_lt by done.
  cbn [fmap option_fmap option_map Nat.add].
  f_equal. unfold mergedCell, cellOrEmpty, cellAt.
  destruct (grid1 !! r) as [cells1|]; simpl; [destruct (cells1 !! c) as [v|]; simpl|].
  all: destruct (grid2 !! r) as [cells2|]; simpl.
  all: repeat case_bool_decide; try done; congruence.
Qed.

Lemma length_mergeGrids (grid1 grid2 : Grid) :
  length (mergeGrids grid1 grid2) = max (length grid1) (length grid2).
Proof. unfold mergeGrids. by rewrite length_fmap, length_seq. Qed.

Lemma mergeGrids_rows (grid1 grid2 : Grid) (cells : list CandyType) :
  cells ∈ mergeGrids grid1 grid2 → length cells = boardSize.
Proof.
  unfold mergeGrids. intros (r & -> & _)%list_elem_of_fmap.
  by rewrite length_fmap, length_seq.
Qed.

(** Up to 2^53 every integer is a double. *)
Lemma toDouble_exact (n : Z) : (Z.abs n ≤ 2 ^ 53)%Z → toDouble n = n.
Proof.
  change (2 ^ 53)%Z with 9007199254740992%Z. intros Hn. unfold toDouble.
  destruct (Z.ltb_spec (Z.abs n) (2 ^ 53)) as [|Hge]; [done|].
  change (2 ^ 53)%Z with 9007199254740992%Z in Hge.
  assert (n = 9007199254740992 ∨ n = -9007199254740992)%Z as [-> | ->] by lia;
    reflexivity.
Qed.

(** MERGE on boards the resolver's loops cover.  With the policy MERGE, for a
    local snapshot whose player grid has at least 8 rows, the resolution
    succeeds without rollback; the scores, move counts and event progress of
    the merged snapshot are the maxima of the two inputs; its version is the
    larger version plus one when that version is below 2^53 in magnitude, and
    it is 2^53 again, the sum being rounded, when the larger version is 2^53;
    timestamp, turn and active events are the
    remote's when the remote timestamp is later and the local's otherwise; its
    player grid merges the local player grid with the remote opponent grid and
    its opponent grid the local opponent grid with the remote player grid,
    each over as many rows as the longer of the two and 8 columns, a cell
    being the local one unless that is missing or EMPTY, then the remote one,
    then EMPTY.  The compensation moves are the cells of the board in which
    the local player grid differs from the merged one. *)
Theorem merge_resolution (this : Resolver) (startTime endTime : Z)
    (err : string) (conflict : Conflict) (l r : StateSnapshot) :
  policy this = MERGE →
  (8 ≤ length (playerGrid l))%nat →
  let result := (resolveConflict this startTime endTime err conflict l r).1 in
  let merged := resolvedState result in
  success result = true ∧ strategy result = MERGE ∧ rollbackRequired result = false ∧
  compensationMoves result = compensationFor l merged <$> differingPlayerCells l merged ∧
  playerScore merged = Z.max (playerScore l) (playerScore r) ∧
  opponentScore merged = Z.max (opponentScore l) (opponentScore r) ∧
  playerMoves merged = Z.max (playerMoves l) (playerMoves r) ∧
  opponentMoves merged = Z.max (opponentMoves l) (opponentMoves r) ∧
  eventProgress merged = Z.max (eventProgress l) (eventProgress r) ∧
  ((Z.abs (Z.max (version l) (version r)) < 2 ^ 53)%Z →
     version merged = (Z.max (version l) (version r) + 1)%Z) ∧
  (Z.max (version l) (version r) = (2 ^ 53)%Z → version merged = (2 ^ 53)%Z) ∧
  ((timestamp l < timestamp r)%Z →
     timestamp merged = timestamp r ∧ currentTurn merged = currentTurn r
     ∧ activeEvents merged = activeEvents r) ∧
  ((timestamp r ≤ timestamp l)%Z →
     timestamp merged = timestamp l ∧ currentTurn merged = currentTurn l
     ∧ activeEvents merged = activeEvents l) ∧
  length (playerGrid merged) = max (length (playerGrid l)) (length (opponentGrid r)) ∧
  length (opponentGrid merged) = max (length (opponentGrid l)) (length (playerGrid r)) ∧
  (∀ row col, (row < length (playerGrid merged))%nat → (col < 8)%nat →
     cellAt (playerGrid merged) row col
     = Some (mergedCell (playerGrid l) (opponentGrid r) row col)) ∧
  (∀ row col, (row < length (opponentGrid merged))%nat → (col < 8)%nat →
     cellAt (opponentGrid merged) row col
     = Some (mergedCell (opponentGrid l) (playerGrid r) row col)) ∧
  (∀ cells, cells ∈ playerGrid merged ∨ cells ∈ opponentGrid merged → length cells = 8%nat).
Proof.
  intros Hp Hl. unfold resolveConflict, resolveMerge. rewrite Hp.
  rewrite generateCompensationMoves_returns.
  2:{ done. }
  2:{ simpl. rewrite length_mergeGrids. unfold boardSize. lia. }
  simpl.
  repeat split; try done.
  - intros Hv. apply toDouble_exact. change (2 ^ 53)%Z with 9007199254740992%Z in *. lia.
  - by intros ->.
  - by destruct (Z.ltb_spec (timestamp l) (timestamp r)); [|lia].
  - by destruct (Z.ltb_spec (timestamp l) (timestamp r)); [|lia].
  - by destruct (Z.ltb_spec (timestamp l) (timestamp r)); [|lia].
  - by destruct (Z.ltb_spec (timestamp l) (timestamp r)); [lia|].
  - by destruct (Z.ltb_spec (timestamp l) (timestamp r)); [lia|].
  - by destruct (Z.ltb_spec (timestamp l) (timestamp r)); [lia|].
  - apply length_mergeGrids.
  - apply length_mergeGrids.
  - intros row col Hrow Hcol. rewrite length_mergeGrids in Hrow.
    by apply lookup_mergeGrids.
  - intros row col Hrow Hcol. rewrite length_mergeGrids in Hrow.
    by apply lookup_mergeGrids.
  - intros cells [H|H]; by apply mergeGrids_rows in H.
Qed.

(** C10.  With the policy LATEST_TIMESTAMP and equal timestamps the local
    snapshot is chosen: the resolved state is the local snapshot, no rollback
    is required and there are no compensation moves. *)
Theorem latestTimestamp_tie (this : Resolver) (startTime endTime : Z)
    (err : string) (conflict : Conflict) (l r : StateSnapshot) :
  policy this = LATEST_TIMESTAMP →
  timestamp l = timestamp r →
  let result := (resolveConflict this startTime endTime err conflict l r).1 in
  success result = true ∧
  strategy result = LATEST_TIMESTAMP ∧
  resolvedState result = l ∧
  rollbackRequired result = false ∧
  compensationMoves result = [].
Proof.
  intros Hp Ht. unfold resolveConflict, resolveLatestTimestamp.
  rewrite Hp, Ht, Z.leb_refl. done.
Qed.



Lemma serverAuthoritative_on_client_witness :
  let l := snapshotOn (board 8 8 RED) (board 8 8 BLUE) in
  let r := snapshotOn (boardWith 7 GREEN RED) (board 8 8 BLUE) in
  let result :=
    (resolveConflict (new SERVER_AUTHORITATIVE false) 0 1 "" (exampleConflict l r) l r).1 in
  success result = true ∧ resolvedState result = r ∧ rollbackRequired result = true ∧
  length (compensationMoves result) = 7%nat.
Proof.
  intros l r result.
  destruct (serverAuthoritative_on_client (new SERVER_AUTHORITATIVE false) 0 1 ""
              (exampleConflict l r) l r) as (Hs & _ & Hr & Hb & _ & H7).
  - reflexivity.
  - reflexivity.
  - vm_compute. lia.
  - vm_compute. lia.
  - split; [exact Hs|]. split; [exact Hr|]. split; [exact Hb|]. apply H7. reflexivity.
Defined.

(** C5, counterexample: on boards of 6 rows the resolution fails and keeps
    the local snapshot; on boards of 8 rows two snapshots that differ in seven
    cells of the opponent grid get no compensation move. *)
Lemma serverAuthoritative_board_and_grid :
  (let l := snapshotOn (board 6 6 RED) (board 6 6 BLUE) in
   let r := snapshotOn (board 6 6 GREEN) (board 6 6 BLUE) in
   let result :=
     (resolveConflict (new SERVER_AUTHORITATIVE false) 0 1 "" (exampleConflict l r) l r).1 in
   success result = false ∧ resolvedState result = l ∧ compensationMoves result = []) ∧
  (let l := snapshotOn (board 8 8 RED) (board 8 8 BLUE) in
   let r := snapshotOn (board 8 8 RED) (boardWith 7 GREEN BLUE) in
   let result :=
     (resolveConflict (new SERVER_AUTHORITATIVE false) 0 1 "" (exampleConflict l r) l r).1 in
   gridDifferences (opponentGrid l) (opponentGrid r) = 7%nat ∧
   success result = true ∧ compensationMoves result = []).
Proof. split; repeat split; reflexivity. Qed.

Lemma merge_resolution_witness :
  let l := snapshotOn (board 8 8 EMPTY) (board 8 8 RED) in
  let r := snapshotOn (board 8 8 BLUE) (boardWith 3 GREEN YELLOW) in
  let result := (resolveConflict (new MERGE false) 0 1 "" (exampleConflict l r) l r).1 in
  success result = true ∧ rollbackRequired result = false ∧
  version (resolvedState result) = 4%Z ∧
  cellAt (playerGrid (resolvedState result)) 0 0 = Some GREEN.
Proof.
  intros l r result.
  destruct (merge_resolution (new MERGE false) 0 1 "" (exampleConflict l r) l r)
    as (Hs & _ & Hb & _ & _ & _ & _ & _ & _ & Hv & _ & _ & _ & _ & _ & Hcell & _).
  - reflexivity.
  - vm_compute. lia.
  - split; [exact Hs|]. split; [exact Hb|].
    split; [apply Hv; vm_compute; reflexivity|].
    etransitivity; [apply (Hcell 0%nat 0%nat)|reflexivity].
    + vm_compute. lia.
    + lia.
Defined.

(** C6.  MERGE on boards of another size than 8 by 8.  On two snapshots of a
    6 by 6 board [generateCompensationMoves] reads row 6 of the local player
    grid and throws; [resolveConflict] catches it: the resolution fails, asks
    for a rollback and returns the local snapshot, nothing merged.  On two
    snapshots of an 8 by 10 board the resolution succeeds and the merged rows
    hold 8 cells: the cells of columns 8 and 9 are in neither merged grid. *)
Theorem merge_on_other_boards :
  (let l := snapshotOn (board 6 6 RED) (board 6 6 BLUE) in
   let r := snapshotOn (board 6 6 BLUE) (board 6 6 RED) in
   let result := (resolveConflict (new MERGE false) 0 1 "" (exampleConflict l r) l r).1 in
   resolveMerge (new MERGE false) (exampleConflict l r) l r = Throws ∧
   success result = false ∧ strategy result = MERGE ∧ rollbackRequired result = true ∧
   resolvedState result = l ∧ compensationMoves result = []) ∧
  (let l := snapshotOn (board 8 10 RED) (board 8 10 BLUE) in
   let r := snapshotOn (board 8 10 BLUE) (board 8 10 RED) in
   let result := (resolveConflict (new MERGE false) 0 1 "" (exampleConflict l r) l r).1 in
   success result = true ∧
   cellAt (playerGrid l) 0 9 = Some RED ∧ cellAt (opponentGrid r) 0 9 = Some RED ∧
   cellAt (playerGrid (resolvedState result)) 0 9 = None ∧
   length <$> playerGrid (resolvedState result) = replicate 8 8%nat).
Proof. split; repeat split; reflexivity. Qed.

Lemma latestTimestamp_tie_witness :
  let l := snapshotOn (board 8 8 RED) (board 8 8 BLUE) in
  let r := snapshotOn (boardWith 7 GREEN RED) (board 8 8 BLUE) in
  let result :=
    (resolveConflict (new LATEST_TIMESTAMP false) 0 1 "" (exampleConflict l r) l r).1 in
  timestamp l = timestamp r ∧
  resolvedState result = l ∧ rollbackRequired result = false ∧ compensationMoves result = [].
Proof.
  intros l r result. split; [reflexivity|].
  destruct (latestTimestamp_tie (new LATEST_TIMESTAMP false) 0 1 ""
              (exampleConflict l r) l r) as (_ & _ & Hr & Hb & Hc).
  - reflexivity.
  - reflexivity.
  - split; [exact Hr|]. split; [exact Hb|exact Hc].
Defined.

End ResolverProperties.

(** ** The reconnection manager *)

Module ReconnectionProperties.
Import ReconnectionManager.

Lemma snapshotKey_not_latest (snapshot : GameStateSnapshot) :
  snapshotKey snapshot ≠ "latest_snapshot_key".
Proof. unfold snapshotKey. simpl. discriminate. Qed.

Lemma saveToLocalStorage_accepted (storage : LocalStorage) (snapshot : GameStateSnapshot) :
  accepts storage (snapshotKey snapshot) (ItemSnapshot snapshot) = true →
  accepts storage "latest_snapshot_key" (ItemText (snapshotKey snapshot)) = true →
  getItem (saveToLocalStorage storage snapshot) (snapshotKey snapshot)
    = Some (ItemSnapshot snapshot) ∧
  getItem (saveToLocalStorage storage snapshot) "latest_snapshot_key"
    = Some (ItemText (snapshotKey snapshot)).
Proof.
  intros H1 H2. unfold saveToLocalStorage, setItem, getItem. rewrite H1. simpl.
  rewrite H2. simpl. split.
  - rewrite lookup_insert_ne by (apply not_eq_sym, snapshotKey_not_latest).
    apply lookup_insert_eq.
  - apply lookup_insert_eq.
Qed.

(** C7 (amended).  A call of [saveSnapshot] less than 5 s after the last
    snapshot that was kept changes nothing: neither the ring nor the durable
    store.  A call at least 5 s after it appends the snapshot to the ring,
    drops the oldest entry when the ring would hold more than 10 (so a ring of
    at most 10 keeps the 10 most recent), records the time, and writes the
    snapshot and the key of the latest snapshot to the durable store, where
    they are found afterwards when the store takes the two writes. *)
Theorem saveSnapshot_interval (this : Manager) (storage : LocalStorage) (now : Z)
    (snapshot : GameStateSnapshot) :
  let saved := saveSnapshot this storage now snapshot in
  let ring := stateSnapshots this ++ [snapshot] in
  ((now - lastSnapshotTime this < 5000)%Z → saved = (this, storage)) ∧
  ((5000 ≤ now - lastSnapshotTime this)%Z →
     lastSnapshotTime saved.1 = now ∧
     last (stateSnapshots saved.1) = Some snapshot ∧
     stateSnapshots saved.1 = (if (10 <? length ring)%nat then drop 1 ring else ring) ∧
     ((length (stateSnapshots this) ≤ 10)%nat →
        stateSnapshots saved.1 = drop (length ring - 10) ring ∧
        (length (stateSnapshots saved.1) ≤ 10)%nat) ∧
     saved.2 = saveToLocalStorage storage snapshot ∧
     (accepts storage (snapshotKey snapshot) (ItemSnapshot snapshot) = true →
      accepts storage "latest_snapshot_key" (ItemText (snapshotKey snapshot)) = true →
      getItem saved.2 (snapshotKey snapshot) = Some (ItemSnapshot snapshot) ∧
      getItem saved.2 "latest_snapshot_key" = Some (ItemText (snapshotKey snapshot)))).
Proof.
  intros saved ring. subst saved. unfold saveSnapshot, snapshotInterval, maxSnapshots.
  fold ring. split.
  - intros H. by destruct (Z.ltb_spec (now - lastSnapshotTime this) 5000); [|lia].
  - intros H. destruct (Z.ltb_spec (now - lastSnapshotTime this) 5000); [lia|]. simpl.
    assert (Hlen : length ring = S (length (stateSnapshots this))).
    { unfold ring. rewrite length_app. simpl. lia. }
    repeat split; try done.
    + destruct (Nat.ltb_spec 10 (length ring)).
      * unfold ring in *. destruct (stateSnapshots this) as [|x old]; simpl in *; [lia|].
        rewrite drop_0. apply last_snoc.
      * unfold ring. apply last_snoc.
    + destruct (Nat.ltb_spec 10 (length ring)).
      * by replace (length ring - 10)%nat with 1%nat by lia.
      * by replace (length ring - 10)%nat with 0%nat by lia.
    + destruct (Nat.ltb_spec 10 (length ring)).
      * rewrite length_drop. lia.
      * lia.
    + by apply saveToLocalStorage_accepted.
    + by apply saveToLocalStorage_accepted.
Qed.

(** C7, counterexample: of two calls one second apart the second does not
    reach the ring. *)
Lemma saveSnapshot_within_interval_drops_ring :
  let first := saveSnapshot new emptyStorage 10000 (snapshotAt 10000) in
  let second := saveSnapshot first.1 first.2 11000 (snapshotAt 11000) in
  stateSnapshots first.1 = [snapshotAt 10000] ∧
  stateSnapshots second.1 = [snapshotAt 10000] ∧
  stateSnapshots second.1 ≠ stateSnapshots first.1 ++ [snapshotAt 11000].
Proof. vm_compute. repeat split; try done. Qed.

Lemma saveSnapshot_interval_witness :
  saveSnapshot new emptyStorage 4000 (snapshotAt 4000) = (new, emptyStorage) ∧
  stateSnapshots (saveSnapshot new emptyStorage 10000 (snapshotAt 10000)).1
    = [snapshotAt 10000] ∧
  getItem (saveSnapshot new emptyStorage 10000 (snapshotAt 10000)).2 "latest_snapshot_key"
    = Some (ItemText "game_snapshot_room_1").
Proof.
  split.
  { apply (saveSnapshot_interval new emptyStorage 4000 (snapshotAt 4000)).
    vm_compute. reflexivity. }
  destruct (saveSnapshot_interval new emptyStorage 10000 (snapshotAt 10000)) as [_ H].
  destruct H as (_ & _ & Hring & _ & _ & Hstore).
  { vm_compute. discriminate. }
  split; [exact Hring|].
  apply Hstore; reflexivity.
Defined.

End ReconnectionProperties.

(** ** The battle server *)

Module ServerProperties.
Import BattleServer.

Lemma mapGet_mapSet_eq {V : Type} (key : string) (value : V) (m : list (string * V)) :
  mapGet key (mapSet key value m) = Some value.
Proof.
  induction m as [|[k v] m IH]; simpl.
  - by rewrite String.eqb_refl.
  - destruct (String.eqb_spec k key) as [->|Hne]; simpl.
    + by rewrite String.eqb_refl.
    + by destruct (String.eqb_spec k key).
Qed.

Lemma mapGet_mapSet_ne {V : Type} (key key' : string) (value : V) (m : list (string * V)) :
  key ≠ key' → mapGet key' (mapSet key value m) = mapGet key' m.
Proof.
  intros Hne. induction m as [|[k v] m IH]; simpl.
  - by destruct (String.eqb_spec key key').
  - destruct (String.eqb_spec k key) as [->|Hk]; simpl.
    + by destruct (String.eqb_spec key key').
    + by rewrite IH.
Qed.

Lemma broadcast_filter (socks : WebSocketRef → WebSocket) (room : BattleRoom)
    (message : Message) (exclude : option string) :
  broadcast socks room message exclude
  = (λ q, (ws q, message))
    <$> filter (λ q, Some (player_id q) ≠ exclude ∧ readyState (socks (ws q)) = OPEN)
          (players room).
Proof.
  unfold broadcast.
  set (f := λ player : Player,
              if bool_decide (Some (player_id player) ≠ exclude)
                 && bool_decide (readyState (socks (ws player)) = OPEN)
              then Some (ws player, message) else None).
  induction (players room) as [|q l IH]; [done|].
  rewrite filter_cons.
  change (omap f (q :: l)) with (match f q with Some y => y :: omap f l | None => omap f l end).
  rewrite IH. unfold f.
  destruct (decide (Some (player_id q) ≠ exclude)) as [H1|H1];
    destruct (decide (readyState (socks (ws q)) = OPEN)) as [H2|H2].
  - rewrite !bool_decide_eq_true_2 by done. simpl. by rewrite decide_True.
  - rewrite bool_decide_eq_true_2, bool_decide_eq_false_2 by done. simpl.
    rewrite decide_False by tauto. done.
  - rewrite bool_decide_eq_false_2 by done. simpl. rewrite decide_False by tauto. done.
  - rewrite bool_decide_eq_false_2 by done. simpl. rewrite decide_False by tauto. done.
Qed.

(** C2 (amended).  The server keeps no turn discipline: a MOVE for an
    existing room, from any sender and whoever is to move, is appended to the
    room's move log and handed to every player of the room with another id
    whose socket is open; nothing else is sent (no ERROR, no reply to the
    sender, no echo), and the room's players, its started flag and its current
    turn stay as they are. *)
Theorem handleMove_relays (w : World) (now : Z) (socket : WebSocketRef)
    (p roomId : string) (moveData : MoveData) (room : BattleRoom) :
  mapGet roomId (rooms w) = Some room →
  let w' := handleMove w now socket p roomId moveData in
  let others :=
    filter (λ q, Some (player_id q) ≠ Some p ∧ readyState (sockets w (ws q)) = OPEN)
      (players room) in
  (∃ room', mapGet roomId (rooms w') = Some room' ∧
     moveHistory room'
     = moveHistory room
       ++ [ {| move_playerId := p; move := moveData; move_timestamp := now |} ] ∧
     players room' = players room ∧
     currentTurn room' = currentTurn room ∧
     gameStarted room' = gameStarted room) ∧
  sent w' = sent w ++ ((λ q, (ws q, relayedMove now p moveData)) <$> others) ∧
  (∀ q, q ∈ players room → player_id q ≠ p → isOpen w (ws q) →
     (ws q, relayedMove now p moveData) ∈ sent w') ∧
  (∀ m, m ∈ drop (length (sent w)) (sent w') →
     type m.2 = MOVE ∧ type m.2 ≠ ERROR
     ∧ ∃ q, q ∈ players room ∧ player_id q ≠ p ∧ ws q = m.1).
Proof.
  intros Hroom w' others. subst w'. unfold handleMove, roomHandleMove. rewrite Hroom.
  simpl. rewrite broadcast_filter. simpl. fold others.
  split; [|split; [|split]].
  - eexists. rewrite mapGet_mapSet_eq. split; [done|]. simpl. done.
  - done.
  - intros q Hq Hp Hopen. apply elem_of_app. right.
    apply list_elem_of_fmap. exists q. split; [done|].
    apply list_elem_of_filter. split; [|done]. split; [congruence|done].
  - intros m. rewrite drop_app_length.
    intros (q & -> & Hq)%list_elem_of_fmap.
    apply list_elem_of_filter in Hq as [[Hne _] Hq]. simpl.
    split; [done|]. split; [done|]. exists q. split; [done|]. split; [congruence|done].
Qed.


Lemma addPlayer_full (socks : WebSocketRef → WebSocket) (now : Z)
    (room : BattleRoom) (p : string) (socket : WebSocketRef) :
  (2 ≤ length (players room))%nat →
  addPlayer socks now room p socket = Returns (false, room, []).
Proof.
  intros H. unfold addPlayer, maxPlayers.
  by destruct (Nat.leb_spec 2 (length (players room))); [|lia].
Qed.


Lemma send_sockets (w : World) (socket : WebSocketRef) (message : Message) :
  sockets (send w socket message) = sockets w.
Proof. unfold send. by destruct (bool_decide _). Qed.

Lemma send_rooms (w : World) (socket : WebSocketRef) (message : Message) :
  rooms (send w socket message) = rooms w.
Proof. unfold send. by destruct (bool_decide _). Qed.

Lemma send_sent (w : World) (socket : WebSocketRef) (message : Message) :
  sent (send w socket message)
  = sent w ++ (if bool_decide (readyState (sockets w socket) = OPEN)
               then [(socket, message)] else []).
Proof. unfold send. destruct (bool_decide _); simpl; [done|by rewrite app_nil_r]. Qed.

(** One turn of the drain, spelled out. *)
Lemma matchPair_returns (w : World) (now : Z) (roomId : string) (t1 t2 : Ticket) :
  ∃ w' room new,
    matchPair w now roomId t1 t2 = Returns w' ∧
    sockets w' = sockets w ∧
    rooms w' = mapSet roomId room (rooms w) ∧
    id room = roomId ∧ players room = [playerOf t1; playerOf t2] ∧
    gameStarted room = true ∧ currentTurn room = Some (ticket_playerId t1) ∧
    sent w' = sent w ++ new ∧
    (readyState (sockets w (ticket_ws t1)) = OPEN →
       (ticket_ws t1, matchedMessage now roomId (ticket_playerId t2)) ∈ new) ∧
    (readyState (sockets w (ticket_ws t2)) = OPEN →
       (ticket_ws t2, matchedMessage now roomId (ticket_playerId t1)) ∈ new).
Proof.
  unfold matchPair, addPlayer. simpl.
  set (out := broadcast _ _ _ _).
  set (m1 := matchedMessage now roomId (ticket_playerId t2)).
  set (m2 := matchedMessage now roomId (ticket_playerId t1)).
  eexists _, _,
    (out ++ (if bool_decide (readyState (sockets w (ticket_ws t1)) = OPEN)
             then [(ticket_ws t1, m1)] else [])
         ++ (if bool_decide (readyState (sockets w (ticket_ws t2)) = OPEN)
             then [(ticket_ws t2, m2)] else [])).
  split; [done|].
  rewrite !send_sockets, !send_rooms, !send_sent, !send_sockets. simpl.
  split_and!; try done.
  - by rewrite <- !(assoc_L (++)).
  - intros H. rewrite (bool_decide_eq_true_2 _ H).
    rewrite !elem_of_app, list_elem_of_singleton. auto.
  - intros H. rewrite (bool_decide_eq_true_2 _ H).
    rewrite !elem_of_app, list_elem_of_singleton. auto.
Qed.

Lemma drain_spec (now : Z) (roomIds : nat → string) (n : nat) :
  ∀ queue w turn,
    (length queue ≤ n)%nat →
    ∃ w' paired new,
      drain w now roomIds turn queue = Returns w' ∧
      sockets w' = sockets w ∧
      queue = paired ++ matchmakingQueue w' ∧
      (length (matchmakingQueue w') < 2)%nat ∧
      sent w' = sent w ++ new ∧
      (∀ key, (∀ j, (2 * j + 1 < length queue)%nat → roomIds (turn + j)%nat ≠ key) →
              mapGet key (rooms w') = mapGet key (rooms w)) ∧
      (∀ k t1 t2,
         queue !! (2 * k)%nat = Some t1 → queue !! (2 * k + 1)%nat = Some t2 →
         (readyState (sockets w (ticket_ws t1)) = OPEN →
            (ticket_ws t1,
             matchedMessage now (roomIds (turn + k)%nat) (ticket_playerId t2)) ∈ new) ∧
         (readyState (sockets w (ticket_ws t2)) = OPEN →
            (ticket_ws t2,
             matchedMessage now (roomIds (turn + k)%nat) (ticket_playerId t1)) ∈ new) ∧
         ((∀ j, (k < j)%nat → (2 * j + 1 < length queue)%nat →
                roomIds (turn + j)%nat ≠ roomIds (turn + k)%nat) →
          ∃ room, mapGet (roomIds (turn + k)%nat) (rooms w') = Some room ∧
                  id room = roomIds (turn + k)%nat ∧
                  players room = [playerOf t1; playerOf t2] ∧
                  gameStarted room = true)).
Proof.
  induction n as [|n IH]; intros queue w turn Hlen.
  { destruct queue; [|simpl in Hlen; lia]. simpl.
    exists (withQueue [] w), [], []. simpl. rewrite app_nil_r.
    repeat split; try done; try lia. }
  destruct queue as [|t1 [|t2 rest]].
  - simpl. exists (withQueue [] w), [], []. simpl. rewrite app_nil_r.
    repeat split; try done; try lia.
  - simpl. exists (withQueue [t1] w), [], []. simpl. rewrite app_nil_r.
    repeat split; try done; try lia.
    all: destruct k; simpl in *; done.
  - change (drain w now roomIds turn (t1 :: t2 :: rest))
      with (w1 ← matchPair w now (roomIds turn) t1 t2; drain w1 now roomIds (S turn) rest).
    destruct (matchPair_returns w now (roomIds turn) t1 t2)
      as (w1 & room & new1 & -> & Hsock1 & Hrooms1 & Hid & Hplayers & Hstarted & _
          & Hsent1 & Hm1 & Hm2).
    cbn [mbind outcome_bind].
    destruct (IH rest w1 (S turn)) as
      (w' & paired & new & -> & Hsock & Hqueue & Hshort & Hsent & Hframe & Hpairs).
    { simpl in Hlen. lia. }
    exists w', (t1 :: t2 :: paired), (new1 ++ new).
    split; [done|]. split; [congruence|]. split; [by rewrite Hqueue at 1|].
    split; [done|]. split; [by rewrite Hsent, Hsent1, (assoc_L (++))|].
    split.
    { intros key Hkey. rewrite Hframe.
      - rewrite Hrooms1. apply mapGet_mapSet_ne.
        specialize (Hkey 0%nat). rewrite Nat.add_0_r in Hkey. apply Hkey. simpl. lia.
      - intros j Hj. specialize (Hkey (S j)).
        replace (turn + S j)%nat with (S turn + j)%nat in Hkey by lia.
        apply Hkey. simpl. lia. }
    intros k u1 u2 Hu1 Hu2. destruct k as [|k].
    + simpl in Hu1, Hu2. injection Hu1 as <-. injection Hu2 as <-.
      rewrite Nat.add_0_r.
      split; [|split].
      * intros H. apply elem_of_app. left. auto.
      * intros H. apply elem_of_app. left. auto.
      * intros Hfresh. exists room. rewrite Hframe.
        -- rewrite Hrooms1, mapGet_mapSet_eq. done.
        -- intros j Hj. specialize (Hfresh (S j)).
           replace (turn + S j)%nat with (S turn + j)%nat in Hfresh by lia.
           apply Hfresh; simpl; lia.
    + replace (2 * S k)%nat with (S (S (2 * k))) in Hu1 by lia.
      replace (2 * S k + 1)%nat with (S (S (2 * k + 1))) in Hu2 by lia.
      simpl in Hu1, Hu2.
      destruct (Hpairs k u1 u2 Hu1 Hu2) as (Ha & Hb & Hc).
      replace (turn + S k)%nat with (S turn + k)%nat by lia.
      rewrite Hsock1 in Ha, Hb.
      split; [|split].
      * intros H. apply elem_of_app. right. auto.
      * intros H. apply elem_of_app. right. auto.
      * intros Hfresh. apply Hc. intros j Hkj Hj.
        specialize (Hfresh (S j)).
        replace (turn + S j)%nat with (S turn + j)%nat in Hfresh by lia.
        apply Hfresh; simpl; lia.
Qed.

Lemma removeFirst_keeps_others {A : Type} (test : A → bool) (l : list A) :
  filter (λ x, test x = false) (removeFirst test l) = filter (λ x, test x = false) l.
Proof.
  induction l as [|x l IH]; [done|]. simpl.
  destruct (test x) eqn:Hx.
  - rewrite filter_cons. by rewrite decide_False by congruence.
  - rewrite !filter_cons. rewrite !decide_True by done. by rewrite IH.
Qed.

Lemma removeFirst_only_one {A : Type} (test : A → bool) (l : list A) :
  (length (filter (λ x, test x = true) l) ≤ 1)%nat →
  ∀ x, x ∈ removeFirst test l → test x = false.
Proof.
  induction l as [|y l IH]; simpl; intros Hcount x Hx.
  - by apply elem_of_nil in Hx.
  - rewrite filter_cons in Hcount. destruct (test y) eqn:Hy.
    + rewrite decide_True in Hcount by done. simpl in Hcount.
      assert (Hnone : filter (λ x, test x = true) l = []).
      { apply length_zero_iff_nil. lia. }
      destruct (test x) eqn:Htx; [|done].
      assert (x ∈ filter (λ x, test x = true) l) by by apply list_elem_of_filter.
      rewrite Hnone in H. by apply elem_of_nil in H.
    + rewrite decide_False in Hcount by congruence.
      apply elem_of_cons in Hx as [->|Hx]; [done|]. by apply IH.
Qed.

(** The matchmaker's drain and the queue at a disconnect.  A drain of the
    queue pairs the tickets in FIFO order, two by two, and leaves fewer than
    2: the tickets at positions 2k and 2k+1 form pair k, each of the two whose
    socket is open is sent GAME_START with the new room id and the other's id
    as opponent, and the room of that id holds both as players (no later pair
    of the drain being given the same id).  When the socket of a peer that
    registered with CONNECT closes, the first ticket with its id leaves the
    queue and the tickets of other ids stay in order; a peer with one ticket
    is then in the queue no more. *)
Theorem matchmaking_drain :
  (∀ w now roomIds,
     ∃ w' paired,
       processMatchmakingQueue w now roomIds = Returns w' ∧
       matchmakingQueue w = paired ++ matchmakingQueue w' ∧
       (length (matchmakingQueue w') < 2)%nat ∧
       (∀ k t1 t2,
          matchmakingQueue w !! (2 * k)%nat = Some t1 →
          matchmakingQueue w !! (2 * k + 1)%nat = Some t2 →
          (isOpen w (ticket_ws t1) →
             (ticket_ws t1, matchedMessage now (roomIds k) (ticket_playerId t2)) ∈ sent w') ∧
          (isOpen w (ticket_ws t2) →
             (ticket_ws t2, matchedMessage now (roomIds k) (ticket_playerId t1)) ∈ sent w') ∧
          ((∀ j, (k < j)%nat → (2 * j + 1 < length (matchmakingQueue w))%nat →
                 roomIds j ≠ roomIds k) →
           ∃ room, mapGet (roomIds k) (rooms w') = Some room ∧
                   id room = roomIds k ∧
                   players room = [playerOf t1; playerOf t2] ∧
                   gameStarted room = true))) ∧
  (∀ w now socket p,
     ws_playerId (sockets w socket) = Some p → p ≠ "" →
     let w' := onClose w now socket in
     matchmakingQueue w' = removeFirst (ticketOf p) (matchmakingQueue w) ∧
     filter (λ t, ticketOf p t = false) (matchmakingQueue w')
     = filter (λ t, ticketOf p t = false) (matchmakingQueue w) ∧
     ((length (filter (λ t, ticketOf p t = true) (matchmakingQueue w)) ≤ 1)%nat →
      ∀ t, t ∈ matchmakingQueue w' → ticket_playerId t ≠ p)).
Proof.
  split.
  - intros w now roomIds. unfold processMatchmakingQueue.
    destruct (drain_spec now roomIds (length (matchmakingQueue w)) (matchmakingQueue w) w 0%nat)
      as (w' & paired & new & Hd & Hsock & Hqueue & Hshort & Hsent & _ & Hpairs); [done|].
    exists w', paired. repeat (split; [done|]).
    intros k t1 t2 H1 H2. destruct (Hpairs k t1 t2 H1 H2) as (Ha & Hb & Hc).
    simpl in *. unfold isOpen. rewrite Hsent. split; [|split].
    + intros H. apply elem_of_app. right. auto.
    + intros H. apply elem_of_app. right. auto.
    + done.
  - intros w now socket p Hp Hne w'. subst w'. unfold onClose, handleDisconnect. simpl.
    rewrite bool_decide_eq_true_2 by done. simpl. rewrite Hp.
    destruct (String.eqb_spec p "") as [->|_]; [done|]. simpl.
    split; [done|]. split; [apply removeFirst_keeps_others|].
    intros Hcount t Ht Heq.
    pose proof (removeFirst_only_one (ticketOf p) _ Hcount t Ht) as Hfalse.
    unfold ticketOf in Hfalse. by apply bool_decide_eq_false in Hfalse.
Qed.

Lemma handleMove_relays_witness :
  (∃ room', mapGet "R" (rooms (handleMove exampleWorld 50 1 "A" "R" exampleMove)) = Some room'
     ∧ moveHistory room'
       = [ {| move_playerId := "A"; move := exampleMove; move_timestamp := 50 |} ]
     ∧ currentTurn room' = Some "A") ∧
  (2, relayedMove 50 "A" exampleMove) ∈ sent (handleMove exampleWorld 50 1 "A" "R" exampleMove).
Proof.
  destruct (handleMove_relays exampleWorld 50 1 "A" "R" exampleMove exampleRoom eq_refl)
    as ((room' & Hget & Hlog & _ & Hturn & _) & _ & Hfan & _).
  split.
  - exists room'. split; [exact Hget|]. split; [exact Hlog|exact Hturn].
  - apply (Hfan {| player_id := "B"; ws := 2 |}).
    + apply list_elem_of_In. right. left. reflexivity.
    + discriminate.
    + reflexivity.
Defined.

(** C2, counterexample: it is A's turn, B sends a MOVE; the move reaches A
    and B is sent nothing.  After a move of A the turn is still A's. *)
Lemma out_of_turn_move_is_relayed :
  currentTurn exampleRoom = Some "A" ∧
  received (handleMove exampleWorld 50 2 "B" "R" exampleMove) 1
    = [relayedMove 50 "B" exampleMove] ∧
  received (handleMove exampleWorld 50 2 "B" "R" exampleMove) 2 = [] ∧
  currentTurn <$> mapGet "R" (rooms (handleMove exampleWorld 50 1 "A" "R" exampleMove))
    = Some (Some "A").
Proof. repeat split; reflexivity. Qed.


Lemma matchmaking_drain_witness :
  (∃ w', processMatchmakingQueue queued 40 exampleRoomIds = Returns w' ∧
         matchmakingQueue w' = [] ∧
         (8, matchedMessage 40 "room_0" "A") ∈ sent w' ∧
         (1, matchedMessage 40 "room_0" "Y") ∈ sent w') ∧
  matchmakingQueue (onClose queued 20 8)
  = [ {| ticket_playerId := "A"; ticket_ws := 1; ticket_timestamp := 11 |} ].
Proof.
  destruct matchmaking_drain as (Hdrain & Hclose).
  split.
  - destruct (Hdrain queued 40%Z exampleRoomIds) as (w' & paired & Hret & Hq & Hshort & Hpairs).
    destruct (Hpairs 0%nat
                {| ticket_playerId := "Y"; ticket_ws := 8; ticket_timestamp := 10 |}
                {| ticket_playerId := "A"; ticket_ws := 1; ticket_timestamp := 11 |}
                eq_refl eq_refl) as (Ha & Hb & _).
    exists w'. split; [exact Hret|]. split.
    + vm_compute in Hret. injection Hret as <-. reflexivity.
    + split; [apply Ha|apply Hb]; reflexivity.
  - destruct (Hclose queued 20%Z 8%nat "Y") as (Hq & _).
    + reflexivity.
    + discriminate.
    + rewrite Hq. reflexivity.
Defined.

(** C9.  Peers that disconnected and are still queued when the drain runs.
    Y, registered with CONNECT, asks for a match twice and its socket closes:
    [handleDisconnect] takes the first ticket out and the second stays; A
    then asks for a match, and the drain pairs A with Y, who is gone.  A
    socket that never sent CONNECT asks for a match and closes:
    [handleDisconnect] returns before it reaches the queue, the ticket stays,
    and the next drain pairs it with Y. *)
Theorem disconnected_peer_stays_queued :
  (let w := onClose (requestMatch (requestMatch exampleWorld 10 8 "Y") 11 8 "Y") 20 8 in
   ws_playerId (exampleSockets 8) = Some "Y" ∧
   readyState (sockets w 8) = CLOSED ∧
   matchmakingQueue w
   = [ {| ticket_playerId := "Y"; ticket_ws := 8; ticket_timestamp := 11 |} ] ∧
   ∃ w', processMatchmakingQueue (requestMatch w 30 1 "A") 40 exampleRoomIds = Returns w' ∧
         matchmakingQueue w' = [] ∧
         received w' 1 = [ gameStartMessage 40 "room_0" ["Y"; "A"] "Y";
                           matchedMessage 40 "room_0" "Y" ] ∧
         received w' 8 = []) ∧
  (let w := onClose (requestMatch exampleWorld 10 7 "ghost") 20 7 in
   ws_playerId (exampleSockets 7) = None ∧
   readyState (sockets w 7) = CLOSED ∧
   matchmakingQueue w
   = [ {| ticket_playerId := "ghost"; ticket_ws := 7; ticket_timestamp := 10 |} ] ∧
   ∃ w', processMatchmakingQueue (requestMatch w 30 8 "Y") 40 exampleRoomIds = Returns w' ∧
         received w' 8 = [ gameStartMessage 40 "room_0" ["ghost"; "Y"] "ghost";
                           matchedMessage 40 "room_0" "ghost" ] ∧
         received w' 7 = []).
Proof.
  split.
  - repeat (split; [reflexivity|]).
    eexists. split; [vm_compute; reflexivity|]. repeat split; reflexivity.
  - repeat (split; [reflexivity|]).
    eexists. split; [vm_compute; reflexivity|]. repeat split; reflexivity.
Qed.

End ServerProperties.

(** ** Deltas and runs of the state synchronizer *)

Module SynchronizerRuns.
Import StateSynchronizer SynchronizerProperties.

Lemma digit_char (d : N) :
  (d < 10)%N →
  isDigit (pretty_N_char d) = true ∧
  N.of_nat (Ascii.nat_of_ascii (pretty_N_char d) - 48) = d.
Proof.
  intros H.
  assert (d = 0 ∨ d = 1 ∨ d = 2 ∨ d = 3 ∨ d = 4 ∨ d = 5 ∨ d = 6 ∨ d = 7 ∨ d = 8 ∨ d = 9)%N
    as Hd by lia.
  repeat destruct Hd as [->|Hd]; try subst d; by compute.
Qed.

Lemma pretty_N_go_app (x : N) : ∀ s t, pretty_N_go x s +:+ t = pretty_N_go x (s +:+ t).
Proof.
  induction (N.lt_wf_0 x) as [x _ IH]; intros s t.
  destruct (decide (x = 0)%N) as [->|Hx]; [by rewrite !pretty_N_go_0|].
  rewrite (pretty_N_go_step x s), (pretty_N_go_step x (s +:+ t)) by lia.
  rewrite IH by (apply N.div_lt; lia). reflexivity.
Qed.

Lemma digits_pretty_N_go (x : N) :
  ∀ acc, ∃ v, (∀ s seen, (0 < x)%N → digits (pretty_N_go x s) acc seen = digits s v true)
              ∧ (acc = 0%N → v = x).
Proof.
  induction (N.lt_wf_0 x) as [x _ IH]; intros acc.
  destruct (decide (x = 0)%N) as [->|Hx].
  { exists acc. split; [lia|done]. }
  destruct (digit_char (x `mod` 10)) as [Hd Hv]; [by apply N.mod_lt|].
  destruct (decide (x `div` 10 = 0)%N) as [Hq|Hq].
  - exists (10 * acc + x `mod` 10)%N. split.
    + intros s seen _. rewrite pretty_N_go_step by lia. rewrite Hq, pretty_N_go_0.
      simpl. by rewrite Hd, Hv.
    + intros ->. pose proof (N.div_mod x 10 ltac:(done)) as Hdm. rewrite Hq in Hdm. lia.
  - destruct (IH (x `div` 10)%N) with (acc := acc) as (v & Hgo & Hval).
    { apply N.div_lt; lia. }
    exists (10 * v + x `mod` 10)%N. split.
    + intros s seen _. rewrite pretty_N_go_step by lia.
      rewrite Hgo by (by apply N.neq_0_lt_0). simpl. by rewrite Hd, Hv.
    + intros Hacc. rewrite (Hval Hacc). symmetry. by apply N.div_mod.
Qed.

Lemma digits_stop (v : N) (s : string) :
  match s with String a _ => isDigit a = false | EmptyString => True end →
  digits s v true = Some (v, s).
Proof. destruct s as [|a t]; simpl; [done|]. by intros ->. Qed.

Lemma digits_pretty (n : nat) (s : string) :
  match s with String a _ => isDigit a = false | EmptyString => True end →
  digits (pretty n +:+ s) 0%N false = Some (N.of_nat n, s).
Proof.
  intros Hs. unfold pretty, pretty_nat, pretty, pretty_N.
  destruct (decide (N.of_nat n = 0%N)) as [H0|H0].
  - rewrite H0. simpl. by apply digits_stop.
  - rewrite pretty_N_go_app. simpl.
    destruct (digits_pretty_N_go (N.of_nat n) 0%N) as (v & Hgo & Hval).
    rewrite Hgo by lia. rewrite (Hval eq_refl). by apply digits_stop.
Qed.

Lemma stripPrefix_app (p s : string) : stripPrefix p (p +:+ s) = Some s.
Proof. induction p as [|a p IH]; simpl; [done|]. by rewrite Ascii.eqb_refl. Qed.

Lemma gridPrefix_gridPath (g : GridName) (s : string) :
  gridPrefix (gridPath g +:+ s) = Some (g, s).
Proof.
  unfold gridPrefix. destruct g.
  - by rewrite (stripPrefix_app "playerGrid").
  - change (stripPrefix "playerGrid" (gridPath OpponentGrid +:+ s)) with (@None string).
    by rewrite (stripPrefix_app "opponentGrid").
Qed.

Lemma matchCellPath_cellPath (g : GridName) (r c : nat) :
  matchCellPath (cellPath (gridPath g) r c) = Some (g, r, c).
Proof.
  unfold matchCellPath, cellPath.
  rewrite gridPrefix_gridPath. cbn [mbind option_bind].
  rewrite (stripPrefix_app "["). cbn [mbind option_bind].
  rewrite digits_pretty by done. cbn [mbind option_bind].
  rewrite (stripPrefix_app "]["). cbn [mbind option_bind].
  rewrite digits_pretty by done. cbn [mbind option_bind].
  simpl. by rewrite !Nat2N.id.
Qed.

(** The path that [compareGrids] writes for a cell is read back by
    [applyGridChange] as the same grid, row and column, so the paths of two
    different cells are different. *)
Theorem cell_path_round_trip (g g' : GridName) (r c r' c' : nat) :
  matchCellPath (cellPath (gridPath g) r c) = Some (g, r, c) ∧
  (cellPath (gridPath g) r c = cellPath (gridPath g') r' c' → (g, r, c) = (g', r', c')).
Proof.
  split; [apply matchCellPath_cellPath|].
  intros Heq. apply (f_equal matchCellPath) in Heq.
  rewrite !matchCellPath_cellPath in Heq. congruence.
Qed.

Lemma performAll_app (l1 l2 : list Assignment) (s : StateSnapshot) :
  performAll (l1 ++ l2) s = performAll l2 (performAll l1 s).
Proof. revert s; induction l1 as [|a l1 IH]; intros s; simpl; [done|]. apply IH. Qed.

Lemma forallb_changeFits_dimensions (s s' : StateSnapshot) (l : list StateChange) :
  dimensions s = dimensions s' → forallb (changeFits s) l = forallb (changeFits s') l.
Proof.
  intros H. induction l as [|x l IH]; simpl; [done|].
  by rewrite IH, (changeFits_dimensions s s').
Qed.

(** The changes one row of [compareGrids] adds turn the old row into the new
    one. *)
Lemma compareCells_script (g : GridName) (r : nat) (cells : list CandyType) :
  ∀ oldCells c changes,
    (c + length oldCells = length cells)%nat →
    ∃ extra,
      compareCells oldCells (Some cells) (gridPath g) r c changes = Returns (changes ++ extra) ∧
      ∀ s, getGrid g s !! r = Some (take c cells ++ oldCells) →
           forallb (changeFits s) extra = true ∧
           performAll (assignmentOf <$> extra) s
           = setGrid g (<[r := cells]> (getGrid g s)) s.
Proof.
  induction oldCells as [|old rest IH]; intros c changes Hlen; simpl in *.
  - exists []. split; [by rewrite app_nil_r|]. intros s Hrow. split; [done|]. simpl.
    rewrite app_nil_r, take_ge in Hrow by lia.
    by rewrite list_insert_id, setGrid_getGrid.
  - assert (Hc : (c < length cells)%nat) by lia.
    destruct (lookup_lt_is_Some_2 cells c Hc) as [v Hv].
    destruct (IH (S c)) with (changes := changes) as (extra0 & Hret0 & Hs0); [lia|].
    rewrite Hv. case_bool_decide as Heq.
    + exists extra0. split; [done|]. intros s Hrow. apply Hs0.
      rewrite Hrow. f_equal. rewrite (take_S_r _ _ _ Hv). simplify_eq.
      by rewrite <- app_assoc.
    + set (change := {| type := GRID_UPDATE; path := cellPath (gridPath g) r c;
                        value := jsCell (Some v); oldValue := VCandy old |}).
      destruct (IH (S c)) with (changes := changes ++ [change])
        as (extra & Hret & Hs); [lia|].
      exists (change :: extra). split.
      { rewrite Hret. by rewrite <- app_assoc. }
      intros s Hrow.
      assert (Hfit : changeFits s change = true).
      { unfold changeFits. simpl. rewrite matchCellPath_cellPath.
        unfold cellExists. rewrite Hrow. simpl.
        rewrite andb_true_r. apply Nat.ltb_lt.
        rewrite length_app, length_take. simpl. lia. }
      assert (Ha : assignmentOf change = SetCell g r c v).
      { unfold assignmentOf. simpl. by rewrite matchCellPath_cellPath. }
      set (s1 := perform (SetCell g r c v) s).
      assert (Hrow1 : getGrid g s1 !! r = Some (take (S c) cells ++ rest)).
      { unfold s1. simpl. rewrite getGrid_setGrid.
        rewrite list_lookup_alter_eq, Hrow. simpl. f_equal.
        rewrite (take_S_r _ _ _ Hv), <- app_assoc. simpl.
        rewrite insert_app_r_alt by (rewrite length_take; lia).
        rewrite length_take. replace (c - c `min` length cells)%nat with 0%nat by lia.
        done. }
      destruct (Hs s1 Hrow1) as [Hfits Hperf].
      split.
      { simpl. rewrite Hfit. simpl.
        rewrite <- Hfits. apply forallb_changeFits_dimensions.
        symmetry. apply perform_dimensions. }
      change (performAll (assignmentOf <$> change :: extra) s)
        with (performAll (assignmentOf <$> extra) (perform (assignmentOf change) s)).
      rewrite Ha. change (perform (SetCell g r c v) s) with s1.
      rewrite Hperf. unfold s1. simpl.
      rewrite getGrid_setGrid, setGrid_setGrid. f_equal.
      rewrite (alter_lookup_insert _ _ _ _ Hrow).
      apply list_insert_insert_eq.
Qed.

Lemma compareRows_script (g : GridName) (newGrid : Grid) :
  ∀ oldRows r changes,
    length <$> oldRows = length <$> drop r newGrid →
    ∃ extra,
      compareRows oldRows newGrid (gridPath g) r changes = Returns (changes ++ extra) ∧
      ∀ s, getGrid g s = take r newGrid ++ oldRows →
           forallb (changeFits s) extra = true ∧
           performAll (assignmentOf <$> extra) s = setGrid g newGrid s.
Proof.
  induction oldRows as [|oldCells rest IH]; intros r changes Hlen.
  - exists []. split; [by rewrite app_nil_r|]. intros s Hg. split; [done|]. simpl.
    symmetry in Hlen. apply fmap_nil_inv in Hlen.
    assert (length newGrid ≤ r)%nat.
    { pose proof (length_drop newGrid r) as Hd. rewrite Hlen in Hd. simpl in Hd. lia. }
    rewrite app_nil_r, take_ge in Hg by done.
    by rewrite <- Hg, setGrid_getGrid.
  - destruct (drop r newGrid) as [|cells tl] eqn:Hdrop; [done|].
    simpl in Hlen. injection Hlen as Hcells Hrest.
    assert (Hrow : newGrid !! r = Some cells).
    { pose proof (lookup_drop newGrid r 0) as H. rewrite Hdrop in H. simpl in H.
      by rewrite Nat.add_0_r in H. }
    assert (Htl : drop (S r) newGrid = tl).
    { replace (S r) with (r + 1)%nat by lia. by rewrite <- (drop_drop newGrid 1 r), Hdrop. }
    destruct (compareCells_script g r cells oldCells 0 changes) as (extra1 & Hret1 & Hs1).
    { simpl. lia. }
    destruct (IH (S r) (changes ++ extra1)) as (extra2 & Hret2 & Hs2).
    { by rewrite Htl. }
    exists (extra1 ++ extra2). split.
    { simpl. rewrite Hrow, Hret1. simpl. by rewrite Hret2, app_assoc. }
    intros s Hg.
    assert (Hr : (r < length newGrid)%nat) by by apply lookup_lt_Some in Hrow.
    destruct (Hs1 s) as [Hfit1 Hperf1].
    { rewrite Hg. simpl. rewrite lookup_app_r by (rewrite length_take; lia).
      rewrite length_take. by replace (r - r `min` length newGrid)%nat with 0%nat by lia. }
    set (s1 := setGrid g (<[r := cells]> (getGrid g s)) s) in *.
    destruct (Hs2 s1) as [Hfit2 Hperf2].
    { unfold s1. rewrite getGrid_setGrid, Hg.
      rewrite insert_app_r_alt by (rewrite length_take; lia).
      rewrite length_take. replace (r - r `min` length newGrid)%nat with 0%nat by lia.
      simpl. rewrite (take_S_r _ _ _ Hrow). by rewrite <- app_assoc. }
    split.
    + rewrite forallb_app, Hfit1. simpl. rewrite <- Hfit2.
      apply forallb_changeFits_dimensions. rewrite <- Hperf1.
      symmetry. apply performAll_dimensions.
    + rewrite fmap_app, performAll_app, Hperf1, Hperf2. unfold s1.
      apply setGrid_setGrid.
Qed.

Lemma pushUnlessEqual_app {A : Type} `{EqDecision A} (old new : A)
    (change : StateChange) (changes : list StateChange) :
  pushUnlessEqual old new change changes
  = changes ++ (if bool_decide (old = new) then [] else [change]).
Proof. unfold pushUnlessEqual. case_bool_decide; [by rewrite app_nil_r|done]. Qed.

(** The changes of a generated delta, as a script: run on the previous
    snapshot they give the current one. *)
Lemma generateDelta_script (this : Synchronizer) (now : Z) (current previous : StateSnapshot) :
  currentSnapshot this = Some current →
  previousSnapshot this = Some previous →
  dimensions previous = dimensions current →
  ∃ cs,
    generateDelta this now
    = Returns (if (length cs =? 0)%nat then None
               else Some {| deltaVersion := version current;
                            baseVersion := version previous;
                            changes := cs; deltaTimestamp := now |}) ∧
    forallb (changeFits previous) cs = true ∧
    ∀ v t, performAll (assignmentOf <$> cs) (setVersionTimestamp v t previous)
           = setVersionTimestamp v t current.
Proof.
  intros Hc Hp [= HdimP HdimO].
  destruct (compareRows_script PlayerGrid (playerGrid current) (playerGrid previous) 0 [])
    as (extraP & HretP & HsP); [by rewrite drop_0|].
  destruct (compareRows_script OpponentGrid (opponentGrid current)
              (opponentGrid previous) 0 extraP)
    as (extraO & HretO & HsO); [by rewrite drop_0|].
  rewrite app_nil_l in HretP.
  unfold generateDelta, compareGrids. rewrite Hc, Hp.
  change "playerGrid" with (gridPath PlayerGrid).
  change "opponentGrid" with (gridPath OpponentGrid).
  rewrite HretP. cbn [mbind outcome_bind]. rewrite HretO. cbn [mbind outcome_bind].
  rewrite !pushUnlessEqual_app.
  match goal with |- context [(length ?l =? 0)%nat] => exists l end.
  split; [by destruct (length _ =? 0)%nat|].
  destruct (HsP previous eq_refl) as [HfitP _].
  split.
  - rewrite !forallb_app, HfitP. simpl.
    destruct (HsO previous eq_refl) as [-> _]. simpl.
    by repeat case_bool_decide.
  - intros v t.
    set (start := setVersionTimestamp v t previous).
    destruct (HsP start eq_refl) as [_ HperfP].
    set (s1 := setGrid PlayerGrid (playerGrid current) start) in *.
    destruct (HsO s1 eq_refl) as [_ HperfO].
    rewrite <- !app_assoc, !fmap_app, !performAll_app.
    rewrite HperfP, HperfO. unfold s1, start.
    destruct previous, current; simpl in *.
    repeat case_bool_decide; simplify_eq; reflexivity.
Qed.

(** [generateDelta] and [applyDelta] are inverse to each other.  For a
    synchronizer that holds two snapshots of equal dimensions: when
    [generateDelta] returns a delta, its [baseVersion] and [version] are the
    versions of the previous and the current snapshot, its [timestamp] is the
    clock, every change of it fits the previous snapshot, and [applyDelta] of
    the previous snapshot and the delta returns the current snapshot with the
    delta's timestamp.  When it returns [null], the two snapshots differ in
    version and timestamp only.  It never throws on such snapshots. *)
Theorem delta_round_trip (this : Synchronizer) (now : Z) (current previous : StateSnapshot) :
  currentSnapshot this = Some current →
  previousSnapshot this = Some previous →
  dimensions previous = dimensions current →
  match generateDelta this now with
  | Returns (Some delta) =>
      baseVersion delta = version previous ∧
      deltaVersion delta = version current ∧
      deltaTimestamp delta = now ∧
      deltaFits previous delta = true ∧
      applyDelta previous delta = Returns (setVersionTimestamp (version current) now current)
  | Returns None =>
      setVersionTimestamp (version previous) (timestamp previous) current = previous
  | _ => False
  end.
Proof.
  intros Hc Hp Hdim.
  destruct (generateDelta_script this now current previous Hc Hp Hdim)
    as (cs & -> & Hfit & Hperf).
  destruct (length cs =? 0)%nat eqn:Hlen.
  - apply Nat.eqb_eq, length_zero_iff_nil in Hlen. subst cs.
    specialize (Hperf (version previous) (timestamp previous)). simpl in Hperf.
    rewrite <- Hperf. by destruct previous.
  - repeat split; try done.
    unfold applyDelta, deepClone. simpl.
    rewrite (applyChanges_fits previous) by done.
    by rewrite Hperf.
Qed.

Lemma applyChanges_app (l1 l2 : list StateChange) :
  ∀ s, applyChanges s (l1 ++ l2) = (s' ← applyChanges s l1; applyChanges s' l2).
Proof.
  induction l1 as [|c l1 IH]; intros s; simpl; [done|].
  destruct (applyChange s c); simpl; [apply IH|done|done].
Qed.

(** [applyDelta] throws when, after changes that fit the snapshot, a
    GRID_UPDATE names a row that the grid of the snapshot does not have. *)
Theorem applyDelta_missing_row_throws (snapshot : StateSnapshot) (delta : StateDelta)
    (before after : list StateChange) (change : StateChange)
    (g : GridName) (r c : nat) :
  changes delta = before ++ change :: after →
  forallb (changeFits snapshot) before = true →
  type change = GRID_UPDATE →
  matchCellPath (path change) = Some (g, r, c) →
  (length (getGrid g snapshot) ≤ r)%nat →
  applyDelta snapshot delta = Throws.
Proof.
  intros Hcs Hfit Ht Hpath Hr. unfold applyDelta, deepClone.
  rewrite Hcs, applyChanges_app.
  set (start := setVersionTimestamp (deltaVersion delta) (deltaTimestamp delta) snapshot).
  rewrite (applyChanges_fits snapshot) by done. simpl.
  unfold applyChange. rewrite Ht. unfold applyGridChange. rewrite Hpath.
  set (s := performAll (assignmentOf <$> before) start).
  assert (Hdim : dimensions s = dimensions snapshot).
  { unfold s. by rewrite performAll_dimensions. }
  assert (Hlen : length (getGrid g s) = length (getGrid g snapshot)).
  { unfold dimensions in Hdim. injection Hdim as Hp Ho.
    destruct g; simpl; [apply (f_equal length) in Hp|apply (f_equal length) in Ho];
      by rewrite !length_fmap in *. }
  rewrite lookup_ge_None_2 by lia. done.
Qed.

Lemma generateDelta_versions (this : Synchronizer) (now : Z) (delta : StateDelta) :
  generateDelta this now = Returns (Some delta) →
  ∃ current previous,
    currentSnapshot this = Some current ∧ previousSnapshot this = Some previous ∧
    deltaVersion delta = version current ∧ baseVersion delta = version previous ∧
    deltaTimestamp delta = now ∧ changes delta ≠ [].
Proof.
  unfold generateDelta.
  destruct (currentSnapshot this) as [current|]; [|done].
  destruct (previousSnapshot this) as [previous|]; [|done].
  destruct (compareGrids _ _ "playerGrid" []) as [cs1| |]; [|done|done].
  cbn [mbind outcome_bind].
  destruct (compareGrids _ _ "opponentGrid" cs1) as [cs2| |]; [|done|done].
  cbn [mbind outcome_bind].
  match goal with |- context [(length ?l =? 0)%nat] => set (cs := l) end.
  destruct (length cs =? 0)%nat eqn:Hlen; [done|].
  intros [= <-]. exists current, previous. repeat split; try done. simpl.
  intros Hnil. rewrite Hnil in Hlen. done.
Qed.

Lemma generateDelta_stats (this : Synchronizer) (st : SyncStats) (now : Z) :
  generateDelta (withStats st this) now = generateDelta this now.
Proof. done. Qed.

Lemma prepareSyncData_frame (this this' : Synchronizer) (now1 now2 : Z) (data : SyncData) :
  prepareSyncData this now1 now2 = Returns (data, this') →
  currentSnapshot this' = currentSnapshot this ∧
  previousSnapshot this' = previousSnapshot this ∧
  syncVersion this' = syncVersion this ∧
  syncMode this' = syncMode this ∧
  totalSyncs (stats this') = totalSyncs (stats this) ∧
  conflictCount (stats this') = conflictCount (stats this) ∧
  match data with
  | NoData => True
  | FullData snapshot => currentSnapshot this = Some snapshot
  | DeltaData delta => generateDelta this now2 = Returns (Some delta)
  end.
Proof.
  unfold prepareSyncData.
  destruct (currentSnapshot this) as [current|] eqn:Hc; [|by intros [= <- <-]].
  destruct (shouldUseDeltaSync this now1) as [[|]| |]; cbn [mbind outcome_bind]; try done.
  - rewrite generateDelta_stats.
    destruct (generateDelta this now2) as [[delta|]| |]; cbn [mbind outcome_bind]; try done.
    + by intros [= <- <-].
    + by intros [= <- <-].
  - by intros [= <- <-].
Qed.

Lemma call_versionsInStep (this this' : Synchronizer) (c : Call) (out : list SyncData) :
  versionsInStep this → call this c = Returns (out, this') →
  versionsInStep this' ∧
  ∀ delta, DeltaData delta ∈ out → deltaVersion delta = (baseVersion delta + 1)%Z.
Proof.
  intros [Hv Hinv] Hcall. destruct c; simpl in Hcall.
  - injection Hcall as <- <-. split; [|by intros ? ?%elem_of_nil].
    unfold versionsInStep. simpl. split; [lia|].
    destruct (currentSnapshot this) as [current|] eqn:Hc.
    + split; [done|]. destruct (previousSnapshot this); [destruct Hinv as [-> _]|rewrite Hinv]; lia.
    + done.
  - destruct (prepareSyncData this now1 now2) as [[data this1]| |] eqn:Hp; [|done|done].
    injection Hcall as <- <-.
    destruct (prepareSyncData_frame _ _ _ _ _ Hp) as (Hc & Hpr & Hsv & _ & _ & _ & Hdata).
    split.
    + unfold versionsInStep. by rewrite Hc, Hpr, Hsv.
    + intros delta Hin. apply list_elem_of_singleton in Hin. subst data.
      destruct (generateDelta_versions _ _ _ Hdata) as (cur & prev & Hcur & Hprev & -> & -> & _).
      rewrite Hcur, Hprev in Hinv. destruct Hinv as [-> ->]. lia.
  - injection Hcall as <- <-. split; [done|by intros ? ?%elem_of_nil].
  - injection Hcall as <- <-. split; [done|by intros ? ?%elem_of_nil].
Qed.

Lemma run_versionsInStep (calls : list Call) :
  ∀ this this' outs,
    versionsInStep this → run this calls = Returns (outs, this') →
    versionsInStep this' ∧
    ∀ delta, DeltaData delta ∈ outs → deltaVersion delta = (baseVersion delta + 1)%Z.
Proof.
  induction calls as [|c calls IH]; intros this this' outs Hinv Hrun; simpl in Hrun.
  - injection Hrun as <- <-. split; [done|by intros ? ?%elem_of_nil].
  - destruct (call this c) as [[out this1]| |] eqn:Hcall; [|done|done].
    cbn [mbind outcome_bind] in Hrun.
    destruct (run this1 calls) as [[outs1 this2]| |] eqn:Hrest; [|done|done].
    injection Hrun as <- <-.
    destruct (call_versionsInStep _ _ _ _ Hinv Hcall) as [Hinv1 Hout].
    destruct (IH _ _ _ Hinv1 Hrest) as [Hinv2 Houts].
    split; [done|]. intros delta [Hin|Hin]%elem_of_app; auto.
Qed.

(** Whatever calls are made on a fresh synchronizer, in any mode: if none
    throws, the snapshots it holds carry the versions [syncVersion] and
    [syncVersion - 1], and every delta that [prepareSyncData] returned has
    [version = baseVersion + 1]. *)
Theorem sync_versions_consecutive (mode : SyncMode) (calls : list Call)
    (outs : list SyncData) (this : Synchronizer) :
  run (new mode) calls = Returns (outs, this) →
  versionsInStep this ∧
  ∀ delta, DeltaData delta ∈ outs → deltaVersion delta = (baseVersion delta + 1)%Z.
Proof. apply run_versionsInStep. by split. Qed.

Lemma call_without_updateStats (this : Synchronizer) (c : Call) :
  syncMode this = HYBRID → totalSyncs (stats this) = 0%Z → isUpdateStats c = false →
  ∃ out this',
    call this c = Returns (out, this') ∧
    syncMode this' = HYBRID ∧ totalSyncs (stats this') = 0%Z ∧
    ∀ data, data ∈ out →
      data = NoData ∨ ∃ snapshot, data = FullData snapshot ∧ currentSnapshot this = Some snapshot.
Proof.
  intros Hm Ht Hc. destruct c; simpl in *; try done.
  - eexists _, _. split; [done|]. repeat split; try done. by intros ? ?%elem_of_nil.
  - unfold prepareSyncData, shouldUseDeltaSync. rewrite Hm, Ht.
    destruct (currentSnapshot this) as [current|]; simpl.
    + destruct (previousSnapshot this); simpl.
      all: eexists _, _; split; [done|]; repeat split; try done.
      all: intros data ->%list_elem_of_singleton; right; eauto.
    + eexists _, _. split; [done|]. repeat split; try done.
      intros data ->%list_elem_of_singleton. by left.
  - eexists _, _. split; [done|]. repeat split; try done. by intros ? ?%elem_of_nil.
Qed.

Lemma run_without_updateStats (calls : list Call) :
  ∀ this,
    syncMode this = HYBRID → totalSyncs (stats this) = 0%Z →
    forallb (λ c, negb (isUpdateStats c)) calls = true →
    ∃ outs this',
      run this calls = Returns (outs, this') ∧
      ∀ data, data ∈ outs → data = NoData ∨ ∃ snapshot, data = FullData snapshot.
Proof.
  induction calls as [|c calls IH]; intros this Hm Ht Hcalls; simpl in *.
  - eexists _, _. split; [done|]. by intros ? ?%elem_of_nil.
  - apply andb_prop in Hcalls as [Hc Hcalls]. apply negb_true_iff in Hc.
    destruct (call_without_updateStats this c Hm Ht Hc) as (out & this1 & -> & Hm1 & Ht1 & Hout).
    cbn [mbind outcome_bind].
    destruct (IH this1 Hm1 Ht1 Hcalls) as (outs & this2 & -> & Houts).
    cbn [mbind outcome_bind]. eexists _, _. split; [done|].
    intros data [Hin|Hin]%elem_of_app; [|by auto].
    destruct (Hout data Hin) as [->|(snapshot & -> & _)]; eauto.
Qed.

(** A synchronizer in hybrid mode sends no delta while [updateStats] is not
    called: [prepareSyncData] is the only reader of [totalSyncs] and only
    [updateStats] counts it up, so [totalSyncs % 10] stays 0 and every call
    of [prepareSyncData] returns [null] or the full snapshot.  No call of
    such a run throws. *)
Theorem hybrid_full_until_updateStats (calls : list Call) :
  forallb (λ c, negb (isUpdateStats c)) calls = true →
  ∃ outs this,
    run (new HYBRID) calls = Returns (outs, this) ∧
    totalSyncs (stats this) = 0%Z ∧
    ∀ data, data ∈ outs → data = NoData ∨ ∃ snapshot, data = FullData snapshot.
Proof.
  intros Hcalls.
  assert (∀ calls this, syncMode this = HYBRID → totalSyncs (stats this) = 0%Z →
            forallb (λ c, negb (isUpdateStats c)) calls = true →
            ∀ outs this', run this calls = Returns (outs, this') →
                          totalSyncs (stats this') = 0%Z) as Htotal.
  { clear. induction calls as [|c calls IH]; intros this Hm Ht Hcalls outs this' Hrun;
      simpl in *.
    - by injection Hrun as <- <-.
    - apply andb_prop in Hcalls as [Hc Hcalls]. apply negb_true_iff in Hc.
      destruct (call_without_updateStats this c Hm Ht Hc)
        as (out & this1 & Hcall & Hm1 & Ht1 & _).
      rewrite Hcall in Hrun. cbn [mbind outcome_bind] in Hrun.
      destruct (run this1 calls) as [[outs1 this2]| |] eqn:Hrest; [|done|done].
      injection Hrun as <- <-. by eapply IH. }
  destruct (run_without_updateStats calls (new HYBRID)) as (outs & this & Hrun & Houts);
    try done.
  exists outs, this. split; [done|]. split; [|done].
  by eapply (Htotal calls (new HYBRID)).
Qed.

(** In delta mode [prepareSyncData] never returns a full snapshot: without
    a previous snapshot (the first sync of a session, or the first after
    [reset]) it returns [null], and [deltaSyncs] is counted up whenever there
    is a current snapshot, whether a delta is returned or not. *)
Theorem delta_mode_never_full (this this' : Synchronizer) (now1 now2 : Z) (data : SyncData) :
  syncMode this = DELTA →
  prepareSyncData this now1 now2 = Returns (data, this') →
  (∀ snapshot, data ≠ FullData snapshot) ∧
  (previousSnapshot this = None → data = NoData) ∧
  (is_Some (currentSnapshot this) → deltaSyncs (stats this') = (deltaSyncs (stats this) + 1)%Z).
Proof.
  intros Hm. unfold prepareSyncData, shouldUseDeltaSync. rewrite Hm.
  destruct (currentSnapshot this) as [current|] eqn:Hc.
  - cbn [mbind outcome_bind]. rewrite generateDelta_stats.
    destruct (generateDelta this now2) as [[delta|]| |] eqn:Hd; cbn [mbind outcome_bind];
      try done.
    + intros [= <- <-]. split; [done|]. split; [|done].
      intros Hp. destruct (generateDelta_versions _ _ _ Hd) as (? & ? & _ & Hp' & _).
      congruence.
    + by intros [= <- <-].
  - intros [= <- <-]. split; [done|]. split; [done|]. by intros [? ?].
Qed.

Lemma delta_round_trip_witness :
  ∃ delta,
    generateDelta (hybridAfter 9 1 4) 7 = Returns (Some delta) ∧
    length (changes delta) = 12%nat ∧
    applyDelta exampleSnapshot delta
    = Returns (snapshotOf 2 7 (yellowRows 1 4) (uniformGrid BLUE) 0 "PLAYER").
Proof.
  pose proof (delta_round_trip (hybridAfter 9 1 4) 7
                (snapshotOf 2 2000 (yellowRows 1 4) (uniformGrid BLUE) 0 "PLAYER")
                exampleSnapshot eq_refl eq_refl eq_refl) as H.
  destruct (generateDelta (hybridAfter 9 1 4) 7) as [[delta|]| |] eqn:Hd.
  - exists delta. split; [reflexivity|].
    destruct H as (_ & _ & _ & _ & Happly).
    split; [|exact Happly].
    vm_compute in Hd. injection Hd as <-. reflexivity.
  - vm_compute in Hd. discriminate.
  - destruct H.
  - destruct H.
Defined.

Lemma applyDelta_missing_row_throws_witness :
  applyDelta exampleSnapshot
    {| deltaVersion := 2; baseVersion := 1;
       changes :=
         [ {| type := SCORE_UPDATE; path := "playerScore";
              value := VNumber 30; oldValue := VNumber 0 |};
           {| type := GRID_UPDATE; path := "playerGrid[9][0]";
              value := VCandy GREEN; oldValue := VCandy RED |} ];
       deltaTimestamp := 2000 |}
  = Throws.
Proof.
  apply (applyDelta_missing_row_throws exampleSnapshot _
           [ {| type := SCORE_UPDATE; path := "playerScore";
                value := VNumber 30; oldValue := VNumber 0 |} ]
           []
           {| type := GRID_UPDATE; path := "playerGrid[9][0]";
              value := VCandy GREEN; oldValue := VCandy RED |}
           PlayerGrid 9 0).
  - reflexivity.
  - reflexivity.
  - reflexivity.
  - vm_compute. reflexivity.
  - vm_compute. lia.
Defined.

Lemma sync_versions_consecutive_witness :
  ∃ delta this,
    run (new DELTA) exampleCalls = Returns ([NoData; DeltaData delta], this) ∧
    baseVersion delta = 1%Z ∧ deltaVersion delta = 2%Z ∧ syncVersion this = 2%Z.
Proof.
  destruct (run (new DELTA) exampleCalls) as [[outs this]| |] eqn:Hrun.
  - destruct (sync_versions_consecutive DELTA exampleCalls outs this Hrun) as [_ Hstep].
    vm_compute in Hrun. injection Hrun as <- <-.
    eexists _, _. split; [reflexivity|]. split; [reflexivity|]. split; [|reflexivity].
    apply (Hstep _ ltac:(apply list_elem_of_In; right; left; reflexivity)).
  - vm_compute in Hrun. discriminate.
  - vm_compute in Hrun. discriminate.
Defined.

Lemma hybrid_full_until_updateStats_witness :
  forallb (λ c, negb (isUpdateStats c)) exampleCalls = true ∧
  ∃ outs this,
    run (new HYBRID) exampleCalls = Returns (outs, this) ∧
    totalSyncs (stats this) = 0%Z ∧
    ∀ data, data ∈ outs → data = NoData ∨ ∃ snapshot, data = FullData snapshot.
Proof.
  split; [reflexivity|]. apply (hybrid_full_until_updateStats exampleCalls). reflexivity.
Defined.

Lemma delta_mode_never_full_witness :
  prepareSyncData deltaExample 1001 1002
  = Returns (NoData, withStats (countDeltaSync (stats deltaExample)) deltaExample) ∧
  deltaSyncs (stats (withStats (countDeltaSync (stats deltaExample)) deltaExample)) = 1%Z.
Proof.
  split; [reflexivity|].
  destruct (delta_mode_never_full deltaExample
              (withStats (countDeltaSync (stats deltaExample)) deltaExample)
              1001 1002 NoData eq_refl eq_refl) as (_ & _ & Hcount).
  rewrite Hcount; [reflexivity|]. eexists. reflexivity.
Defined.

End SynchronizerRuns.

(** ** Runs of the conflict resolver *)

Module ResolverRuns.
Import ConflictResolver ResolverProperties.

Lemma detectConflict_history (this : Resolver) (now : Z) (l r : StateSnapshot) :
  let found := (detectConflict (new SERVER_AUTHORITATIVE false) now l r).1 in
  (detectConflict this now l r).1 = found ∧
  conflicts (detectConflict this now l r).2
  = match found with
    | None => conflicts this
    | Some c =>
        let history := conflicts this ++ [c] in
        if (maxHistorySize <? length history)%nat then drop 1 history else history
    end ∧
  stats (detectConflict this now l r).2 = stats this ∧
  policy (detectConflict this now l r).2 = policy this ∧
  isServerAuthority (detectConflict this now l r).2 = isServerAuthority this.
Proof.
  unfold detectConflict, createConflict. simpl.
  destruct (1 <? Z.abs (version l - version r))%Z; [done|].
  destruct (5 <? compareGrids (playerGrid l) (opponentGrid r))%nat; [done|].
  destruct (100 <? Z.abs (playerScore l + opponentScore l
                          - (playerScore r + opponentScore r)))%Z; [done|].
  destruct (10000 <? Z.abs (timestamp l - timestamp r))%Z; done.
Qed.

Lemma shift_last (A : Type) (all : list A) (x : A) (n : nat) :
  (0 < n)%nat →
  let history := drop (length all - n) all ++ [x] in
  (if (n <? length history)%nat then drop 1 history else history)
  = drop (length (all ++ [x]) - n) (all ++ [x]).
Proof.
  intros Hn history. subst history. rewrite !length_app, length_drop. simpl.
  destruct (Nat.ltb_spec n (length all - (length all - n) + 1)) as [H|H].
  - replace (length all + 1 - n)%nat with (S (length all - n)) by lia.
    rewrite (drop_app_le all) by lia.
    rewrite (drop_app_le (drop _ all)) by (rewrite length_drop; lia).
    rewrite drop_drop. by rewrite Nat.add_1_r.
  - replace (length all + 1 - n)%nat with 0%nat by lia.
    replace (length all - n)%nat with 0%nat by lia. by rewrite !drop_0.
Qed.

Lemma run_snoc (this : Resolver) (calls : list Call) (c : Call) :
  run this (calls ++ [c]) = call (run this calls) c.
Proof. unfold run. by rewrite foldl_app. Qed.

(** The history of a resolver is the last 100 conflicts that
    [detectConflict] reported since the last [reset], oldest first, whatever
    other calls were made between them. *)
Theorem conflict_history_recent (strategy : ResolutionStrategy) (authority : bool)
    (calls : list Call) :
  let this := run (new strategy authority) calls in
  let all := detected calls in
  conflicts this = drop (length all - 100) all ∧
  (length (conflicts this) ≤ 100)%nat.
Proof.
  intros this all. subst this all.
  assert (H : conflicts (run (new strategy authority) calls)
              = drop (length (detected calls) - 100) (detected calls)).
  { induction calls as [|c calls IH] using rev_ind; [done|].
    rewrite run_snoc. unfold detected. rewrite foldl_app. fold (detected calls). simpl.
    destruct c as [now l r|startTime endTime err conflict l r|strategy'|]; simpl.
    - destruct (detectConflict_history (run (new strategy authority) calls) now l r)
        as (_ & -> & _).
      destruct (detectConflict (new SERVER_AUTHORITATIVE false) now l r).1
        as [conflict|]; simpl.
      + rewrite IH. apply (shift_last _ (detected calls) conflict 100). lia.
      + by rewrite app_nil_r.
    - unfold resolveConflict. by repeat case_match.
    - done.
    - done. }
  split; [done|]. rewrite H, length_drop. lia.
Qed.

Lemma sumByType_bump (t : ConflictType) (f : ConflictType → Z) :
  sumByType (bump t f) = (sumByType f + 1)%Z.
Proof. unfold sumByType, bump. destruct t; repeat case_bool_decide; try done; lia. Qed.

Lemma sumByStrategy_bump (s : ResolutionStrategy) (f : ResolutionStrategy → Z) :
  sumByStrategy (bump s f) = (sumByStrategy f + 1)%Z.
Proof. unfold sumByStrategy, bump. destruct s; repeat case_bool_decide; try done; lia. Qed.

Lemma resolve_success (this : Resolver) (conflict : Conflict) (l r : StateSnapshot)
    (result : ResolutionResult) :
  match policy this with
  | SERVER_AUTHORITATIVE => resolveServerAuthoritative this conflict l r
  | CLIENT_AUTHORITATIVE => resolveClientAuthoritative this conflict l r
  | LATEST_TIMESTAMP => resolveLatestTimestamp this conflict l r
  | MERGE => resolveMerge this conflict l r
  | ROLLBACK => resolveRollback this conflict l r
  end = Returns result →
  success result = true ∧ strategy result = policy this.
Proof.
  unfold resolveServerAuthoritative, resolveClientAuthoritative, resolveLatestTimestamp,
    resolveMerge, resolveRollback.
  destruct (policy this).
  - destruct (generateCompensationMoves _ _); [|done|done]. by intros [= <-].
  - by intros [= <-].
  - destruct (timestamp r <=? timestamp l)%Z; simpl.
    + by intros [= <-].
    + destruct (generateCompensationMoves _ _); [|done|done]. by intros [= <-].
  - destruct (generateCompensationMoves _ _); [|done|done]. by intros [= <-].
  - by intros [= <-].
Qed.

Lemma resolveConflict_stats (this : Resolver) (startTime endTime : Z) (err : string)
    (conflict : Conflict) (l r : StateSnapshot) (n : Z) :
  statsConsistent n (stats this) →
  statsConsistent (n + 1) (stats (resolveConflict this startTime endTime err conflict l r).2)
  ∧ conflicts (resolveConflict this startTime endTime err conflict l r).2 = conflicts this.
Proof.
  intros (Ht & Hsum & Hr & Hf & Hty & Hst). unfold resolveConflict.
  match goal with |- context [match ?a with Returns _ => _ | _ => _ end] =>
    destruct a as [result| |] eqn:Hattempt end.
  - apply resolve_success in Hattempt as [Hs _]. rewrite Hs. simpl.
    unfold statsConsistent. simpl. rewrite sumByType_bump, sumByStrategy_bump.
    repeat split; lia.
  - unfold statsConsistent. simpl. rewrite sumByType_bump. repeat split; lia.
  - unfold statsConsistent. simpl. rewrite sumByType_bump. repeat split; lia.
Qed.

(** The counters of a resolver after any run of calls: [totalConflicts] is
    the number of [resolveConflict] calls since the last [reset]; every one
    of them is counted as resolved or as failed; the counts by type sum to
    [totalConflicts] and the counts by strategy to [resolvedConflicts]. *)
Theorem resolver_stats_consistent (strategy : ResolutionStrategy) (authority : bool)
    (calls : list Call) :
  let st := stats (run (new strategy authority) calls) in
  totalConflicts st = resolutions calls ∧
  (resolvedConflicts st + failedResolutions st = totalConflicts st)%Z ∧
  (0 ≤ resolvedConflicts st)%Z ∧ (0 ≤ failedResolutions st)%Z ∧
  sumByType (byType st) = totalConflicts st ∧
  sumByStrategy (byStrategy st) = resolvedConflicts st.
Proof.
  intros st. subst st.
  assert (H : statsConsistent (resolutions calls) (stats (run (new strategy authority) calls))).
  { induction calls as [|c calls IH] using rev_ind.
    - by repeat split.
    - rewrite run_snoc. unfold resolutions. rewrite foldl_app. fold (resolutions calls).
      destruct c as [now l r|startTime endTime err conflict l r|strategy'|]; simpl.
      + by destruct (detectConflict_history (run (new strategy authority) calls) now l r)
          as (_ & _ & -> & _).
      + by apply resolveConflict_stats.
      + done.
      + by repeat split. }
  destruct H as (Ht & Hsum & Hr & Hf & Hty & Hst). rewrite Ht. by repeat split.
Qed.

Lemma forEach_app {A B : Type} (body : A → B → outcome A) (l1 l2 : list B) :
  ∀ acc, forEach body acc (l1 ++ l2) = (acc' ← forEach body acc l1; forEach body acc' l2).
Proof.
  induction l1 as [|x l1 IH]; intros acc; simpl; [done|].
  destruct (body acc x); simpl; [apply IH|done|done].
Qed.

Lemma generateCompensationMoves_throws (a b : StateSnapshot) :
  (length (playerGrid a) < boardSize)%nat ∨ (length (playerGrid b) < boardSize)%nat →
  generateCompensationMoves a b = Throws.
Proof.
  intros Hshort. unfold generateCompensationMoves.
  set (k := (length (playerGrid a) `min` length (playerGrid b))%nat).
  assert (Hk : (k < boardSize)%nat) by lia.
  assert (Hrows : seq 0 boardSize = seq 0 k ++ k :: seq (S k) (boardSize - S k)).
  { change (k :: seq (S k) (boardSize - S k)) with (seq k (S (boardSize - S k))).
    rewrite <- seq_app. f_equal. lia. }
  set (body := λ moves r, forEach (compensateCell a b r) moves (seq 0 boardSize)).
  rewrite Hrows, forEach_app. subst body.
  rewrite (forEach_collect _ (λ r, seq 0 boardSize ≫= λ c, movesAt a b (r, c))).
  2:{ intros acc r Hr. apply elem_of_seq in Hr.
      apply (forEach_collect _ (λ c, movesAt a b (r, c))).
      intros acc' c _. apply compensateCell_returns; lia. }
  cbn [mbind outcome_bind forEach].
  change (seq 0 boardSize) with (0%nat :: seq 1 7). cbn [forEach].
  unfold compensateCell, readCell.
  destruct (playerGrid a !! k) as [cellsA|] eqn:Ha; [|done].
  destruct (playerGrid b !! k) as [cellsB|] eqn:Hb; [|done].
  apply lookup_lt_Some in Ha, Hb. lia.
Qed.

(** When [resolveConflict] fails.  CLIENT_AUTHORITATIVE and ROLLBACK never
    fail.  SERVER_AUTHORITATIVE fails when the local player grid has fewer
    than 8 rows or, on a client, the remote one has; LATEST_TIMESTAMP when the
    remote snapshot is strictly later and one of the two player grids has
    fewer than 8 rows; MERGE when the local player grid has.  A failed
    resolution returns the local snapshot, asks for a rollback, carries no
    compensation move and names the strategy of the resolver. *)
Theorem resolveConflict_fails_iff (this : Resolver) (startTime endTime : Z) (err : string)
    (conflict : Conflict) (l r : StateSnapshot) :
  let result := (resolveConflict this startTime endTime err conflict l r).1 in
  (success result = false ↔
     match policy this with
     | SERVER_AUTHORITATIVE =>
         boardCovered l = false ∨ (isServerAuthority this = false ∧ boardCovered r = false)
     | LATEST_TIMESTAMP =>
         (timestamp l < timestamp r)%Z ∧ (boardCovered l = false ∨ boardCovered r = false)
     | MERGE => boardCovered l = false
     | CLIENT_AUTHORITATIVE | ROLLBACK => False
     end) ∧
  (success result = false →
     resolvedState result = l ∧ rollbackRequired result = true ∧
     compensationMoves result = [] ∧ strategy result = policy this).
Proof.
  unfold boardCovered.
  assert (Hgen : ∀ a b,
            ((boardSize <=? length (playerGrid a))%nat = false
             ∨ (boardSize <=? length (playerGrid b))%nat = false)
            ∧ generateCompensationMoves a b = Throws
            ∨ ((boardSize <=? length (playerGrid a))%nat = true
               ∧ (boardSize <=? length (playerGrid b))%nat = true)
              ∧ ∃ moves, generateCompensationMoves a b = Returns moves).
  { intros a b.
    destruct (Nat.leb_spec boardSize (length (playerGrid a))) as [Ha|Ha];
      destruct (Nat.leb_spec boardSize (length (playerGrid b))) as [Hb|Hb].
    - right. split; [done|]. eexists. by apply generateCompensationMoves_returns.
    - left. split; [by right|]. apply generateCompensationMoves_throws. by right.
    - left. split; [by left|]. apply generateCompensationMoves_throws. by left.
    - left. split; [by left|]. apply generateCompensationMoves_throws. by left. }
  unfold resolveConflict, resolveServerAuthoritative, resolveClientAuthoritative,
    resolveLatestTimestamp, resolveMerge, resolveRollback.
  unfold boardSize in *.
  destruct (policy this) eqn:Hp; cbn -[Nat.leb generateCompensationMoves mergeGrids].
  - destruct (isServerAuthority this) eqn:Hs.
    + destruct (Hgen l l) as [[H ->]|[[H1 H2] [moves ->]]]; cbn -[Nat.leb generateCompensationMoves mergeGrids].
      * split; [|done]. split; [|done]. intros _. left. by destruct H.
      * split; [|done]. split; [done|]. intros [H|[? _]]; congruence.
    + destruct (Hgen l r) as [[H ->]|[[H1 H2] [moves ->]]]; cbn -[Nat.leb generateCompensationMoves mergeGrids].
      * split; [|done]. split; [|done]. intros _. destruct H; auto.
      * split; [|done]. split; [done|]. intros [H|[_ H]]; congruence.
  - split; [|done]. split; [done|tauto].
  - destruct (Z.leb_spec (timestamp r) (timestamp l)) as [Ht|Ht]; cbn -[Nat.leb generateCompensationMoves mergeGrids].
    + split; [|done]. split; [done|]. intros [? _]. lia.
    + destruct (Hgen l r) as [[H ->]|[[H1 H2] [moves ->]]]; cbn -[Nat.leb generateCompensationMoves mergeGrids].
      * split; [|done]. split; [|done]. intros _. by split.
      * split; [|done]. split; [done|]. intros [_ [H|H]]; congruence.
  - match goal with |- context [generateCompensationMoves l ?m] =>
      destruct (Hgen l m) as [[H ->]|[[H1 H2] [moves ->]]] end; cbn -[Nat.leb generateCompensationMoves mergeGrids].
    + split; [|done]. split; [|done]. intros _.
      destruct H as [H|H]; [done|]. cbn -[Nat.leb generateCompensationMoves mergeGrids] in H. rewrite length_mergeGrids in H.
      apply Nat.leb_gt in H. apply Nat.leb_gt. lia.
    + split; [|done]. split; [done|]. congruence.
  - split; [|done]. split; [done|tauto].
Qed.

Lemma differingPlayerCells_same (a : StateSnapshot) : differingPlayerCells a a = [].
Proof.
  unfold differingPlayerCells. induction boardPositions as [|rc l IH]; [done|].
  rewrite filter_cons_False; [done|].
  unfold playerCellDiffers. by rewrite bool_decide_eq_true_2.
Qed.

(** LATEST_TIMESTAMP with a strictly later remote snapshot, on player grids
    of at least 8 rows: the remote snapshot is taken, a rollback is asked
    for, and there is one compensation move for each of the 8x8 cells in
    which the two player grids differ. *)
Theorem latestTimestamp_remote_later (this : Resolver) (startTime endTime : Z)
    (err : string) (conflict : Conflict) (l r : StateSnapshot) :
  policy this = LATEST_TIMESTAMP →
  (timestamp l < timestamp r)%Z →
  (8 ≤ length (playerGrid l))%nat →
  (8 ≤ length (playerGrid r))%nat →
  let result := (resolveConflict this startTime endTime err conflict l r).1 in
  success result = true ∧
  strategy result = LATEST_TIMESTAMP ∧
  resolvedState result = r ∧
  rollbackRequired result = true ∧
  compensationMoves result = compensationFor l r <$> differingPlayerCells l r.
Proof.
  intros Hp Ht Hl Hr. unfold resolveConflict, resolveLatestTimestamp. rewrite Hp.
  destruct (Z.leb_spec (timestamp r) (timestamp l)) as [H|_]; [lia|].
  by rewrite generateCompensationMoves_returns.
Qed.

(** SERVER_AUTHORITATIVE on the server itself: the local snapshot is kept,
    no rollback is asked for and there is no compensation move. *)
Theorem serverAuthoritative_on_server (this : Resolver) (startTime endTime : Z)
    (err : string) (conflict : Conflict) (l r : StateSnapshot) :
  policy this = SERVER_AUTHORITATIVE →
  isServerAuthority this = true →
  (8 ≤ length (playerGrid l))%nat →
  let result := (resolveConflict this startTime endTime err conflict l r).1 in
  success result = true ∧
  strategy result = SERVER_AUTHORITATIVE ∧
  resolvedState result = l ∧
  rollbackRequired result = false ∧
  compensationMoves result = [].
Proof.
  intros Hp Hs Hl. unfold resolveConflict, resolveServerAuthoritative. rewrite Hp, Hs.
  rewrite generateCompensationMoves_returns by done.
  by rewrite differingPlayerCells_same.
Qed.

Lemma cellOrEmpty_mergeGrids (grid1 grid2 : Grid) (r c : nat) :
  (c < boardSize)%nat →
  cellOrEmpty (mergeGrids grid1 grid2) r c
  = firstCandy (cellOrEmpty grid1 r c) (cellOrEmpty grid2 r c).
Proof.
  intros Hc. unfold mergeGrids at 1. unfold cellOrEmpty at 1.
  rewrite list_lookup_fmap.
  destruct (decide (r < max (length grid1) (length grid2))%nat) as [Hr|Hr].
  - rewrite lookup_seq_lt by done. cbn [fmap option_fmap option_map].
    rewrite list_lookup_fmap, lookup_seq_lt by done. done.
  - rewrite lookup_seq_ge by lia. cbn [fmap option_fmap option_map].
    unfold cellOrEmpty. rewrite !lookup_ge_None_2 by lia. done.
Qed.

Lemma firstCandy_assoc (x y z : CandyType) :
  firstCandy (firstCandy x y) z = firstCandy x (firstCandy y z).
Proof. unfold firstCandy. by repeat case_bool_decide. Qed.

Lemma mergeGrids_ext (n : nat) (f g : nat → nat → CandyType) :
  (∀ r c, (c < boardSize)%nat → f r c = g r c) →
  (λ r, (λ c, f r c) <$> seq 0 boardSize) <$> seq 0 n
  = (λ r, (λ c, g r c) <$> seq 0 boardSize) <$> seq 0 n.
Proof.
  intros H. apply list_fmap_ext. intros i r _.
  apply list_fmap_ext. intros j c Hc. apply H.
  apply lookup_seq in Hc. lia.
Qed.

(** [mergeGrids] is associative; merging a merged grid with itself gives it
    back; and a cell of the merged grid is EMPTY exactly when it is EMPTY or
    missing in both grids. *)
Theorem mergeGrids_algebra (grid1 grid2 grid3 : Grid) :
  mergeGrids (mergeGrids grid1 grid2) grid3 = mergeGrids grid1 (mergeGrids grid2 grid3) ∧
  mergeGrids (mergeGrids grid1 grid2) (mergeGrids grid1 grid2) = mergeGrids grid1 grid2 ∧
  (∀ r c, (r < max (length grid1) (length grid2))%nat → (c < 8)%nat →
     cellAt (mergeGrids grid1 grid2) r c = Some EMPTY ↔
     cellOrEmpty grid1 r c = EMPTY ∧ cellOrEmpty grid2 r c = EMPTY).
Proof.
  split; [|split].
  - unfold mergeGrids at 1 3. rewrite !length_mergeGrids.
    rewrite Nat.max_assoc. apply mergeGrids_ext. intros r c Hc.
    rewrite !cellOrEmpty_mergeGrids by done. apply firstCandy_assoc.
  - set (m := mergeGrids grid1 grid2).
    unfold mergeGrids at 1. rewrite Nat.max_id.
    apply list_eq. intros r. rewrite list_lookup_fmap.
    destruct (decide (r < length m)%nat) as [Hr|Hr].
    + rewrite lookup_seq_lt by done. cbn [fmap option_fmap option_map Nat.add].
      destruct (lookup_lt_is_Some_2 m r Hr) as [cells Hcells]. rewrite Hcells. f_equal.
      apply list_eq. intros c. rewrite list_lookup_fmap.
      assert (Hlen : length cells = boardSize).
      { apply (mergeGrids_rows grid1 grid2). by eapply list_elem_of_lookup_2. }
      destruct (decide (c < boardSize)%nat) as [Hc|Hc].
      * rewrite lookup_seq_lt by done. cbn [fmap option_fmap option_map Nat.add].
        destruct (lookup_lt_is_Some_2 cells c) as [v Hv]; [lia|].
        rewrite Hv. f_equal. unfold cellOrEmpty. rewrite Hcells, Hv. simpl.
        by case_bool_decide.
      * rewrite lookup_seq_ge by lia. simpl. symmetry. apply lookup_ge_None_2. lia.
    + rewrite lookup_seq_ge by lia. simpl. symmetry. apply lookup_ge_None_2. lia.
  - intros r c Hr Hc. rewrite lookup_mergeGrids by done.
    unfold mergedCell, cellOrEmpty, cellAt.
    destruct (grid1 !! r) as [cells1|]; simpl; [destruct (cells1 !! c) as [v|]; simpl|].
    all: destruct (grid2 !! r) as [cells2|]; simpl;
      [destruct (cells2 !! c) as [v2|]; simpl|].
    all: repeat case_bool_decide; split; try done; try (intros [= ?]; done);
      try (intros [? ?]; congruence); try (intros [= ->]; done).
Qed.

Lemma latestTimestamp_remote_later_witness :
  let l := snapshotOn (board 8 8 RED) (board 8 8 BLUE) in
  let r := StateSynchronizer.setVersionTimestamp 3 6000
             (snapshotOn (boardWith 7 GREEN RED) (board 8 8 BLUE)) in
  let result :=
    (resolveConflict (new LATEST_TIMESTAMP false) 0 1 "" (exampleConflict l r) l r).1 in
  success result = true ∧ resolvedState result = r ∧ rollbackRequired result = true ∧
  length (compensationMoves result) = 7%nat.
Proof.
  intros l r result.
  destruct (latestTimestamp_remote_later (new LATEST_TIMESTAMP false) 0 1 ""
              (exampleConflict l r) l r) as (Hs & _ & Hr & Hb & Hmoves).
  - reflexivity.
  - vm_compute. reflexivity.
  - vm_compute. lia.
  - vm_compute. lia.
  - split; [exact Hs|]. split; [exact Hr|]. split; [exact Hb|].
    fold result in Hmoves. rewrite Hmoves. reflexivity.
Defined.

Lemma serverAuthoritative_on_server_witness :
  let l := snapshotOn (board 8 8 RED) (board 8 8 BLUE) in
  let r := snapshotOn (boardWith 7 GREEN RED) (board 8 8 BLUE) in
  let result :=
    (resolveConflict (new SERVER_AUTHORITATIVE true) 0 1 "" (exampleConflict l r) l r).1 in
  success result = true ∧ resolvedState result = l ∧ rollbackRequired result = false ∧
  compensationMoves result = [].
Proof.
  intros l r result.
  destruct (serverAuthoritative_on_server (new SERVER_AUTHORITATIVE true) 0 1 ""
              (exampleConflict l r) l r) as (Hs & _ & Hr & Hb & Hmoves).
  - reflexivity.
  - reflexivity.
  - vm_compute. lia.
  - split; [exact Hs|]. split; [exact Hr|]. split; [exact Hb|exact Hmoves].
Defined.

End ResolverRuns.

(** ** Snapshots and recovery of the reconnection manager *)

Module RecoveryProperties.
Import ReconnectionManager ReconnectionProperties.

Lemma lastN_app {A : Type} (n : nat) (X Y : list A) :
  let recent := drop (length X - n) X in
  drop (length (recent ++ Y) - n) (recent ++ Y) = drop (length (X ++ Y) - n) (X ++ Y).
Proof.
  intros recent. subst recent. rewrite !length_app, length_drop.
  rewrite !drop_app, length_drop, drop_drop.
  destruct (decide (length X ≤ n)%nat) as [H|H].
  - replace (length X - n)%nat with 0%nat by lia. rewrite !Nat.sub_0_r, !Nat.add_0_l.
    done.
  - f_equal.
    + destruct (decide (length Y ≤ n)%nat).
      * f_equal. lia.
      * rewrite !drop_ge by lia. done.
    + f_equal. lia.
Qed.

(** After any run of [saveSnapshot] calls the ring holds the 10 most recent
    of the snapshots that were taken (those that were in it and those of the
    calls that were not dropped), oldest first. *)
Theorem saveAll_keeps_recent (calls : list (Z * GameStateSnapshot)) :
  ∀ this storage,
    (length (stateSnapshots this) ≤ 10)%nat →
    let all := stateSnapshots this ++ kept (lastSnapshotTime this) calls in
    let this' := (saveAll this storage calls).1 in
    stateSnapshots this' = drop (length all - 10) all ∧
    (length (stateSnapshots this') ≤ 10)%nat.
Proof.
  induction calls as [|[now snapshot] calls IH]; intros this storage Hlen all this';
    subst all this'; simpl.
  - rewrite app_nil_r. replace (length (stateSnapshots this) - 10)%nat with 0%nat by lia.
    by rewrite drop_0.
  - unfold saveSnapshot.
    destruct (now - lastSnapshotTime this <? snapshotInterval)%Z eqn:Hgate.
    + by apply IH.
    + set (ring := stateSnapshots this ++ [snapshot]).
      set (this1 := {| status := status this;
                       stateSnapshots := if (maxSnapshots <? length ring)%nat
                                         then drop 1 ring else ring;
                       lastSnapshotTime := now; disconnectTime := disconnectTime this |}).
      assert (Hring : stateSnapshots this1 = drop (length ring - 10) ring).
      { unfold this1, ring, maxSnapshots. simpl. rewrite length_app. simpl.
        destruct (Nat.ltb_spec 10 (length (stateSnapshots this) + 1)).
        - by replace (length (stateSnapshots this) + 1 - 10)%nat with 1%nat by lia.
        - by replace (length (stateSnapshots this) + 1 - 10)%nat with 0%nat by lia. }
      destruct (IH this1 (saveToLocalStorage storage snapshot)) as [Heq Hle].
      { rewrite Hring, length_drop. lia. }
      split; [|done]. rewrite Heq. change (lastSnapshotTime this1) with now. rewrite Hring.
      rewrite (lastN_app 10 ring). unfold ring. by rewrite <- app_assoc.
Qed.

(** A snapshot saved at least 5 s after the last one is what
    [getLatestSnapshot] returns next.  When the store takes the two items, a
    manager with an empty ring (after a page reload) finds it there too.
    When the store refuses the snapshot, nothing is written. *)
Theorem saved_snapshot_is_found (this : Manager) (storage : LocalStorage) (now : Z)
    (snapshot : GameStateSnapshot) :
  (5000 ≤ now - lastSnapshotTime this)%Z →
  let saved := saveSnapshot this storage now snapshot in
  getLatestSnapshot saved.1 saved.2 = Some snapshot ∧
  (accepts storage (snapshotKey snapshot) (ItemSnapshot snapshot) = true →
   accepts storage "latest_snapshot_key" (ItemText (snapshotKey snapshot)) = true →
   getLatestSnapshot new saved.2 = Some snapshot) ∧
  (accepts storage (snapshotKey snapshot) (ItemSnapshot snapshot) = false →
   saved.2 = storage).
Proof.
  intros Hgate saved. subst saved. unfold saveSnapshot, snapshotInterval.
  destruct (Z.ltb_spec (now - lastSnapshotTime this) 5000); [lia|]. simpl.
  split; [|split].
  - unfold getLatestSnapshot. simpl.
    assert (Hlast : last (if (maxSnapshots <? length (stateSnapshots this ++ [snapshot]))%nat
                          then drop 1 (stateSnapshots this ++ [snapshot])
                          else stateSnapshots this ++ [snapshot]) = Some snapshot).
    { destruct (Nat.ltb_spec maxSnapshots (length (stateSnapshots this ++ [snapshot])))
        as [Hlong|_]; [|apply last_snoc].
      destruct (stateSnapshots this) as [|x old]; simpl in *.
      - unfold maxSnapshots in Hlong. lia.
      - rewrite drop_0. apply last_snoc. }
    by rewrite Hlast.
  - intros H1 H2.
    destruct (saveToLocalStorage_accepted storage snapshot H1 H2) as [Hitem Hkey].
    unfold getLatestSnapshot, loadFromLocalStorage. simpl. rewrite Hkey.
    unfold snapshotKey at 1. simpl. by rewrite Hitem.
  - intros H1. unfold saveToLocalStorage, setItem. by rewrite H1.
Qed.

(** After [clearSnapshots] there is no latest snapshot: the ring is empty,
    the key that names the stored snapshot is gone and so is the item it
    named, when that name is not the empty string; all other items stay. *)
Theorem clearSnapshots_forgets (this : Manager) (storage : LocalStorage) :
  let cleared := clearSnapshots this storage in
  getLatestSnapshot cleared.1 cleared.2 = None ∧
  getItem cleared.2 "latest_snapshot_key" = None ∧
  (∀ key, getItem storage "latest_snapshot_key" = Some (ItemText key) → key ≠ "" →
          getItem cleared.2 key = None) ∧
  (∀ other, other ≠ "latest_snapshot_key" →
            getItem storage "latest_snapshot_key" ≠ Some (ItemText other) →
            getItem cleared.2 other = getItem storage other).
Proof.
  intros cleared. subst cleared. unfold clearSnapshots, clearLocalStorage. simpl.
  assert (Hgone : ∀ st, getItem (removeItem st "latest_snapshot_key") "latest_snapshot_key"
                        = None).
  { intros st. unfold getItem, removeItem. simpl. apply lookup_delete_eq. }
  split; [|split; [|split]].
  - unfold getLatestSnapshot, loadFromLocalStorage. simpl. by rewrite Hgone.
  - apply Hgone.
  - intros key Hkey Hne. rewrite Hkey.
    destruct (String.eqb_spec key "") as [->|_]; [done|].
    unfold getItem, removeItem. simpl.
    destruct (decide (key = "latest_snapshot_key")) as [->|Hk].
    + apply lookup_delete_eq.
    + rewrite lookup_delete_ne by done. apply lookup_delete_eq.
  - intros other Hother Hkey.
    destruct (getItem storage "latest_snapshot_key") as [[key|snapshot]|] eqn:Hlatest.
    + destruct (String.eqb key ""); unfold getItem, removeItem; simpl.
      * by rewrite lookup_delete_ne.
      * rewrite !lookup_delete_ne; [done| |done]. intros ->. done.
    + unfold getItem, removeItem. simpl. by rewrite lookup_delete_ne.
    + unfold getItem, removeItem. simpl. by rewrite lookup_delete_ne.
Qed.

Lemma closer_spec (t : Z) (l : list GameStateSnapshot) :
  ∀ best,
    match best with
    | (Some b, Some d) => d = (t - timestamp b)%Z ∧ (0 ≤ d)%Z
    | (None, None) => True
    | _ => False
    end →
    match foldl (closer t) best l with
    | (Some s, Some d) =>
        d = (t - timestamp s)%Z ∧ (0 ≤ d)%Z ∧
        (Some s = best.1 ∨ s ∈ l) ∧
        (∀ b, best.1 = Some b → (timestamp b ≤ timestamp s)%Z) ∧
        (∀ s', s' ∈ l → (timestamp s' ≤ t)%Z → (timestamp s' ≤ timestamp s)%Z)
    | (None, None) =>
        best = (None, None) ∧ ∀ s', s' ∈ l → (t < timestamp s')%Z
    | _ => False
    end.
Proof.
  induction l as [|x l IH]; intros [[b|] [d|]] Hbest; try done; simpl.
  - destruct Hbest as [-> Hd]. repeat split; try done; [by left|..].
    + by intros ? [= ->].
    + by intros ? ?%elem_of_nil.
  - split; [done|]. by intros ? ?%elem_of_nil.
  - destruct Hbest as [-> Hd]. unfold closer at 2. simpl.
    destruct (Z.leb_spec 0 (t - timestamp x)) as [H0|H0];
      destruct (Z.ltb_spec (t - timestamp x) (t - timestamp b)) as [H1|H1]; simpl.
    + specialize (IH (Some x, Some (t - timestamp x)%Z) (conj eq_refl H0)).
      destruct (foldl _ _ l) as [[s|] [d|]]; try done.
      * destruct IH as (-> & Hd' & Hin & Hb & Hall). repeat split; try done.
        -- right. destruct Hin as [[= ->]|Hin]; [left|right]; done.
        -- intros b' [= ->]. specialize (Hb x eq_refl). lia.
        -- intros s' [->|Hs']%elem_of_cons Ht; [by apply Hb|by apply Hall].
      * by destruct IH.
    + specialize (IH (Some b, Some (t - timestamp b)%Z) (conj eq_refl Hd)).
      destruct (foldl _ _ l) as [[s|] [d|]]; try done.
      * destruct IH as (-> & Hd' & Hin & Hb & Hall). repeat split; try done.
        -- destruct Hin as [Hin|Hin]; [by left|right; by right].
        -- intros s' [->|Hs']%elem_of_cons Ht; [|by apply Hall].
           specialize (Hb b eq_refl). lia.
      * by destruct IH.
    + specialize (IH (Some b, Some (t - timestamp b)%Z) (conj eq_refl Hd)).
      destruct (foldl _ _ l) as [[s|] [d|]]; try done.
      * destruct IH as (-> & Hd' & Hin & Hb & Hall). repeat split; try done.
        -- destruct Hin as [Hin|Hin]; [by left|right; by right].
        -- intros s' [->|Hs']%elem_of_cons Ht; [lia|by apply Hall].
      * by destruct IH.
    + specialize (IH (Some b, Some (t - timestamp b)%Z) (conj eq_refl Hd)).
      destruct (foldl _ _ l) as [[s|] [d|]]; try done.
      * destruct IH as (-> & Hd' & Hin & Hb & Hall). repeat split; try done.
        -- destruct Hin as [Hin|Hin]; [by left|right; by right].
        -- intros s' [->|Hs']%elem_of_cons Ht; [lia|by apply Hall].
      * by destruct IH.
  - unfold closer at 2. simpl.
    destruct (Z.leb_spec 0 (t - timestamp x)) as [H0|H0]; simpl.
    + specialize (IH (Some x, Some (t - timestamp x)%Z) (conj eq_refl H0)).
      destruct (foldl _ _ l) as [[s|] [d|]]; try done.
      * destruct IH as (-> & Hd' & Hin & Hb & Hall). repeat split; try done.
        -- right. destruct Hin as [[= ->]|Hin]; [left|right]; done.
        -- intros s' [->|Hs']%elem_of_cons Ht; [by apply Hb|by apply Hall].
      * by destruct IH.
    + specialize (IH (None, None) I).
      destruct (foldl _ _ l) as [[s|] [d|]]; try done.
      * destruct IH as (-> & Hd' & Hin & Hb & Hall). repeat split; try done.
        -- destruct Hin as [Hin|Hin]; [done|right; by right].
        -- intros s' [->|Hs']%elem_of_cons Ht; [lia|by apply Hall].
      * destruct IH as [_ Hall]. split; [done|].
        intros s' [->|Hs']%elem_of_cons; [lia|by apply Hall].
Qed.

(** [getSnapshotAt]: the snapshot returned is in the ring, is not later
    than the time asked for, and no snapshot of the ring that is not later
    than that time is later than it; [null] is returned exactly when every
    snapshot of the ring is later than the time asked for. *)
Theorem getSnapshotAt_closest (this : Manager) (t : Z) :
  match getSnapshotAt this t with
  | Some s =>
      s ∈ stateSnapshots this ∧ (timestamp s ≤ t)%Z ∧
      ∀ s', s' ∈ stateSnapshots this → (timestamp s' ≤ t)%Z →
            (timestamp s' ≤ timestamp s)%Z
  | None => ∀ s', s' ∈ stateSnapshots this → (t < timestamp s')%Z
  end.
Proof.
  unfold getSnapshotAt.
  pose proof (closer_spec t (stateSnapshots this) (None, None) I) as H.
  destruct (foldl _ _ _) as [[s|] [d|]]; try done; simpl.
  - destruct H as (-> & Hd & [Hin|Hin] & _ & Hall); [done|].
    repeat split; [done|lia|done].
  - by destruct H.
Qed.

(** [canRecover] and [handleReconnect] at the same time: when [canRecover]
    holds, [handleReconnect] returns the last snapshot of the ring and leaves
    the status UNSTABLE; more than 60 s after the disconnection it returns
    [null].  It returns [null] exactly when it leaves the status FAILED and
    a snapshot exactly when it leaves UNSTABLE, never STABLE; the ring and
    the time of disconnection are as before. *)
Theorem canRecover_then_recovers (this : Manager) (storage : LocalStorage) (now : Z) :
  let outcome := handleReconnect this storage now in
  (canRecover this now = true →
     ∃ snapshot, last (stateSnapshots this) = Some snapshot ∧
                 outcome.1 = Some snapshot ∧ status outcome.2 = UNSTABLE) ∧
  ((60000 < now - disconnectTime this)%Z → outcome.1 = None ∧ status outcome.2 = FAILED) ∧
  (outcome.1 = None ↔ status outcome.2 = FAILED) ∧
  (is_Some outcome.1 ↔ status outcome.2 = UNSTABLE) ∧
  stateSnapshots outcome.2 = stateSnapshots this ∧
  disconnectTime outcome.2 = disconnectTime this.
Proof.
  intros outcome. subst outcome. unfold handleReconnect, canRecover, maxRecoveryTime.
  simpl.
  split; [|split].
  - intros [Ht Hn]%andb_prop. apply Z.ltb_lt in Ht. apply Nat.ltb_lt in Hn.
    destruct (Z.ltb_spec 60000 (now - disconnectTime this)); [lia|].
    unfold getLatestSnapshot. simpl.
    destruct (last (stateSnapshots this)) as [snapshot|] eqn:Hlast.
    + by exists snapshot.
    + apply last_None in Hlast. rewrite Hlast in Hn. simpl in Hn. lia.
  - intros Ht. by destruct (Z.ltb_spec 60000 (now - disconnectTime this)); [|lia].
  - destruct (60000 <? now - disconnectTime this)%Z; simpl.
    + repeat split; try done; try by intros [? ?].
    + destruct (getLatestSnapshot _ storage); simpl; repeat split; try done;
        try by intros [? ?].
Qed.

Lemma saveAll_keeps_recent_witness :
  stateSnapshots (saveAll new emptyStorage exampleSaves).1
  = (λ k : nat, snapshotAt (5000 * Z.of_nat (S k))) <$> seq 2 10.
Proof.
  destruct (saveAll_keeps_recent exampleSaves new emptyStorage) as [Hring _].
  - vm_compute. lia.
  - rewrite Hring. reflexivity.
Defined.

Lemma saved_snapshot_is_found_witness :
  getLatestSnapshot new (saveSnapshot new emptyStorage 10000 (snapshotAt 10000)).2
  = Some (snapshotAt 10000).
Proof.
  destruct (saved_snapshot_is_found new emptyStorage 10000 (snapshotAt 10000))
    as (_ & Hfresh & _).
  - vm_compute. discriminate.
  - apply Hfresh; reflexivity.
Defined.

End RecoveryProperties.

(** ** Runs of the battle server *)

Module ServerRuns.
Import BattleServer ServerProperties.

Lemma addPlayer_kept (socks : WebSocketRef → WebSocket) (now : Z) (room : BattleRoom)
    (p : string) (socket : WebSocketRef) :
  (length (players room) ≤ 2)%nat →
  (length (players room) = 2%nat → gameStarted room = true) →
  (gameStarted room = true → is_Some (currentTurn room)) →
  ∃ ok room' out,
    addPlayer socks now room p socket = Returns (ok, room', out) ∧
    roomKept (id room, room') ∧ createdAt room' = createdAt room.
Proof.
  intros Hlen Hstarted Hturn. unfold addPlayer, maxPlayers.
  destruct (Nat.leb_spec 2 (length (players room))) as [Hfull|Hfree].
  - eexists _, _, _. split; [done|]. split; [|done].
    repeat split; simpl; try lia; auto.
  - simpl. rewrite length_app. simpl.
    destruct (Nat.eqb_spec (length (players room) + 1) 2) as [Htwo|Hone].
    + unfold startGame. simpl.
      destruct (players room ++ _) as [|first rest] eqn:Hp.
      { by destruct (players room). }
      simpl. eexists _, _, _. split; [done|]. split; [|done].
      pose proof (f_equal length Hp) as Hl. rewrite length_app in Hl. simpl in Hl.
      unfold roomKept. simpl. rewrite ?length_app. simpl.
      repeat split; try lia; eauto.
    + eexists _, _, _. split; [done|]. split; [|done].
      unfold roomKept. simpl. rewrite length_app. simpl.
      repeat split; try lia; auto.
Qed.

Lemma mapSet_kept (key : string) (room : BattleRoom) (m : list (string * BattleRoom)) :
  roomKept (key, room) → Forall roomKept m → Forall roomKept (mapSet key room m).
Proof.
  intros Hroom. induction 1 as [|[k v] m Hkv Hm IH]; simpl.
  - apply Forall_cons. split; [done|apply Forall_nil_2].
  - destruct (String.eqb_spec k key) as [->|Hne]; apply Forall_cons; split; done.
Qed.

Lemma mapSet_keys {V : Type} (key : string) (value : V) (m : list (string * V)) :
  (mapSet key value m).*1 = if bool_decide (key ∈ m.*1) then m.*1 else m.*1 ++ [key].
Proof.
  induction m as [|[k v] m IH]; [done|].
  cbn [mapSet]. destruct (String.eqb_spec k key) as [->|Hne]; rewrite !fmap_cons; cbn [fst].
    + by rewrite bool_decide_eq_true_2 by left.
    + rewrite IH. case_bool_decide as Hin.
      * by rewrite bool_decide_eq_true_2 by by right.
      * rewrite bool_decide_eq_false_2; [done|].
        intros [->|H]%elem_of_cons; done.
Qed.

Lemma mapSet_NoDup {V : Type} (key : string) (value : V) (m : list (string * V)) :
  NoDup m.*1 → NoDup (mapSet key value m).*1.
Proof.
  intros H. rewrite mapSet_keys. case_bool_decide as Hin; [done|].
  apply NoDup_app. split; [done|]. split; [|apply NoDup_singleton].
  intros x Hx ->%list_elem_of_singleton. done.
Qed.

Lemma mapSet_roomsKept (key : string) (room : BattleRoom) (w : World) :
  roomKept (key, room) → roomsKept w → roomsKept (withRooms (mapSet key room (rooms w)) w).
Proof.
  intros Hroom [Hall Hnd]. split; simpl; [by apply mapSet_kept|by apply mapSet_NoDup].
Qed.

Lemma mapDelete_mapSet {V : Type} (key : string) (value : V) (m : list (string * V)) :
  mapDelete key (mapSet key value m) = mapDelete key m.
Proof.
  unfold mapDelete. induction m as [|[k v] m IH]; simpl.
  - by rewrite filter_cons_False by (simpl; auto).
  - destruct (String.eqb_spec k key) as [->|Hne].
    + by rewrite !filter_cons_False by (simpl; auto).
    + rewrite !filter_cons_True by done. by rewrite IH.
Qed.

Lemma filter_roomsKept (P : string * BattleRoom → Prop) `{∀ x, Decision (P x)} (w : World) :
  roomsKept w → roomsKept (withRooms (filter P (rooms w)) w).
Proof.
  intros [Hall Hnd]. split; simpl.
  - apply Forall_forall. intros x [_ Hx]%list_elem_of_filter.
    by apply (proj1 (Forall_forall _ _) Hall).
  - eapply sublist_NoDup; [done|]. apply fmap_sublist, sublist_filter.
Qed.

Lemma mapGet_elem_of {V : Type} (key : string) (value : V) (m : list (string * V)) :
  mapGet key m = Some value → (key, value) ∈ m.
Proof.
  induction m as [|[k v] m IH]; simpl; [done|].
  destruct (String.eqb_spec k key) as [->|Hne].
  - intros [= ->]. by left.
  - intros H. right. auto.
Qed.

Lemma mapGet_kept (key : string) (room : BattleRoom) (w : World) :
  roomsKept w → mapGet key (rooms w) = Some room → roomKept (key, room).
Proof.
  intros [Hall _] Hget. apply mapGet_elem_of in Hget.
  by eapply (proj1 (Forall_forall _ _) Hall) in Hget.
Qed.

Lemma emit_roomsKept (l : list Sent) (w : World) : roomsKept (emit l w) ↔ roomsKept w.
Proof. done. Qed.

Lemma send_roomsKept (w : World) (socket : WebSocketRef) (message : Message) :
  roomsKept (send w socket message) ↔ roomsKept w.
Proof. unfold send. by destruct (bool_decide _). Qed.

Lemma removePlayer_kept (key p : string) (room : BattleRoom) :
  roomKept (key, room) →
  players (removePlayer room p) = [] ∨ roomKept (key, removePlayer room p).
Proof.
  intros (Hid & Hlen & Hstarted & Hturn). unfold removePlayer.
  destruct (existsb (hasId p) (players room)) eqn:Hin; [|by right].
  simpl in *.
  destruct (removeFirst (hasId p) (players room)) as [|q rest] eqn:Hrest; [by left|].
  right. unfold roomKept. simpl.
  assert (Hl : length (removeFirst (hasId p) (players room)) = pred (length (players room))).
  { clear -Hin. induction (players room) as [|x l IH]; simpl in *; [done|].
    destruct (hasId p x); simpl in *; [done|]. rewrite IH by done.
    destruct l; simpl in *; [done|lia]. }
  rewrite Hrest in Hl. simpl in Hl.
  repeat split; simpl; try lia; auto.
Qed.

Lemma disconnect_roomsKept (socks : WebSocketRef → WebSocket) (now : Z) (p : string)
    (m : list (string * BattleRoom)) :
  Forall roomKept m → NoDup m.*1 →
  let m' := concat (fst <$> (disconnectFrom socks now p <$> m)) in
  Forall roomKept m' ∧ m'.*1 `sublist_of` m.*1.
Proof.
  intros Hall _. induction Hall as [|[k room] m Hroom Hm [IH1 IH2]]; simpl.
  - split; [done|]. apply sublist_nil_l.
  - destruct (existsb (hasId p) (players room)).
    + destruct (removePlayer_kept k p room Hroom) as [Hempty|Hroom'].
      * unfold isEmpty. rewrite Hempty. simpl. split; [done|]. by apply sublist_cons.
      * unfold isEmpty. destruct (players (removePlayer room p)) eqn:Hp.
        { destruct Hroom' as (_ & Hlen & _). simpl in Hlen. rewrite Hp in Hlen.
          simpl in Hlen. lia. }
        simpl. split; [by apply Forall_cons|]. by apply sublist_skip.
    + simpl. split; [by apply Forall_cons|]. by apply sublist_skip.
Qed.

Lemma matchPair_roomsKept (w : World) (now : Z) (roomId : string) (t1 t2 : Ticket) :
  roomsKept w → ∃ w', matchPair w now roomId t1 t2 = Returns w' ∧ roomsKept w'.
Proof.
  intros Hw. unfold matchPair.
  destruct (addPlayer_kept (sockets w) now (newRoom roomId now)
              (ticket_playerId t1) (ticket_ws t1))
    as (ok1 & room1 & out1 & -> & (Hid1 & Hlen1 & Hs1 & Ht1) & _); simpl; try done; try lia.
  cbn [mbind outcome_bind]. simpl in *.
  destruct (addPlayer_kept (sockets w) now room1 (ticket_playerId t2) (ticket_ws t2))
    as (ok2 & room2 & out2 & -> & Hroom2 & _); try done; try lia.
  cbn [mbind outcome_bind]. rewrite Hid1 in Hroom2.
  eexists. split; [done|].
  repeat apply send_roomsKept. apply emit_roomsKept. by apply mapSet_roomsKept.
Qed.

Lemma drain_roomsKept (now : Z) (roomIds : nat → string) (queue : list Ticket) :
  ∀ n w turn, (length queue ≤ n)%nat → roomsKept w →
    ∃ w', drain w now roomIds turn queue = Returns w' ∧ roomsKept w'.
Proof.
  intros n. revert queue. induction n as [|n IH]; intros queue w turn Hlen Hw.
  - destruct queue; [|simpl in Hlen; lia]. by eexists.
  - destruct queue as [|t1 [|t2 rest]]; [by eexists|by eexists|].
    change (drain w now roomIds turn (t1 :: t2 :: rest))
      with (w1 ← matchPair w now (roomIds turn) t1 t2; drain w1 now roomIds (S turn) rest).
    destruct (matchPair_roomsKept w now (roomIds turn) t1 t2 Hw) as (w1 & -> & Hw1).
    cbn [mbind outcome_bind]. apply IH; [simpl in Hlen; lia|done].
Qed.

Lemma step_roomsKept (w : World) (now : Z) (e : Event) :
  roomsKept w → ∃ w', step w now e = Returns w' ∧ roomsKept w'.
Proof.
  intros Hw. destruct e; simpl.
  - (* Connect *)
    eexists. split; [done|]. unfold handleConnect. by apply send_roomsKept.
  - (* CreateRoom *)
    unfold handleCreateRoom.
    destruct (addPlayer_kept (sockets w) now (newRoom roomId now) p socket)
      as (ok & room' & out & -> & Hroom & _); simpl; try done; try lia.
    eexists. split; [done|]. apply send_roomsKept, emit_roomsKept.
    by apply mapSet_roomsKept.
  - (* JoinRoom *)
    unfold handleJoinRoom.
    destruct (mapGet roomId (rooms w)) as [room|] eqn:Hget.
    2:{ eexists. split; [done|]. by apply send_roomsKept. }
    destruct (isFull room).
    { eexists. split; [done|]. by apply send_roomsKept. }
    destruct (mapGet_kept _ _ _ Hw Hget) as (Hid & Hlen & Hstarted & Hturn). simpl in *.
    destruct (addPlayer_kept (sockets w) now room p socket)
      as (ok & room' & out & -> & Hroom & _); try done; try lia.
    cbn [mbind outcome_bind]. rewrite Hid in Hroom.
    assert (Hk : roomsKept (emit out (withRooms (mapSet roomId room' (rooms w)) w))).
    { apply emit_roomsKept. by apply mapSet_roomsKept. }
    destruct (find _ (players room')); eexists; (split; [done|]);
      repeat apply send_roomsKept; done.
  - (* LeaveRoom *)
    eexists. split; [done|]. unfold handleLeaveRoom.
    destruct (mapGet roomId (rooms w)) as [room|] eqn:Hget; [|done].
    pose proof (mapGet_kept _ _ _ Hw Hget) as Hroom.
    destruct (removePlayer_kept roomId p room Hroom) as [Hempty|Hroom'].
    + unfold isEmpty. rewrite Hempty. simpl. rewrite mapDelete_mapSet.
      destruct (filter_roomsKept (λ kv, kv.1 ≠ roomId) w Hw) as [H1 H2]. by split.
    + unfold isEmpty. destruct (players (removePlayer room p)) eqn:Hp.
      { destruct Hroom' as (_ & Hlen & _). simpl in Hlen. rewrite Hp in Hlen.
        simpl in Hlen. lia. }
      simpl. apply emit_roomsKept. by apply mapSet_roomsKept.
  - (* Move *)
    eexists. split; [done|]. unfold handleMove.
    destruct (mapGet roomId (rooms w)) as [room|] eqn:Hget; [|done].
    pose proof (mapGet_kept _ _ _ Hw Hget) as Hroom.
    simpl. apply emit_roomsKept. by apply mapSet_roomsKept.
  - (* Chat *)
    eexists. split; [done|]. unfold handleChat.
    destruct (startsWith "/matchmaking" text); [done|].
    destruct (startsWith "/cancel_matchmaking" text); [done|].
    by destruct (mapGet roomId (rooms w)).
  - (* Ping *)
    eexists. split; [done|]. by apply send_roomsKept.
  - (* MatchmakingTick *)
    by eapply drain_roomsKept.
  - (* CleanupTick *)
    eexists. split; [done|]. by apply filter_roomsKept.
  - (* Close *)
    eexists. split; [done|]. unfold onClose, handleDisconnect. simpl.
    rewrite bool_decide_eq_true_2 by done. simpl.
    destruct (ws_playerId (sockets w socket)) as [p|]; [|done].
    destruct (String.eqb p ""); [done|].
    destruct Hw as [Hall Hnd].
    destruct (disconnect_roomsKept
                (λ s, if bool_decide (s = socket)
                      then {| readyState := CLOSED; ws_playerId := ws_playerId (sockets w s) |}
                      else sockets w s) now p (rooms w) Hall Hnd) as [H1 H2].
    split; simpl; [done|]. by eapply sublist_NoDup.
  - (* StateSync *)
    eexists. split; [done|]. unfold handleStateSync.
    destruct (mapGet roomId (rooms w)); [|done]. by apply emit_roomsKept.
  - (* Unknown *)
    by eexists.
Qed.

(** Whatever messages (of each type that [handleMessage] dispatches, with the
    fields that their handlers read, and frames that it ignores), timer ticks
    and closes the server gets after its start, no handler throws, and every
    room it keeps is filed under its own id, has one or two players, is
    started when it has two and has a player to move when started; no id is
    filed twice. *)
Theorem server_keeps_rooms (events : list (Z * Event)) :
  ∃ w, steps initialWorld events = Returns w ∧ roomsKept w.
Proof.
  assert (∀ events w, roomsKept w → ∃ w', steps w events = Returns w' ∧ roomsKept w') as H.
  { clear. induction events as [|[now e] events IH]; intros w Hw; simpl.
    - by exists w.
    - destruct (step_roomsKept w now e Hw) as (w1 & -> & Hw1).
      cbn [mbind outcome_bind]. by apply IH. }
  apply H. split; [apply Forall_nil_2|apply NoDup_nil_2].
Qed.

(** [cleanupRooms] on rooms as the server keeps them: the rooms created
    more than an hour before are deleted and the others stay, in order;
    players of a deleted room are sent nothing, and clients and queue are
    untouched; a second run at the same time changes nothing. *)
Theorem cleanupRooms_by_age (w : World) (now : Z) :
  roomsKept w →
  rooms (cleanupRooms w now)
  = filter (λ entry, (now - createdAt entry.2 ≤ 3600000)%Z) (rooms w) ∧
  sent (cleanupRooms w now) = sent w ∧
  clients (cleanupRooms w now) = clients w ∧
  matchmakingQueue (cleanupRooms w now) = matchmakingQueue w ∧
  cleanupRooms (cleanupRooms w now) now = cleanupRooms w now.
Proof.
  intros [Hall _]. unfold cleanupRooms, maxRoomAge. simpl. repeat split.
  - induction Hall as [|[k room] m Hroom Hm IH]; [done|].
    rewrite !filter_cons, IH. simpl.
    destruct Hroom as (_ & Hlen & _). simpl in Hlen.
    assert (Hne : isEmpty room = false).
    { unfold isEmpty. apply Nat.eqb_neq. lia. }
    rewrite Hne.
    destruct (decide (now - createdAt room ≤ 3600000)%Z).
    + rewrite decide_True; [done|]. intros [?|?]; [done|lia].
    + rewrite decide_False; [done|]. intros H. apply H. right. lia.
  - unfold withRooms. simpl. f_equal.
    rewrite list_filter_filter. apply list_filter_iff. intros x. tauto.
Qed.

Lemma removeFirst_absent {A : Type} (test : A → bool) (l : list A) :
  (∀ x, x ∈ l → test x = false) → removeFirst test l = l.
Proof.
  induction l as [|x l IH]; intros H; simpl; [done|].
  rewrite (H x) by left. f_equal. apply IH. intros y Hy. apply H. by right.
Qed.

Lemma removeFirst_app_present {A : Type} (test : A → bool) (l k : list A) :
  existsb test l = true → removeFirst test (l ++ k) = removeFirst test l ++ k.
Proof.
  induction l as [|x l IH]; simpl; [done|].
  destruct (test x); simpl; [done|]. intros H. by rewrite IH.
Qed.

Lemma removeFirst_app_absent {A : Type} (test : A → bool) (l k : list A) :
  existsb test l = false → removeFirst test (l ++ k) = l ++ removeFirst test k.
Proof.
  induction l as [|x l IH]; simpl; [done|].
  destruct (test x); simpl; [done|]. intros H. by rewrite IH.
Qed.

(** A match request puts a ticket at the end of the queue, and the cancel of
    the same player takes one ticket of that player out: with no earlier
    ticket of the player the queue is as before the request; with an earlier
    one it is that earlier ticket that goes and the new one stays.  Neither
    message is answered. *)
Theorem matchmaking_cancel_round_trip (w : World) (now now' : Z)
    (socket socket' : WebSocketRef) (request cancel : Message) (roomId roomId' : string) :
  playerId cancel = playerId request →
  let p := playerId request in
  let ticket := {| ticket_playerId := p; ticket_ws := socket; ticket_timestamp := now |} in
  let w1 := handleChat w now socket request roomId "/matchmaking" in
  let w2 := handleChat w1 now' socket' cancel roomId' "/cancel_matchmaking" in
  matchmakingQueue w1 = matchmakingQueue w ++ [ticket] ∧
  (existsb (ticketOf p) (matchmakingQueue w) = false →
     matchmakingQueue w2 = matchmakingQueue w) ∧
  (existsb (ticketOf p) (matchmakingQueue w) = true →
     matchmakingQueue w2 = removeFirst (ticketOf p) (matchmakingQueue w) ++ [ticket]) ∧
  rooms w2 = rooms w ∧ sent w2 = sent w ∧ clients w2 = clients w.
Proof.
  intros Hp p ticket w1 w2. subst w1 w2. unfold handleChat. simpl. rewrite Hp.
  fold p. fold ticket. repeat split.
  - intros Habsent. rewrite removeFirst_app_absent by done. simpl.
    replace (ticketOf p ticket) with true; [by rewrite app_nil_r|].
    symmetry. by apply bool_decide_eq_true_2.
  - intros Hpresent. by rewrite removeFirst_app_present.
Qed.

(** A player id is registered for the socket that said CONNECT last.  When
    a player connects on a second socket and the first one then closes, the
    id is taken out of [clients] although the second socket is still there
    and still carries it. *)
Theorem close_unregisters_player (w : World) (t1 t2 t3 : Z)
    (socket socket' : WebSocketRef) (p : string) :
  socket ≠ socket' → p ≠ "" →
  let w1 := handleConnect w t1 socket p in
  let w2 := handleConnect w1 t2 socket' p in
  let w3 := onClose w2 t3 socket in
  clients w1 !! p = Some socket ∧
  clients w2 !! p = Some socket' ∧
  clients w3 !! p = None ∧
  ws_playerId (sockets w3 socket') = Some p ∧
  readyState (sockets w3 socket') = readyState (sockets w socket') ∧
  (∀ q, q ≠ p → clients w3 !! q = clients w !! q).
Proof.
  intros Hne Hp w1 w2 w3.
  assert (Hsend : ∀ v s m, clients (send v s m) = clients v ∧ sockets (send v s m) = sockets v).
  { intros v s m. unfold send. by destruct (bool_decide _). }
  assert (H1 : clients w1 = <[p := socket]> (clients w)).
  { unfold w1, handleConnect. by rewrite (proj1 (Hsend _ _ _)). }
  assert (S1 : sockets w1 = λ s, if bool_decide (s = socket)
                                 then {| readyState := readyState (sockets w s);
                                         ws_playerId := Some p |}
                                 else sockets w s).
  { unfold w1, handleConnect. by rewrite (proj2 (Hsend _ _ _)). }
  assert (H2 : clients w2 = <[p := socket']> (clients w1)).
  { unfold w2, handleConnect. by rewrite (proj1 (Hsend _ _ _)). }
  assert (S2 : sockets w2 = λ s, if bool_decide (s = socket')
                                 then {| readyState := readyState (sockets w1 s);
                                         ws_playerId := Some p |}
                                 else sockets w1 s).
  { unfold w2, handleConnect. by rewrite (proj2 (Hsend _ _ _)). }
  assert (Hreg : ws_playerId (sockets w2 socket) = Some p).
  { rewrite S2, S1. rewrite bool_decide_eq_false_2 by done.
    by rewrite bool_decide_eq_true_2. }
  assert (H3 : clients w3 = delete p (clients w2)
               ∧ sockets w3 = λ s, if bool_decide (s = socket)
                                   then {| readyState := CLOSED;
                                           ws_playerId := ws_playerId (sockets w2 s) |}
                                   else sockets w2 s).
  { unfold w3, onClose, handleDisconnect. simpl.
    rewrite bool_decide_eq_true_2 by done. simpl. rewrite Hreg.
    destruct (String.eqb_spec p ""); done. }
  destruct H3 as [H3 S3].
  repeat split.
  - rewrite H1. apply lookup_insert_eq.
  - rewrite H2. apply lookup_insert_eq.
  - rewrite H3. apply lookup_delete_eq.
  - rewrite S3, S2. rewrite bool_decide_eq_false_2 by done.
    by rewrite bool_decide_eq_true_2.
  - rewrite S3, S2, S1. rewrite bool_decide_eq_false_2 by done.
    rewrite bool_decide_eq_true_2 by done. simpl.
    by rewrite ?bool_decide_eq_false_2 by done.
  - intros q Hq. rewrite H3, H2, H1.
    rewrite lookup_delete_ne by done. by rewrite !lookup_insert_ne by done.
Qed.

Lemma mapGet_absent {V : Type} (key : string) (m : list (string * V)) :
  key ∉ m.*1 → mapGet key m = None.
Proof.
  induction m as [|[k v] m IH]; [done|]. rewrite fmap_cons. cbn [fst mapGet].
  intros H. destruct (String.eqb_spec k key) as [->|Hne].
  - destruct H. by left.
  - apply IH. intros Hin. apply H. by right.
Qed.

Lemma mapGet_mapDelete_eq {V : Type} (key : string) (m : list (string * V)) :
  mapGet key (mapDelete key m) = None.
Proof.
  apply mapGet_absent. unfold mapDelete.
  intros ((k & v) & Hk & [Hne _]%list_elem_of_filter)%list_elem_of_fmap.
  simpl in *. by subst.
Qed.

Lemma mapGet_mapDelete_ne {V : Type} (key key' : string) (m : list (string * V)) :
  key ≠ key' → mapGet key' (mapDelete key m) = mapGet key' m.
Proof.
  intros Hne. unfold mapDelete. induction m as [|[k v] m IH]; [done|].
  rewrite filter_cons. simpl. destruct (decide (k ≠ key)) as [Hk|Hk]; simpl.
  - by rewrite IH.
  - apply dec_stable in Hk. subst k. rewrite IH.
    by destruct (String.eqb_spec key key').
Qed.

(** [handleLeaveRoom]: the leaver is taken out before the notice goes out,
    so PLAYER_LEFT reaches the players that stay and whose socket is open; a
    room left empty is deleted; the other rooms, the queue and the clients
    stay as they are, and the room stays started with the same player to
    move. *)
Theorem leave_room_notifies_rest (w : World) (now : Z) (roomId p : string)
    (room : BattleRoom) :
  mapGet roomId (rooms w) = Some room →
  let w' := handleLeaveRoom w now roomId p in
  let room' := removePlayer room p in
  players room' = removeFirst (hasId p) (players room) ∧
  sent w' = sent w
            ++ ((λ q, (ws q, serverMessage PLAYER_LEFT (PlayerData p) now None))
                <$> filter (λ q, readyState (sockets w (ws q)) = OPEN) (players room')) ∧
  mapGet roomId (rooms w') = (if isEmpty room' then None else Some room') ∧
  (∀ other, other ≠ roomId → mapGet other (rooms w') = mapGet other (rooms w)) ∧
  gameStarted room' = gameStarted room ∧ currentTurn room' = currentTurn room ∧
  matchmakingQueue w' = matchmakingQueue w ∧ clients w' = clients w.
Proof.
  intros Hget w' room'. subst w' room'. unfold handleLeaveRoom. rewrite Hget.
  assert (Hplayers : players (removePlayer room p) = removeFirst (hasId p) (players room)).
  { unfold removePlayer. destruct (existsb (hasId p) (players room)) eqn:Hin; [done|].
    symmetry. apply removeFirst_absent. intros x Hx.
    destruct (hasId p x) eqn:Hx'; [|done].
    assert (existsb (hasId p) (players room) = true); [|congruence].
    apply existsb_exists. exists x. split; [by apply list_elem_of_In|done]. }
  assert (Hsame : gameStarted (removePlayer room p) = gameStarted room
                  ∧ currentTurn (removePlayer room p) = currentTurn room).
  { unfold removePlayer. by destruct (existsb _ _). }
  split; [done|]. split.
  { rewrite broadcast_filter.
    destruct (isEmpty (removePlayer room p)); simpl; f_equal; f_equal;
      apply list_filter_iff; intros q; split; [by intros [_ ?]|done|by intros [_ ?]|done]. }
  split.
  { destruct (isEmpty (removePlayer room p)); simpl.
    - apply mapGet_mapDelete_eq.
    - apply mapGet_mapSet_eq. }
  split.
  { intros other Hother. destruct (isEmpty (removePlayer room p)); simpl.
    - rewrite mapGet_mapDelete_ne by done. by apply mapGet_mapSet_ne.
    - by apply mapGet_mapSet_ne. }
  destruct Hsame as [-> ->]. by destruct (isEmpty (removePlayer room p)).
Qed.

Lemma mapGet_disconnect (socks : WebSocketRef → WebSocket) (now : Z) (p key : string)
    (room : BattleRoom) (m : list (string * BattleRoom)) :
  NoDup m.*1 → mapGet key m = Some room →
  mapGet key (concat (fst <$> (disconnectFrom socks now p <$> m)))
  = (if existsb (hasId p) (players room)
     then (if isEmpty (removePlayer room p) then None else Some (removePlayer room p))
     else Some room) ∧
  (existsb (hasId p) (players room) = true →
   ∀ x, x ∈ broadcast socks room
              (serverMessage PLAYER_DISCONNECTED (PlayerData p) now None) (Some p) →
        x ∈ concat (snd <$> (disconnectFrom socks now p <$> m))).
Proof.
  induction m as [|[k v] m IH]; [done|].
  rewrite fmap_cons. cbn [fst]. intros [Hk Hnd]%NoDup_cons. cbn [mapGet].
  rewrite !fmap_cons. cbn [concat].
  assert (Hkeys : ∀ key', key' ∉ m.*1 →
            mapGet key' (concat (fst <$> (disconnectFrom socks now p <$> m))) = None).
  { clear. intros key' Hkey. apply mapGet_absent. intros Hin. apply Hkey.
    clear Hkey. induction m as [|[k v] m IH]; [done|].
    rewrite !fmap_cons in Hin. cbn [concat] in Hin. rewrite fmap_app in Hin.
    apply elem_of_app in Hin as [Hin|Hin].
    - rewrite fmap_cons. apply elem_of_cons. left. unfold disconnectFrom in Hin.
      destruct (existsb (hasId p) (players v)); simpl in Hin.
      + destruct (isEmpty (removePlayer v p)); simpl in Hin.
        * by apply elem_of_nil in Hin.
        * by apply list_elem_of_singleton in Hin.
      + by apply list_elem_of_singleton in Hin.
    - rewrite fmap_cons. apply elem_of_cons. right. by apply IH. }
  destruct (String.eqb_spec k key) as [->|Hne].
  - intros [= ->]. unfold disconnectFrom at 1 3.
    destruct (existsb (hasId p) (players room)) eqn:Hin; cbn [fst snd].
    + split.
      * destruct (isEmpty (removePlayer room p)); simpl.
        -- by apply Hkeys.
        -- by rewrite String.eqb_refl.
      * intros _ x Hx. apply elem_of_app. by left.
    + split; [|done]. simpl. by rewrite String.eqb_refl.
  - intros Hget. destruct (IH Hnd Hget) as [IH1 IH2]. split.
    + rewrite <- IH1. unfold disconnectFrom at 1.
      destruct (existsb (hasId p) (players v)); cbn [fst].
      * destruct (isEmpty (removePlayer v p)); simpl; [done|].
        by destruct (String.eqb_spec k key).
      * simpl. by destruct (String.eqb_spec k key).
    + intros Hin x Hx. apply elem_of_app. right. by apply IH2.
Qed.

(** The close of a registered player's socket, room by room: a room without
    the player stays as it is; from a room with the player the player is
    taken out, the room is deleted when that leaves it empty, and each other
    player of it whose socket is open is sent PLAYER_DISCONNECTED. *)
Theorem close_leaves_rooms (w : World) (now : Z) (socket : WebSocketRef)
    (p key : string) (room : BattleRoom) :
  NoDup (rooms w).*1 →
  ws_playerId (sockets w socket) = Some p → p ≠ "" →
  mapGet key (rooms w) = Some room →
  let w' := onClose w now socket in
  (existsb (hasId p) (players room) = false → mapGet key (rooms w') = Some room) ∧
  (existsb (hasId p) (players room) = true →
     mapGet key (rooms w')
     = (if isEmpty (removePlayer room p) then None else Some (removePlayer room p)) ∧
     ∀ q, q ∈ players room → player_id q ≠ p → ws q ≠ socket →
          readyState (sockets w (ws q)) = OPEN →
          (ws q, serverMessage PLAYER_DISCONNECTED (PlayerData p) now None) ∈ sent w').
Proof.
  intros Hnd Hreg Hp Hget w'. subst w'. unfold onClose, handleDisconnect. simpl.
  rewrite bool_decide_eq_true_2 by done. simpl. rewrite Hreg.
  destruct (String.eqb_spec p "") as [|_]; [done|]. simpl.
  set (socks := λ s, if bool_decide (s = socket)
                     then {| readyState := CLOSED; ws_playerId := ws_playerId (sockets w s) |}
                     else sockets w s).
  destruct (mapGet_disconnect socks now p key room (rooms w) Hnd Hget) as [Hrooms Hsent].
  split.
  - intros Hin. by rewrite Hrooms, Hin.
  - intros Hin. rewrite Hrooms, Hin. split; [done|].
    intros q Hq Hid Hws Hopen. apply elem_of_app. right. apply Hsent; [done|].
    rewrite broadcast_filter. apply list_elem_of_fmap. exists q. split; [done|].
    apply list_elem_of_filter. split; [|done]. split; [congruence|].
    unfold socks. by rewrite bool_decide_eq_false_2.
Qed.

Lemma quiet_refl (s : WebSocketRef) (w : World) : quiet s w w.
Proof. by intros H. Qed.

Lemma quiet_trans (s : WebSocketRef) (w1 w2 w3 : World) :
  quiet s w1 w2 → quiet s w2 w3 → quiet s w1 w3.
Proof.
  intros H12 H23 H1. destruct (H12 H1) as [H2 Hr2]. destruct (H23 H2) as [H3 Hr3].
  split; [done|congruence].
Qed.

Lemma none_to_closed (s : WebSocketRef) (w : World) (l : list Sent) :
  (∀ m, m ∈ l → readyState (sockets w m.1) = OPEN) → ¬ isOpen w s →
  filter (λ m : Sent, m.1 = s) l = [].
Proof.
  intros Hl Hs. induction l as [|m l IH]; [done|].
  rewrite filter_cons_False.
  - apply IH. intros m' Hm'. apply Hl. by right.
  - intros <-. apply Hs. apply Hl. by left.
Qed.

Lemma quiet_emit (s : WebSocketRef) (w : World) (l : list Sent) :
  (∀ m, m ∈ l → readyState (sockets w m.1) = OPEN) → quiet s w (emit l w).
Proof.
  intros Hl Hs. split; [done|]. unfold received, emit. simpl.
  by rewrite filter_app, (none_to_closed s w l), app_nil_r.
Qed.

Lemma quiet_send (s : WebSocketRef) (w : World) (socket : WebSocketRef) (m : Message) :
  quiet s w (send w socket m).
Proof.
  unfold send. case_bool_decide as Hopen; [|apply quiet_refl].
  apply quiet_emit. by intros m' ->%list_elem_of_singleton.
Qed.

Lemma quiet_broadcast (s : WebSocketRef) (w : World) (socks : WebSocketRef → WebSocket)
    (room : BattleRoom) (m : Message) (ex : option string) :
  (∀ x, readyState (socks x) = OPEN → readyState (sockets w x) = OPEN) →
  quiet s w (emit (broadcast socks room m ex) w).
Proof.
  intros Hsocks. apply quiet_emit. intros x Hx. rewrite broadcast_filter in Hx.
  apply list_elem_of_fmap in Hx as (q & -> & [[_ Hq] _]%list_elem_of_filter). simpl. auto.
Qed.

Lemma quiet_rooms (s : WebSocketRef) (w : World) (r : list (string * BattleRoom)) :
  quiet s w (withRooms r w).
Proof. by intros H. Qed.

Lemma quiet_queue (s : WebSocketRef) (w : World) (q : list Ticket) :
  quiet s w (withQueue q w).
Proof. by intros H. Qed.

Lemma addPlayer_out (socks : WebSocketRef → WebSocket) (now : Z) (room room' : BattleRoom)
    (p : string) (socket : WebSocketRef) (ok : bool) (out : list Sent) :
  addPlayer socks now room p socket = Returns (ok, room', out) →
  ∀ m, m ∈ out → readyState (socks m.1) = OPEN.
Proof.
  unfold addPlayer. destruct (maxPlayers <=? length (players room))%nat.
  { intros [= <- <- <-] m Hm. by apply elem_of_nil in Hm. }
  destruct (_ =? maxPlayers)%nat.
  - unfold startGame. destruct (players _) eqn:Hp; [done|]. simpl.
    intros [= <- <- <-] m Hm. rewrite broadcast_filter in Hm.
    by apply list_elem_of_fmap in Hm as (q & -> & [[_ Hq] _]%list_elem_of_filter).
  - intros [= <- <- <-] m Hm. by apply elem_of_nil in Hm.
Qed.

Lemma quiet_matchPair (s : WebSocketRef) (w w' : World) (now : Z) (roomId : string)
    (t1 t2 : Ticket) :
  matchPair w now roomId t1 t2 = Returns w' → quiet s w w'.
Proof.
  unfold matchPair.
  destruct (addPlayer (sockets w) now (newRoom roomId now) _ _)
    as [[[ok1 room1] out1]| |] eqn:H1; [|done|done].
  cbn [mbind outcome_bind].
  destruct (addPlayer (sockets w) now room1 _ _)
    as [[[ok2 room2] out2]| |] eqn:H2; [|done|done].
  cbn [mbind outcome_bind]. intros [= <-].
  eapply quiet_trans; [|apply quiet_send].
  eapply quiet_trans; [|apply quiet_send].
  eapply quiet_trans; [apply (quiet_rooms s w (mapSet roomId room2 (rooms w)))|].
  apply quiet_emit. simpl. intros m [Hm|Hm]%elem_of_app.
  - apply (addPlayer_out _ _ _ _ _ _ _ _ H1 m Hm).
  - apply (addPlayer_out _ _ _ _ _ _ _ _ H2 m Hm).
Qed.

Lemma quiet_drain (s : WebSocketRef) (now : Z) (roomIds : nat → string) :
  ∀ n queue w w' turn, (length queue ≤ n)%nat →
    drain w now roomIds turn queue = Returns w' → quiet s w w'.
Proof.
  induction n as [|n IH]; intros queue w w' turn Hlen Hd.
  - destruct queue; [|simpl in Hlen; lia]. simpl in Hd. injection Hd as <-.
    apply quiet_queue.
  - destruct queue as [|t1 [|t2 rest]].
    + simpl in Hd. injection Hd as <-. apply quiet_queue.
    + simpl in Hd. injection Hd as <-. apply quiet_queue.
    + change (drain w now roomIds turn (t1 :: t2 :: rest))
        with (w1 ← matchPair w now (roomIds turn) t1 t2; drain w1 now roomIds (S turn) rest)
        in Hd.
      destruct (matchPair w now (roomIds turn) t1 t2) as [w1| |] eqn:Hm; [|done|done].
      cbn [mbind outcome_bind] in Hd.
      eapply quiet_trans; [by eapply quiet_matchPair|].
      eapply IH; [|done]. simpl in Hlen. lia.
Qed.

Lemma quiet_step (s : WebSocketRef) (w w' : World) (now : Z) (e : Event) :
  step w now e = Returns w' → quiet s w w'.
Proof.
  destruct e; simpl.
  - intros [= <-]. unfold handleConnect.
    eapply quiet_trans; [|apply quiet_send].
    intros Hs. split; [|done]. unfold isOpen in *. simpl. by case_bool_decide; subst.
  - unfold handleCreateRoom.
    destruct (addPlayer _ _ _ _ _) as [[[ok room'] out]| |] eqn:Ha; [|done|done].
    cbn [mbind outcome_bind]. intros [= <-].
    eapply quiet_trans; [|apply quiet_send].
    eapply quiet_trans; [apply (quiet_rooms s w (mapSet roomId room' (rooms w)))|].
    apply quiet_emit. simpl. apply (addPlayer_out _ _ _ _ _ _ _ _ Ha).
  - unfold handleJoinRoom.
    destruct (mapGet roomId (rooms w)) as [room|]; [|intros [= <-]; apply quiet_send].
    destruct (isFull room); [intros [= <-]; apply quiet_send|].
    destruct (addPlayer _ _ _ _ _) as [[[ok room'] out]| |] eqn:Ha; [|done|done].
    cbn [mbind outcome_bind].
    assert (Hq : quiet s w (emit out (withRooms (mapSet roomId room' (rooms w)) w))).
    { eapply quiet_trans; [apply (quiet_rooms s w (mapSet roomId room' (rooms w)))|].
      apply quiet_emit. simpl. apply (addPlayer_out _ _ _ _ _ _ _ _ Ha). }
    destruct (find _ (players room')); intros [= <-].
    + eapply quiet_trans; [|apply quiet_send].
      eapply quiet_trans; [|apply quiet_send]. done.
    + eapply quiet_trans; [|apply quiet_send]. done.
  - intros [= <-]. unfold handleLeaveRoom.
    destruct (mapGet roomId (rooms w)) as [room|]; [|apply quiet_refl].
    assert (Hq : quiet s w
                   (emit (broadcast (sockets w) (removePlayer room p)
                            (serverMessage PLAYER_LEFT (PlayerData p) now None) None)
                      (withRooms (mapSet roomId (removePlayer room p) (rooms w)) w))).
    { eapply quiet_trans;
        [apply (quiet_rooms s w (mapSet roomId (removePlayer room p) (rooms w)))|].
      by apply quiet_broadcast. }
    destruct (isEmpty _); [|done].
    eapply quiet_trans; [exact Hq|]. apply quiet_rooms.
  - intros [= <-]. unfold handleMove.
    destruct (mapGet roomId (rooms w)) as [room|]; [|apply quiet_refl].
    unfold roomHandleMove.
    eapply quiet_trans; [apply quiet_rooms|]. by apply quiet_broadcast.
  - intros [= <-]. unfold handleChat.
    destruct (startsWith "/matchmaking" text); [apply quiet_queue|].
    destruct (startsWith "/cancel_matchmaking" text); [apply quiet_queue|].
    destruct (mapGet roomId (rooms w)) as [room|]; [|apply quiet_refl].
    by apply quiet_broadcast.
  - intros [= <-]. apply quiet_send.
  - unfold processMatchmakingQueue. by apply (quiet_drain s now roomIds _ _ _ _ _ (le_n _)).
  - intros [= <-]. apply quiet_rooms.
  - intros [= <-]. unfold onClose, handleDisconnect. simpl.
    rewrite bool_decide_eq_true_2 by done. simpl.
    set (socks := λ x, if bool_decide (x = socket)
                       then {| readyState := CLOSED; ws_playerId := ws_playerId (sockets w x) |}
                       else sockets w x).
    assert (Hclosed : ∀ x, readyState (socks x) = OPEN → readyState (sockets w x) = OPEN).
    { intros x. unfold socks. by case_bool_decide. }
    destruct (ws_playerId (sockets w socket)) as [p|].
    2:{ intros Hs. split; [|done]. unfold isOpen. simpl. intros H. by apply Hs, Hclosed. }
    destruct (String.eqb p "").
    { intros Hs. split; [|done]. unfold isOpen. simpl. intros H. by apply Hs, Hclosed. }
    intros Hs. split.
    { unfold isOpen. simpl. intros H. by apply Hs, Hclosed. }
    unfold received. simpl. rewrite filter_app.
    replace (filter (λ m : Sent, m.1 = s)
               (concat (snd <$> (disconnectFrom socks now p <$> rooms w)))) with (@nil Sent).
    { by rewrite app_nil_r. }
    symmetry. induction (rooms w) as [|[k room] m IH]; [done|].
    rewrite !fmap_cons. cbn [concat]. rewrite filter_app, IH, app_nil_r.
    unfold disconnectFrom. destruct (existsb (hasId p) (players room)); [|done].
    cbn [snd]. apply (none_to_closed s w); [|done].
    intros x Hx. rewrite broadcast_filter in Hx.
    apply list_elem_of_fmap in Hx as (q & -> & [[_ Hq] _]%list_elem_of_filter). simpl. auto.
  - intros [= <-]. unfold handleStateSync.
    destruct (mapGet roomId (rooms w)) as [room|]; [|apply quiet_refl].
    by apply quiet_broadcast.
  - intros [= <-]. apply quiet_refl.
Qed.

Lemma steps_quiet (events : list (Z * Event)) :
  ∀ w w' s,
    steps w events = Returns w' → ¬ isOpen w s →
    ¬ isOpen w' s ∧ received w' s = received w s.
Proof.
  induction events as [|[now e] events IH]; intros w w' s Hsteps Hs; simpl in Hsteps.
  - by injection Hsteps as <-.
  - destruct (step w now e) as [w1| |] eqn:Hstep; [|done|done].
    cbn [mbind outcome_bind] in Hsteps.
    destruct (quiet_step s w w1 now e Hstep Hs) as [Hs1 Hr1].
    destruct (IH w1 w' s Hsteps Hs1) as [Hs' Hr']. split; [done|congruence].
Qed.

Lemma addPlayer_returns (socks : WebSocketRef → WebSocket) (now : Z) (room : BattleRoom)
    (p : string) (socket : WebSocketRef) :
  ∃ r, addPlayer socks now room p socket = Returns r.
Proof.
  unfold addPlayer. destruct (maxPlayers <=? _)%nat; [by eexists|].
  simpl. destruct (_ =? maxPlayers)%nat; [|by eexists].
  unfold startGame. simpl. destruct (players room); simpl; by eexists.
Qed.

Lemma step_returns (w : World) (now : Z) (e : Event) : ∃ w', step w now e = Returns w'.
Proof.
  destruct e as [socket p|roomId socket p mid|socket roomId p mid|roomId p
                |socket p roomId moveData|socket message roomId text|socket t|roomIds
                | |socket|p roomId state| ];
    cbn [step]; try (eexists; reflexivity).
  - unfold handleJoinRoom.
    destruct (mapGet roomId (rooms w)) as [room|]; [|by eexists].
    destruct (isFull room); [by eexists|].
    destruct (addPlayer_returns (sockets w) now room p socket) as [[[ok room'] out] ->].
    cbn [mbind outcome_bind]. destruct (find _ _); by eexists.
  - unfold processMatchmakingQueue.
    match goal with |- context [drain ?w0 now roomIds ?t ?q] =>
      destruct (drain_spec now roomIds (length q) q w0 t (le_n _)) as (w' & ? & ? & -> & _)
    end.
    by eexists.
Qed.

Lemma steps_returns (events : list (Z * Event)) : ∀ w, ∃ w', steps w events = Returns w'.
Proof.
  induction events as [|[now e] events IH]; intros w; simpl; [by eexists|].
  destruct (step_returns w now e) as [w1 ->]. cbn [mbind outcome_bind]. apply IH.
Qed.

(** A socket that is not open stays so and is sent nothing, whatever the
    server handles afterwards: messages of each type that [handleMessage]
    dispatches (CONNECT, CREATE_ROOM, JOIN_ROOM, LEAVE_ROOM, MOVE, STATE_SYNC,
    CHAT, PING) with the fields that their handlers read, frames that it
    ignores, ticks of the two timers and closes of sockets; no handler throws
    on the way. *)
Theorem closed_socket_gets_nothing (events : list (Z * Event)) (w : World)
    (s : WebSocketRef) :
  ¬ isOpen w s →
  ∃ w', steps w events = Returns w' ∧ ¬ isOpen w' s ∧ received w' s = received w s.
Proof.
  intros Hs. destruct (steps_returns events w) as [w' Hw']. exists w'. split; [done|].
  by apply (steps_quiet events w w' s).
Qed.

Lemma exampleWorld_roomsKept : roomsKept exampleWorld.
Proof.
  split.
  - apply Forall_cons. split; [|apply Forall_nil_2].
    unfold roomKept. simpl. repeat split; try lia; eauto.
  - apply (NoDup_singleton "R").
Qed.

Lemma cleanupRooms_by_age_witness :
  rooms (cleanupRooms exampleWorld 3600000) = rooms exampleWorld ∧
  rooms (cleanupRooms exampleWorld 3600001) = [].
Proof.
  split.
  - destruct (cleanupRooms_by_age exampleWorld 3600000 exampleWorld_roomsKept) as [Hrooms _].
    rewrite Hrooms. reflexivity.
  - destruct (cleanupRooms_by_age exampleWorld 3600001 exampleWorld_roomsKept) as [Hrooms _].
    rewrite Hrooms. reflexivity.
Defined.

Lemma matchmaking_cancel_round_trip_witness :
  matchmakingQueue (handleChat (requestMatch exampleWorld 10 8 "Y") 12 8
                      (cancelRequest 12 "Y") "R" "/cancel_matchmaking")
  = [].
Proof.
  destruct (matchmaking_cancel_round_trip exampleWorld 10 12 8 8
              (matchRequest 10 "Y") (cancelRequest 12 "Y") "" "R" eq_refl)
    as (_ & Habsent & _).
  apply Habsent. reflexivity.
Defined.

Lemma close_unregisters_player_witness :
  let w2 := handleConnect (handleConnect initialWorld 1 3 "Z") 2 4 "Z" in
  clients w2 !! "Z" = Some 4%nat ∧
  clients (onClose w2 3 3) !! "Z" = None ∧
  ws_playerId (sockets (onClose w2 3 3) 4) = Some "Z".
Proof.
  intros w2.
  destruct (close_unregisters_player initialWorld 1 2 3 3 4 "Z")
    as (_ & Hsecond & Hgone & Hstill & _).
  - discriminate.
  - discriminate.
  - split; [exact Hsecond|]. split; [exact Hgone|exact Hstill].
Defined.

Lemma leave_room_notifies_rest_witness :
  sent (handleLeaveRoom exampleWorld 50 "R" "A")
  = [(2%nat, serverMessage PLAYER_LEFT (PlayerData "A") 50 None)] ∧
  (players <$> mapGet "R" (rooms (handleLeaveRoom exampleWorld 50 "R" "A")))
  = Some [ {| player_id := "B"; ws := 2 |} ].
Proof.
  destruct (leave_room_notifies_rest exampleWorld 50 "R" "A" exampleRoom eq_refl)
    as (_ & Hsent & Hroom & _).
  split.
  - rewrite Hsent. reflexivity.
  - rewrite Hroom. reflexivity.
Defined.

Lemma close_leaves_rooms_witness :
  (2%nat, serverMessage PLAYER_DISCONNECTED (PlayerData "A") 60 None)
    ∈ sent (onClose exampleWorld 60 1) ∧
  (players <$> mapGet "R" (rooms (onClose exampleWorld 60 1)))
  = Some [ {| player_id := "B"; ws := 2 |} ].
Proof.
  destruct (close_leaves_rooms exampleWorld 60 1 "A" "R" exampleRoom) as [_ Hin].
  - apply (NoDup_singleton "R").
  - reflexivity.
  - discriminate.
  - reflexivity.
  - destruct (Hin eq_refl) as [Hroom Hsent].
    split.
    + apply (Hsent {| player_id := "B"; ws := 2 |}).
      * apply list_elem_of_In. right. left. reflexivity.
      * discriminate.
      * discriminate.
      * reflexivity.
    + rewrite Hroom. reflexivity.
Defined.

Lemma closed_socket_gets_nothing_witness :
  ∃ w', steps (onClose exampleWorld 5 2) exampleEvents = Returns w' ∧
        received w' 2 = [].
Proof.
  destruct (closed_socket_gets_nothing exampleEvents (onClose exampleWorld 5 2) 2)
    as (w' & Hsteps & _ & Hnone).
  - unfold isOpen. vm_compute. discriminate.
  - exists w'. split; [exact Hsteps|]. rewrite Hnone. reflexivity.
Defined.

End ServerRuns.
